(** * Polyflow SDK: provider interception and event deduplication

    A shallow embedding of the analytics middleware
    (core/middleware/provider.ts in its latest revision, and
    util/aes256gcm.ts) together with the properties its specification
    states about it, and further properties of the same code.

    Conventions of the embedding.
    - A JavaScript string of arbitrary content (the JSON serialisation
      of an event) is the list of its UTF-16 code units, each a [Z].
      Short ASCII strings (property names, hexadecimal text, storage
      keys) are Rocq [string]s.
    - A JavaScript number that the code uses as an integer is a [Z]; the
      32-bit coercions of the bit operators are written out.
    - A [Map] is a [gmap]; [localStorage] is a [gmap string string]
      where the code reads plain strings, and a typed slot where it
      stores JSON.
    - A function that can throw returns a [result]; an async function
      returns the [result] or the [promise] state it settles with.
    - Calls that leave the module (the socket's native [send], the
      cipher primitives, [JSON.parse], the chain registry) are fields of
      an environment record. *)

From stdpp Require Import gmap strings list fin_maps.
From Stdlib Require Import ZArith Lia DecimalString Decimal DecimalPos DecimalZ Ascii.

Local Open Scope Z_scope.
Set Warnings "-register-all".

(** ** A fragment of JavaScript *)

Module JS.

(** Values as [JSON.parse] produces them, plus [undefined].  Numbers
    are taken integral, as message ids, chain ids and error codes are. *)
Inductive value : Type :=
| VUndef
| VNull
| VBool (b : bool)
| VNum (n : Z)
| VStr (s : string)
| VArr (items : list value)
| VObj (fields : list (string * value)).

(** What a [throw] carries: a value thrown by foreign code, or one of
    the errors the engine itself raises. *)
Inductive exn : Type :=
| Thrown (v : value)
| TypeError
| SyntaxError
| Error (msg : string).

Inductive result (A : Type) : Type :=
| Ok (a : A)
| Throw (e : exn).
Arguments Ok {A} a.
Arguments Throw {A} e.

Definition bind {A B} (r : result A) (k : A -> result B) : result B :=
  match r with
  | Ok a => k a
  | Throw e => Throw e
  end.

(** ToBoolean. *)
Definition truthy (v : value) : bool :=
  match v with
  | VUndef | VNull => false
  | VBool b => b
  | VNum n => negb (n =? 0)
  | VStr s => negb (String.eqb s "")
  | VArr _ | VObj _ => true
  end.

Fixpoint assoc (k : string) (fields : list (string * value)) : value :=
  match fields with
  | [] => VUndef
  | (k', v) :: rest => if String.eqb k k' then v else assoc k rest
  end.

(** [v.name] for a property name that no built-in prototype defines
    (every name the engine reads from parsed JSON is of that kind):
    reading from [undefined] or [null] throws, an object yields its own
    field, anything else yields [undefined]. *)
Definition get_prop (v : value) (name : string) : result value :=
  match v with
  | VUndef | VNull => Throw TypeError
  | VObj fields => Ok (assoc name fields)
  | _ => Ok VUndef
  end.

(** [v[0]]. *)
Definition get_index0 (v : value) : result value :=
  match v with
  | VUndef | VNull => Throw TypeError
  | VArr items => Ok (hd VUndef items)
  | VStr (String c _) => Ok (VStr (String c EmptyString))
  | VObj fields => Ok (assoc "0" fields)
  | _ => Ok VUndef
  end.

(** [a === b] where at least one side is a primitive; two objects are
    never the same reference in the places the engine compares. *)
Definition strict_eq (a b : value) : bool :=
  match a, b with
  | VUndef, VUndef => true
  | VNull, VNull => true
  | VBool x, VBool y => Bool.eqb x y
  | VNum x, VNum y => x =? y
  | VStr x, VStr y => String.eqb x y
  | _, _ => false
  end.

Definition lower_ascii (c : ascii) : ascii :=
  let n := nat_of_ascii c in
  if ((65 <=? n) && (n <=? 90))%nat then ascii_of_nat (n + 32) else c.

Fixpoint lower (s : string) : string :=
  match s with
  | EmptyString => EmptyString
  | String c rest => String (lower_ascii c) (lower rest)
  end.

(** [v.toLowerCase()]: only a string has the method.  [lower] maps the
    ASCII letters, which is all there is in an address or a wallet name
    of the examples. *)
Definition toLowerCase (v : value) : result string :=
  match v with
  | VStr s => Ok (lower s)
  | _ => Throw TypeError
  end.

Fixpoint is_prefix (p s : string) : bool :=
  match p, s with
  | EmptyString, _ => true
  | String a p', String b s' => if Ascii.eqb a b then is_prefix p' s' else false
  | String _ _, EmptyString => false
  end.

(** [s.indexOf(p) !== -1]. *)
Fixpoint contains (p s : string) : bool :=
  is_prefix p s ||
  match s with
  | EmptyString => false
  | String _ s' => contains p s'
  end.

(** [v.includes(needle)]: strings search a substring, arrays search an
    element, nothing else parsed from JSON has the method. *)
Definition includes (v : value) (needle : string) : result bool :=
  match v with
  | VStr s => Ok (contains needle s)
  | VArr items => Ok (existsb (fun x => strict_eq x (VStr needle)) items)
  | _ => Throw TypeError
  end.

(** [typeof v === 'string']. *)
Definition is_string (v : value) : bool :=
  match v with
  | VStr _ => true
  | _ => false
  end.

(** [code == n] for a number [n], where [code] is a number, a boolean,
    or a string that spells an integer in plain decimal digits.  Any
    other value (another spelling of the number in a string, an array or
    object that converts to it) is not followed and counts as different. *)
Definition loose_eq_num (code : value) (n : Z) : bool :=
  match code with
  | VNum m => m =? n
  | VBool b => (if b then 1 else 0) =? n
  | VStr s => String.eqb s (NilZero.string_of_int (Z.to_int n))
  | _ => false
  end.

(** [v.indexOf(needle) !== -1]: the same search, on the same receivers. *)
Definition indexOf_found (v : value) (needle : string) : result bool :=
  includes v needle.

(** What a promise does in the end. *)
Inductive promise (A : Type) : Type :=
| Resolved (a : A)
| Rejected (e : exn)
| Pending.
Arguments Resolved {A} a.
Arguments Rejected {A} e.
Arguments Pending {A}.

(** ToInt32 on an integral number. *)
Definition ToInt32 (z : Z) : Z := (z + 2 ^ 31) mod 2 ^ 32 - 2 ^ 31.

(** [x << n]. *)
Definition shl (x n : Z) : Z := ToInt32 (Z.shiftl (ToInt32 x) (n mod 32)).

(** [x | y]. *)
Definition bitor (x y : Z) : Z := ToInt32 (Z.lor (ToInt32 x) (ToInt32 y)).

(** [n.toString()] for an integer below 10^21 in magnitude. *)
Definition Number_toString (n : Z) : string :=
  NilZero.string_of_int (Z.to_int n).

(** ToString, as [JSON.parse] applies it to its argument.  A parsed
    object that carries its own [toString] field has no callable
    conversion left. *)
Fixpoint ToString (v : value) : result string :=
  match v with
  | VUndef => Ok "undefined"%string
  | VNull => Ok "null"%string
  | VBool b => Ok (if b then "true" else "false")%string
  | VNum n => Ok (Number_toString n)
  | VStr s => Ok s
  | VArr items =>
      (fix join (l : list value) : result string :=
         match l with
         | [] => Ok EmptyString
         | x :: rest =>
             let first :=
               match x with
               | VUndef | VNull => Ok EmptyString
               | _ => ToString x
               end in
             match first, rest with
             | Throw e, _ => Throw e
             | Ok a, [] => Ok a
             | Ok a, _ :: _ => bind (join rest) (fun b => Ok (a ++ "," ++ b)%string)
             end
         end) items
  | VObj fields =>
      if existsb (fun kv => String.eqb (fst kv) "toString") fields
      then Throw TypeError
      else Ok "[object Object]"%string
  end.

End JS.

Notation "'do' x <- r ; k" := (JS.bind r (fun x => k))
  (at level 10, x name, r at level 100, k at level 200).

(** ** Event builder and deduplicator *)

Definition MIN_TIME_DIFF_FOR_EVENT_LOG_MS : Z := 1000.

(** [data.charCodeAt(i)], read inside [0, data.length). *)
Definition charCodeAt (data : list Z) (i : nat) : Z := nth i data 0.

(** The [for] loop of [hashEvent]: [fuel] is [len - i]. *)
Fixpoint hashEvent_loop (data : list Z) (fuel i : nat) (hash : Z) : Z :=
  match fuel with
  | O => hash
  | S fuel' =>
      let chr := charCodeAt data i in
      let hash := JS.shl hash 5 - hash + chr in
      let hash := JS.bitor hash 0 in
      hashEvent_loop data fuel' (S i) hash
  end.

(** [hashEvent] on the serialised event. *)
Definition hashEvent_data (data : list Z) : string :=
  JS.Number_toString (hashEvent_loop data (length data) 0 0).

Section Events.

(** Events are the object literals the loggers assemble, which
    [JSON.stringify] always turns into a string; the engine only ever
    looks at that serialisation. *)
Context {event : Type} (JSON_stringify : event -> list Z).

Definition hashEvent (e : event) : string :=
  hashEvent_data (JSON_stringify e).

(** The slot PF_EVENTS_HASH_MAP of [localStorage]: absent, or the
    entry list [storeMap] serialised. *)
Definition storage : Type := option (list (string * Z)).

(** [new Map(entries)]: a later entry for a key replaces an earlier one. *)
Definition Map_of_entries (entries : list (string * Z)) : gmap string Z :=
  foldl (fun m kv => <[kv.1 := kv.2]> m) ∅ entries.

Definition loadMap (ls : storage) : gmap string Z :=
  Map_of_entries (default [] ls).

Definition storeMap (hashMap : gmap string Z) : storage :=
  Some (map_to_list hashMap).

Definition storeEvent (eventHash : string) (timestamp : Z) (ls : storage) : storage :=
  let hashMap := loadMap ls in
  storeMap (<[eventHash := timestamp]> hashMap).

(** [now] is the value of [Date.now()] during the call. *)
Definition checkShouldLogEvent (e : event) (now : Z) (ls : storage) : bool * storage :=
  let eventHash := hashEvent e in
  let hashMap := loadMap ls in
  let currentTimestamp := now in
  let previousTimestamp := hashMap !! eventHash in
  let shouldBeLogged :=
    match previousTimestamp with
    | Some prev =>
        if negb (prev =? 0) then
          let timeDifference := currentTimestamp - prev in
          if timeDifference <? MIN_TIME_DIFF_FOR_EVENT_LOG_MS then false else true
        else true
    | None => true
    end in
  (shouldBeLogged, storeEvent eventHash currentTimestamp ls).

(** The guard every logger puts around its backend call
    ([if (checkShouldLogEvent(eventData)) gqlClient.request(...)]):
    the page state is the storage slot and the requests sent so far. *)
Definition submit (e : event) (now : Z) (st : storage * list event) : storage * list event :=
  let '(shouldBeLogged, ls') := checkShouldLogEvent e now st.1 in
  (ls', if shouldBeLogged then st.2 ++ [e] else st.2).

End Events.

(** ** Transaction finality watcher *)

Inductive TxStatus : Type := PENDING | SUCCESS | FAILURE | CANCELLED.

Record TxReceipt : Type := mkTxReceipt {
  blockNumber : JS.value;
  status : TxStatus
}.

(** What [waitMined] does besides returning: the receipt lookups it
    issues and the sleeps it takes, in order. *)
Inductive poll_effect : Type :=
| GetTransactionReceipt (attempt : nat)
| Sleep (ms : Z).

(** The [while (attempts < retries)] loop; [fuel] is [retries - attempts].
    [request k] is what [provider.request] settles with on the lookup
    issued when [attempts = k]. *)
Fixpoint waitMined_loop (request : nat -> JS.result JS.value)
    (pollIntervalSeconds : Z) (fuel attempts : nat)
  : list poll_effect * JS.result (option TxReceipt) :=
  match fuel with
  | O => ([], JS.Ok None)
  | S fuel' =>
      match request attempts with
      | JS.Throw e => ([GetTransactionReceipt attempts], JS.Throw e)
      | JS.Ok receipt =>
          let mined :=
            if JS.truthy receipt then
              match JS.get_prop receipt "blockNumber" with
              | JS.Ok bn => if JS.truthy bn then Some bn else None
              | JS.Throw _ => None
              end
            else None in
          match mined with
          | Some bn =>
              let status := match JS.get_prop receipt "status" with
                            | JS.Ok v => v
                            | JS.Throw _ => JS.VUndef
                            end in
              ([GetTransactionReceipt attempts],
               JS.Ok (Some {| blockNumber := bn;
                              status := if JS.strict_eq status (JS.VStr "0x0")
                                        then FAILURE else SUCCESS |}))
          | None =>
              let '(effects, r) :=
                waitMined_loop request pollIntervalSeconds fuel' (S attempts) in
              (GetTransactionReceipt attempts :: Sleep (pollIntervalSeconds * 1000) :: effects, r)
          end
      end
  end.

(** [waitMined(eventData, provider, retries = 50, pollIntervalSeconds = 5)];
    an omitted argument is [None]. *)
Definition waitMined (request : nat -> JS.result JS.value)
    (retries : option nat) (pollIntervalSeconds : option Z)
  : list poll_effect * JS.result (option TxReceipt) :=
  let retries := default 50%nat retries in
  let pollIntervalSeconds := default 5 pollIntervalSeconds in
  waitMined_loop request pollIntervalSeconds retries 0.

(** ** Wallet session stores *)

Inductive ProviderName : Type :=
| metamask | trust | gowallet | alphawallet | status_wallet | coinbase
| cipher | mist | parity | infura | localhost | walletconnect | rabby
| frame | unknown.

(** The injected object as brand detection sees it: the truthiness of
    each capability flag, the name of its constructor and its [host]. *)
Record InjectedProvider : Type := mkInjectedProvider {
  isTrust : bool;
  isGoWallet : bool;
  isAlphaWallet : bool;
  isStatus : bool;
  isCoinbaseWallet : bool;
  isToshi : bool;
  isRabby : bool;
  isFrame : bool;
  isMetaMask : bool;
  constructor_name : string;
  host : JS.value
}.

(** [host && host.indexOf(needle) !== -1]. *)
Definition host_mentions (p : InjectedProvider) (needle : string) : JS.result bool :=
  if JS.truthy (host p) then JS.indexOf_found (host p) needle else JS.Ok false.

(** [window_CIPHER] tells whether [window.__CIPHER__] is defined. *)
Definition getProviderNameForMetamask (window_CIPHER : bool) (fetchedProvider : InjectedProvider)
  : JS.result ProviderName :=
  if isTrust fetchedProvider then JS.Ok trust
  else if isGoWallet fetchedProvider then JS.Ok gowallet
  else if isAlphaWallet fetchedProvider then JS.Ok alphawallet
  else if isStatus fetchedProvider then JS.Ok status_wallet
  else if isCoinbaseWallet fetchedProvider then JS.Ok coinbase
  else if isRabby fetchedProvider then JS.Ok rabby
  else if isFrame fetchedProvider then JS.Ok frame
  else if window_CIPHER then JS.Ok cipher
  else if String.eqb (constructor_name fetchedProvider) "EthereumProvider" then JS.Ok mist
  else if String.eqb (constructor_name fetchedProvider) "Web3FrameProvider" then JS.Ok parity
  else
    do inf <- host_mentions fetchedProvider "infura";
    if inf then JS.Ok infura
    else
      do loc <- host_mentions fetchedProvider "localhost";
      if loc then JS.Ok localhost
      else if isMetaMask fetchedProvider then JS.Ok metamask
      else JS.Ok unknown.

(** The earlier revision of the same function, which the repository
    still carries next to the current one: it asks for [isMetaMask]
    before anything else and knows neither Rabby nor Frame. *)
Definition getProviderNameForMetamask_v1 (window_CIPHER : bool) (fetchedProvider : InjectedProvider)
  : JS.result ProviderName :=
  if isMetaMask fetchedProvider then JS.Ok metamask
  else if isTrust fetchedProvider then JS.Ok trust
  else if isGoWallet fetchedProvider then JS.Ok gowallet
  else if isAlphaWallet fetchedProvider then JS.Ok alphawallet
  else if isStatus fetchedProvider then JS.Ok status_wallet
  else if isToshi fetchedProvider then JS.Ok coinbase
  else if window_CIPHER then JS.Ok cipher
  else if String.eqb (constructor_name fetchedProvider) "EthereumProvider" then JS.Ok mist
  else if String.eqb (constructor_name fetchedProvider) "Web3FrameProvider" then JS.Ok parity
  else
    do inf <- host_mentions fetchedProvider "infura";
    if inf then JS.Ok infura
    else
      do loc <- host_mentions fetchedProvider "localhost";
      if loc then JS.Ok localhost
      else JS.Ok unknown.

(** The probes of the current revision as a priority list: the reading
    of the specification ("a fixed, ordered set of capability-flag
    probes; the first matching probe wins"). *)
Definition probes (window_CIPHER : bool)
  : list ((InjectedProvider -> JS.result bool) * ProviderName) :=
  [ (fun p => JS.Ok (isTrust p), trust);
    (fun p => JS.Ok (isGoWallet p), gowallet);
    (fun p => JS.Ok (isAlphaWallet p), alphawallet);
    (fun p => JS.Ok (isStatus p), status_wallet);
    (fun p => JS.Ok (isCoinbaseWallet p), coinbase);
    (fun p => JS.Ok (isRabby p), rabby);
    (fun p => JS.Ok (isFrame p), frame);
    (fun _ => JS.Ok window_CIPHER, cipher);
    (fun p => JS.Ok (String.eqb (constructor_name p) "EthereumProvider"), mist);
    (fun p => JS.Ok (String.eqb (constructor_name p) "Web3FrameProvider"), parity);
    (fun p => host_mentions p "infura", infura);
    (fun p => host_mentions p "localhost", localhost);
    (fun p => JS.Ok (isMetaMask p), metamask) ].

Fixpoint first_match (ps : list ((InjectedProvider -> JS.result bool) * ProviderName))
    (p : InjectedProvider) : JS.result ProviderName :=
  match ps with
  | [] => JS.Ok unknown
  | (probe, label) :: rest =>
      do hit <- probe p;
      if hit then JS.Ok label else first_match rest p
  end.

Record CbObject : Type := mkCbObject {
  sessionId : string;
  sessionSecret : string;
  addresses : string;
  linked : string;
  defaultChainId : string;
  defaultJsonRpcUrl : string
}.

(** Truthiness of what [localStorage.getItem] returns: a non-empty string. *)
Definition present (item : option string) : bool :=
  match item with
  | Some s => negb (String.eqb s "")
  | None => false
  end.

(** [fetchCbObject(newAddressesValue?)]: reads the relay keys and assigns
    the module variable [cbObject], whose new value is returned. *)
Definition fetchCbObject (localStorage : gmap string string)
    (newAddressesValue : option string) (cbObject : option CbObject)
  : option CbObject :=
  let sessionId := localStorage !! "-walletlink:https://www.walletlink.org:session:id" in
  let linked := localStorage !! "-walletlink:https://www.walletlink.org:session:linked" in
  let defaultChainId := localStorage !! "-walletlink:https://www.walletlink.org:DefaultChainId" in
  let defaultJsonRpcUrl := localStorage !! "-walletlink:https://www.walletlink.org:DefaultJsonRpcUrl" in
  let sessionSecret := localStorage !! "-walletlink:https://www.walletlink.org:session:secret" in
  let addresses :=
    match newAddressesValue with
    | Some a => Some a
    | None => localStorage !! "-walletlink:https://www.walletlink.org:Addresses"
    end in
  if present sessionId
     && present linked
     && bool_decide (linked = Some "1")
     && present addresses
     && (0 <? Z.of_nat (String.length (default "" addresses)))
     && present sessionSecret
     && present defaultChainId
     && present defaultJsonRpcUrl
  then Some {| sessionId := default "" sessionId;
               sessionSecret := default "" sessionSecret;
               linked := default "" linked;
               addresses := default "" addresses;
               defaultChainId := default "" defaultChainId;
               defaultJsonRpcUrl := default "" defaultJsonRpcUrl |}
  else cbObject.

(** ** Bridge cipher (util/aes256gcm.ts) *)

(** The characters the pattern [.] refuses. *)
Definition is_line_terminator (c : ascii) : bool :=
  let n := nat_of_ascii c in ((n =? 10) || (n =? 13))%nat.

(** [hexString.match(/.{1,2}/g)]: the successive greedy matches, the
    empty list standing for [null]. *)
Fixpoint match_pairs (hexString : string) : list string :=
  match hexString with
  | EmptyString => []
  | String a rest =>
      if is_line_terminator a then match_pairs rest
      else
        match rest with
        | EmptyString => [String a EmptyString]
        | String b rest' =>
            if is_line_terminator b then String a EmptyString :: match_pairs rest
            else String a (String b EmptyString) :: match_pairs rest'
        end
  end.

Definition is_white_space (c : ascii) : bool :=
  let n := nat_of_ascii c in
  ((n =? 9) || (n =? 10) || (n =? 11) || (n =? 12) || (n =? 13) || (n =? 32) || (n =? 160))%nat.

Fixpoint trim_start (s : string) : string :=
  match s with
  | String c rest => if is_white_space c then trim_start rest else s
  | EmptyString => EmptyString
  end.

Definition hex_digit (c : ascii) : option Z :=
  let n := Z.of_nat (nat_of_ascii c) in
  if (48 <=? n) && (n <=? 57) then Some (n - 48)
  else if (97 <=? n) && (n <=? 102) then Some (n - 87)
  else if (65 <=? n) && (n <=? 70) then Some (n - 55)
  else None.

(** The longest prefix of hexadecimal digits, read most significant
    first on top of [acc]; [None] when there is no digit at all. *)
Fixpoint hex_prefix (s : string) (acc : option Z) : option Z :=
  match s with
  | EmptyString => acc
  | String c rest =>
      match hex_digit c with
      | Some d => hex_prefix rest (Some (16 * default 0 acc + d))
      | None => acc
      end
  end.

(** [parseInt(s, 16)]; [None] is NaN. *)
Definition parseInt16 (s : string) : option Z :=
  let s := trim_start s in
  let '(sign, s) :=
    match s with
    | String "-" rest => (-1, rest)
    | String "+" rest => (1, rest)
    | _ => (1, s)
    end in
  let s :=
    match s with
    | String "0" (String "x" rest) => rest
    | String "0" (String "X" rest) => rest
    | _ => s
    end in
  match hex_prefix s None with
  | Some n => Some (sign * n)
  | None => None
  end.

(** The conversion a [Uint8Array] applies to each element it is built
    from: NaN becomes 0, an integer is reduced modulo 256. *)
Definition ToUint8 (n : option Z) : Z :=
  match n with
  | Some z => z mod 256
  | None => 0
  end.

Definition hexStringToUint8Array (hexString : string) : JS.result (list Z) :=
  match match_pairs hexString with
  | [] => JS.Throw JS.TypeError
  | pairs => JS.Ok (map (fun byte => ToUint8 (parseInt16 byte)) pairs)
  end.

(** [bytes.slice(from, to)] and [bytes.slice(from)] for constant
    non-negative bounds. *)
Definition slice {A} (bytes : list A) (from to : nat) : list A :=
  firstn (to - from) (skipn from bytes).

Definition slice_from {A} (bytes : list A) (from : nat) : list A :=
  skipn from bytes.

(** The Web Crypto calls and the text decoder the routine relies on. *)
Record SubtleCrypto : Type := mkSubtleCrypto {
  CryptoKey : Type;
  (** [crypto.subtle.importKey('raw', bytes, {name: 'aes-gcm'}, ...)] *)
  importKey : list Z -> JS.result CryptoKey;
  (** [crypto.subtle.decrypt({name: 'AES-GCM', iv}, key, data)] *)
  subtle_decrypt : list Z -> CryptoKey -> list Z -> JS.result (list Z);
  (** [new TextDecoder().decode(bytes)] *)
  decode : list Z -> string
}.

(** [aes256gcmDecrypt(cipherText, secret)].  The length test throws
    before the promise exists.  Inside the promise, only the decrypt call
    sits in the [try]: a failure before it rejects the inner anonymous
    function, whose promise nobody holds, and the promise returned to
    the caller stays pending. *)
Definition aes256gcmDecrypt (crypto : SubtleCrypto) (cipherText secret : string)
  : JS.result (JS.promise string) :=
  if negb (String.length secret =? 64)%nat then
    JS.Throw (JS.Error "secret must be 256 bits")
  else
    JS.Ok
      match hexStringToUint8Array secret with
      | JS.Throw _ => JS.Pending
      | JS.Ok keyBytes =>
          match importKey crypto keyBytes with
          | JS.Throw _ => JS.Pending
          | JS.Ok secretKey =>
              match hexStringToUint8Array cipherText with
              | JS.Throw _ => JS.Pending
              | JS.Ok encrypted =>
                  let ivBytes := slice encrypted 0 12 in
                  let authTagBytes := slice encrypted 12 28 in
                  let encryptedPlaintextBytes := slice_from encrypted 28 in
                  let concattedBytes := encryptedPlaintextBytes ++ authTagBytes in
                  match subtle_decrypt crypto ivBytes secretKey concattedBytes with
                  | JS.Ok decrypted => JS.Resolved (decode crypto decrypted)
                  | JS.Throw err => JS.Rejected err
                  end
              end
          end
      end.

(** The wire format of the relay, for stating what the routine expects:
    two lower-case hexadecimal digits per byte. *)
Definition hex_char (d : Z) : ascii :=
  ascii_of_nat (Z.to_nat (if d <? 10 then 48 + d else 87 + d)).

Fixpoint hex_of_bytes (bytes : list Z) : string :=
  match bytes with
  | [] => EmptyString
  | b :: rest => String (hex_char (b / 16)) (String (hex_char (b mod 16)) (hex_of_bytes rest))
  end.

Definition is_byte (b : Z) : Prop := 0 <= b < 256.

Fixpoint is_hex_string (s : string) : bool :=
  match s with
  | EmptyString => true
  | String c rest =>
      match hex_digit c with
      | Some _ => is_hex_string rest
      | None => false
      end
  end.

(** ** What the interceptors hand to the loggers *)

Inductive ProviderType : Type := type_injected | type_walletconnect | type_coinbase.

(** The transport handle of a wallet: the page's own [window.ethereum],
    an HTTP client for an RPC endpoint, or [null]. *)
Inductive ProviderHandle : Type :=
| window_ethereum
| Web3HttpProvider (rpc : string)
| no_provider.

Record WalletResponse : Type := mkWalletResponse {
  type : ProviderType;
  provider : ProviderHandle;
  wallet : string;
  walletProvider : string
}.

Definition ProviderName_label (n : ProviderName) : string :=
  match n with
  | metamask => "metamask" | trust => "trust" | gowallet => "gowallet"
  | alphawallet => "alphawallet" | status_wallet => "status"
  | coinbase => "coinbase" | cipher => "cipher" | mist => "mist"
  | parity => "parity" | infura => "infura" | localhost => "localhost"
  | walletconnect => "walletconnect" | rabby => "rabby" | frame => "frame"
  | unknown => "unknown"
  end.

(** A call of one of the two loggers the interceptors use; neither is
    awaited by its caller. *)
Inductive logger_call : Type :=
| logWalletConnect (walletResult : WalletResponse)
| logSendTransaction (tx : JS.value) (txStatus : TxStatus) (result : JS.value)
    (walletResult : WalletResponse).

(** ** Provider interceptor *)

Inductive PropertyKey : Type :=
| PString (s : string)
| PSymbol (id : nat).

Definition PropertyKey_eqb (a b : PropertyKey) : bool :=
  match a, b with
  | PString x, PString y => String.eqb x y
  | PSymbol x, PSymbol y => Nat.eqb x y
  | _, _ => false
  end.

Definition proxiedFunctions : list PropertyKey := [PString "request"].

(** [list.includes(x)]. *)
Definition Array_includes (list : list PropertyKey) (x : PropertyKey) : bool :=
  existsb (PropertyKey_eqb x) list.

(** [err.code] in the [catch]: the engine's own errors carry none. *)
Definition exn_code (err : JS.exn) : JS.result JS.value :=
  match err with
  | JS.Thrown v => JS.get_prop v "code"
  | _ => JS.Ok JS.VUndef
  end.

(** The fourth argument of [logSendTransaction] as the wrapper builds it. *)
Definition injected_sender (window_CIPHER : bool) (fetchedProvider : InjectedProvider)
    (tx : JS.value) : JS.result WalletResponse :=
  do from <- JS.get_prop tx "from";
  do wallet <- JS.toLowerCase from;
  do name <- getProviderNameForMetamask window_CIPHER fetchedProvider;
  JS.Ok {| type := type_injected; provider := window_ethereum;
           wallet := wallet; walletProvider := ProviderName_label name |}.

(** The body of the [try]: the real call, then the logger that fits the
    method. *)
Definition request_try (underlying : list JS.value -> JS.result JS.value)
    (window_CIPHER : bool) (fetchedProvider : InjectedProvider)
    (method params : JS.value) (args : list JS.value)
  : list logger_call * JS.result JS.value :=
  match underlying args with
  | JS.Throw e => ([], JS.Throw e)
  | JS.Ok result =>
      if JS.strict_eq method (JS.VStr "eth_requestAccounts") then
        match (do first <- JS.get_index0 result;
               do wallet <- JS.toLowerCase first;
               do name <- getProviderNameForMetamask window_CIPHER fetchedProvider;
               JS.Ok {| type := type_injected; provider := window_ethereum;
                        wallet := wallet; walletProvider := ProviderName_label name |}) with
        | JS.Ok w => ([logWalletConnect w], JS.Ok result)
        | JS.Throw e => ([], JS.Throw e)
        end
      else if JS.strict_eq method (JS.VStr "eth_sendTransaction") then
        match (do tx <- JS.get_index0 params;
               do w <- injected_sender window_CIPHER fetchedProvider tx;
               JS.Ok (tx, w)) with
        | JS.Ok (tx, w) => ([logSendTransaction tx PENDING result w], JS.Ok result)
        | JS.Throw e => ([], JS.Throw e)
        end
      else ([], JS.Ok result)
  end.

(** The [catch (err)] block and what follows it: nothing, so the
    wrapper's promise resolves with [undefined] unless the block itself
    throws. *)
Definition request_catch (window_CIPHER : bool) (fetchedProvider : InjectedProvider)
    (params : JS.value) (err : JS.exn)
  : list logger_call * JS.result JS.value :=
  match exn_code err with
  | JS.Throw e => ([], JS.Throw e)
  | JS.Ok code =>
      if JS.truthy code && JS.loose_eq_num code 4001 then
        match (do tx <- JS.get_index0 params;
               do w <- injected_sender window_CIPHER fetchedProvider tx;
               JS.Ok (tx, w)) with
        | JS.Ok (tx, w) => ([logSendTransaction tx CANCELLED JS.VNull w], JS.Ok JS.VUndef)
        | JS.Throw e => ([], JS.Throw e)
        end
      else ([], JS.Ok JS.VUndef)
  end.

(** The async function the [get] trap returns for [request].
    [underlying args] is what awaiting
    [Reflect.get(target, prop, receiver)(...args)] gives; the result is
    the logger calls made and what the wrapper's promise settles with. *)
Definition request_wrapper (underlying : list JS.value -> JS.result JS.value)
    (window_CIPHER : bool) (fetchedProvider : InjectedProvider)
    (args : list JS.value)
  : list logger_call * JS.result JS.value :=
  let arg0 := nth 0 args JS.VUndef in
  let arg0IsMethodString := JS.is_string arg0 in
  match (if arg0IsMethodString then JS.Ok arg0 else JS.get_prop arg0 "method") with
  | JS.Throw e => ([], JS.Throw e)
  | JS.Ok method =>
      match (if arg0IsMethodString then JS.Ok (nth 1 args JS.VUndef)
             else JS.get_prop arg0 "params") with
      | JS.Throw e => ([], JS.Throw e)
      | JS.Ok params =>
          match request_try underlying window_CIPHER fetchedProvider method params args with
          | (calls, JS.Ok result) => (calls, JS.Ok result)
          | (calls, JS.Throw err) =>
              let '(calls', r) := request_catch window_CIPHER fetchedProvider params err in
              (calls ++ calls', r)
          end
      end
  end.

(** What reading a property through the proxy yields. *)
Inductive proxied (V : Type) : Type :=
| Forwarded (v : V)
| Intercepted (wrapper : list JS.value -> list logger_call * JS.result JS.value).
Arguments Forwarded {V} v.
Arguments Intercepted {V} wrapper.

Section Handler.

(** The wrapped object, the proxy that stands for it, the values its
    properties hold, [Reflect.get], and calling such a value as a
    function and awaiting the outcome. *)
Context {Target Receiver V : Type}.
Context (Reflect_get : Target -> PropertyKey -> Receiver -> V).
Context (apply_await : V -> list JS.value -> JS.result JS.value).

(** [handler.get(target, prop, receiver)] *)
Definition handler_get (window_CIPHER : bool) (fetchedProvider : InjectedProvider)
    (target : Target) (prop : PropertyKey) (receiver : Receiver) : proxied V :=
  if negb (Array_includes proxiedFunctions prop) then
    Forwarded (Reflect_get target prop receiver)
  else
    Intercepted
      (request_wrapper (apply_await (Reflect_get target prop receiver))
         window_CIPHER fetchedProvider).

End Handler.

(** ** Transport interceptor *)

(** The fields of the persisted WalletConnect pairing record the
    interceptor reads. *)
Record WCObject : Type := mkWCObject {
  clientId : string;
  peerId : string;
  chainId : Z;
  key : string;
  peerMeta_name : string
}.

(** Keys of [wsMessages].  A [Map] compares keys by SameValueZero:
    primitives by content, objects by identity, and an object parsed
    from a frame is identical to nothing stored before. *)
Inductive MapKey : Type :=
| KNum (n : Z)
| KStr (s : string)
| KBool (b : bool).

#[global] Instance MapKey_eq_dec : EqDecision MapKey.
Proof. solve_decision. Defined.

#[global] Instance MapKey_countable : Countable MapKey.
Proof.
  refine (inj_countable'
            (fun k => match k with
                      | KNum n => inl (inl n)
                      | KStr s => inl (inr s)
                      | KBool b => inr b
                      end)
            (fun x => match x with
                      | inl (inl n) => KNum n
                      | inl (inr s) => KStr s
                      | inr b => KBool b
                      end) _).
  intros []; reflexivity.
Defined.

Definition to_key (id : JS.value) : option MapKey :=
  match id with
  | JS.VNum n => Some (KNum n)
  | JS.VStr s => Some (KStr s)
  | JS.VBool b => Some (KBool b)
  | _ => None
  end.

(** [wsMessages.has(id)], [wsMessages.get(id)], [wsMessages.set(id, v)]. *)
Definition Map_has (m : gmap MapKey JS.value) (id : JS.value) : bool :=
  match to_key id with
  | Some k => bool_decide (is_Some (m !! k))
  | None => false
  end.

Definition Map_get (m : gmap MapKey JS.value) (id : JS.value) : JS.value :=
  match to_key id with
  | Some k => default JS.VUndef (m !! k)
  | None => JS.VUndef
  end.

Definition Map_set (m : gmap MapKey JS.value) (id v : JS.value) : gmap MapKey JS.value :=
  match to_key id with
  | Some k => <[k := v]> m
  | None => m
  end.

(** The module variables the socket wrapper works on. *)
Record WsState : Type := mkWsState {
  wcObject : option WCObject;
  cbObject : option CbObject;
  wsMessages : gmap MapKey JS.value
}.

(** Everything the socket wrapper calls but does not define. *)
Record Bridge : Type := mkBridge {
  (** what a socket carries, and the text [JSON.parse] makes of it *)
  Frame : Type;
  Frame_toString : Frame -> string;
  (** [JSON.parse] on a string; [None] is its SyntaxError *)
  JSON_parse : string -> option JS.value;
  (** awaiting [decrypt(payload, wcObject)] *)
  decrypt : JS.value -> WCObject -> JS.result JS.value;
  crypto : SubtleCrypto;
  (** awaiting [chainIdToWeb3Provider(chainId)] *)
  chainIdToWeb3Provider : JS.value -> JS.result ProviderHandle;
  (** the socket's native [send] *)
  originalSend : Frame -> JS.result JS.value
}.

Inductive ws_effect (B : Bridge) : Type :=
| Log (msg : string)
| OriginalSend (arguments : Frame B)
| Logger (call : logger_call)
| UnhandledRejection (e : JS.exn).
Arguments Log {B} msg.
Arguments OriginalSend {B} arguments.
Arguments Logger {B} call.
Arguments UnhandledRejection {B} e.

(** A computation that leaves a trace and may throw part-way. *)
Definition task (B : Bridge) (A : Type) : Type := list (ws_effect B) * JS.result A.

Definition ret {B A} (a : A) : task B A := ([], JS.Ok a).

Definition lift {B A} (r : JS.result A) : task B A := ([], r).

Definition pfLog {B} (msg : string) : task B unit := ([Log msg], JS.Ok tt).

Definition call {B} (c : logger_call) : task B unit := ([Logger c], JS.Ok tt).

Definition then_ {B A C} (t : task B A) (k : A -> task B C) : task B C :=
  match t with
  | (trace, JS.Ok a) => let '(trace', r) := k a in (trace ++ trace', r)
  | (trace, JS.Throw e) => (trace, JS.Throw e)
  end.

Notation "'run' x <- t ; k" := (then_ t (fun x => k))
  (at level 10, x name, t at level 100, k at level 200).
Notation "t ;; k" := (then_ t (fun _ => k))
  (at level 100, k at level 200, right associativity).

(** [JSON.parse(v)] on an arbitrary value. *)
Definition JSON_parse_value (B : Bridge) (v : JS.value) : JS.result JS.value :=
  do text <- JS.ToString v;
  match JSON_parse B text with
  | Some parsed => JS.Ok parsed
  | None => JS.Throw JS.SyntaxError
  end.

(** [aes256gcmDecrypt(data, secret)] where [data] is whatever the frame
    held: on anything but a string, [hexString.match] is not a function,
    which happens inside the promise. *)
Definition aes256gcmDecrypt_value (B : Bridge) (data : JS.value) (secret : string)
  : JS.result (JS.promise string) :=
  match data with
  | JS.VStr cipherText => aes256gcmDecrypt (crypto B) cipherText secret
  | _ =>
      if negb (String.length secret =? 64)%nat then
        JS.Throw (JS.Error "secret must be 256 bits")
      else JS.Ok JS.Pending
  end.

(** [wcObject?.clientId] and [wcObject?.peerId]. *)
Definition optional_field (wc : option WCObject) (field : WCObject -> string) : JS.value :=
  match wc with
  | Some o => JS.VStr (field o)
  | None => JS.VUndef
  end.

Section Sockets.

Context (B : Bridge).

(** The wallet descriptions the listener passes to [logSendTransaction]. *)
Definition walletconnect_sender (wc : WCObject) (txData : JS.value) : task B WalletResponse :=
  run handle <- lift (chainIdToWeb3Provider B (JS.VNum (chainId wc)));
  run from <- lift (JS.get_prop txData "from");
  run wallet <- lift (JS.toLowerCase from);
  ret {| type := type_walletconnect; provider := handle; wallet := wallet;
         walletProvider := JS.lower (peerMeta_name wc) |}.

Definition coinbase_sender (txData : JS.value) : task B WalletResponse :=
  run chain <- lift (JS.get_prop txData "chainId");
  run handle <- lift (chainIdToWeb3Provider B chain);
  run from <- lift (JS.get_prop txData "from");
  run wallet <- lift (JS.toLowerCase from);
  ret {| type := type_coinbase; provider := handle; wallet := wallet;
         walletProvider := "coinbase" |}.

(** The listener once a WalletConnect payload is decrypted. *)
Definition on_walletconnect_response (st : WsState) (wc : WCObject) (decrypted : JS.value)
  : task B unit :=
  run id <- lift (JS.get_prop decrypted "id");
  if JS.truthy id && Map_has (wsMessages st) id then
    pfLog "PF >>> Payload is a response to an eth_sendTransaction message" ;;
    let txData := Map_get (wsMessages st) id in
    pfLog "PF >>> Transaction data: " ;;
    run error <- lift (JS.get_prop decrypted "error");
    if JS.truthy error then
      pfLog "PF >>> Transaction not sent! RPC error detected: " ;;
      run message <- lift (JS.get_prop error "message");
      run rejected <- lift (if JS.truthy message then JS.includes message "rejected"
                            else JS.Ok false);
      if rejected then
        pfLog "PF >>> Transaction was rejected by user!" ;;
        run w <- walletconnect_sender wc txData;
        call (logSendTransaction txData CANCELLED JS.VNull w)
      else ret tt
    else
      run hash <- lift (JS.get_prop decrypted "result");
      pfLog "PF >>> Transaction hash: " ;;
      run w <- walletconnect_sender wc txData;
      call (logSendTransaction txData PENDING hash w)
  else
    pfLog "PF >>> Payload is not a response to eth_sendTransaction message...".

(** The listener once a Coinbase relay message is decrypted to text. *)
Definition on_coinbase_response (st : WsState) (decryptedString : string) : task B unit :=
  run decrypted <- lift (JSON_parse_value B (JS.VStr decryptedString));
  pfLog "PF >>> Decrypted coinbase message: " ;;
  run id <- lift (JS.get_prop decrypted "id");
  if JS.truthy id && Map_has (wsMessages st) id then
    pfLog "PF >>> Payload is a response to an coinbase signEthereumTransaction message with broadcast=true" ;;
    let txData := Map_get (wsMessages st) id in
    pfLog "PF >>> Transaction data: " ;;
    run response <- lift (JS.get_prop decrypted "response");
    run errorMessage <- lift (JS.get_prop response "errorMessage");
    if JS.truthy errorMessage then
      pfLog "PF >>> Transaction not sent! RPC error detected: " ;;
      run rejected <- lift (JS.includes errorMessage "rejected");
      if rejected then
        pfLog "PF >>> Transaction was rejected by user!" ;;
        run w <- coinbase_sender txData;
        call (logSendTransaction txData CANCELLED JS.VNull w)
      else ret tt
    else
      run hash <- lift (JS.get_prop response "result");
      pfLog "PF >>> Transaction hash: " ;;
      run w <- coinbase_sender txData;
      call (logSendTransaction txData PENDING hash w)
  else ret tt.

(** How a listener run ends: its promise settles, or it waits forever on
    a promise that never does. *)
Definition listener_end (r : JS.result unit) : JS.promise unit :=
  match r with
  | JS.Ok _ => JS.Resolved tt
  | JS.Throw e => JS.Rejected e
  end.

(** The ['message'] listener of a proxied socket on one inbound frame:
    its trace, how its promise ends, and the module state it leaves. *)
Definition on_message (st : WsState) (data : Frame B)
  : list (ws_effect B) * JS.promise unit * WsState :=
  let settled (t : task B unit) := (fst t, listener_end (snd t), st) in
  let start : task B JS.value :=
    pfLog "PF >>> Intercepted incoming ws message" ;;
    lift (JSON_parse_value B (JS.VStr (Frame_toString B data))) in
  match start with
  | (trace, JS.Throw e) => (trace, JS.Rejected e, st)
  | (trace, JS.Ok messageObj) =>
      if negb (JS.truthy messageObj) then
        settled ((trace, JS.Ok tt) ;;
                 pfLog "PF >>> Could not parse ws message. Giving up on processing ws message: ")
      else
        let field name := match JS.get_prop messageObj name with
                          | JS.Ok v => v
                          | JS.Throw _ => JS.VUndef
                          end in
        let trace := trace ++ [Log "PF >>> Parsed ws message to object: "] in
        if JS.truthy (field "payload")
           && JS.strict_eq (field "topic") (optional_field (wcObject st) clientId) then
          match wcObject st with
          | None =>
              settled ((trace, JS.Ok tt) ;;
                       pfLog "PF >>> Could not fetch wc object. Giving up on processing ws message: ")
          | Some wc =>
              settled
                ((trace, JS.Ok tt) ;;
                 pfLog "PF >>> Message is a walletconnect message" ;;
                 run payload <- lift (JSON_parse_value B (field "payload"));
                 if negb (JS.truthy payload) then
                   pfLog "PF >>> Could not parse payload:"
                 else
                   pfLog "PF >>> Parsed payload: " ;;
                   run decrypted <- lift (decrypt B payload wc);
                   on_walletconnect_response st wc decrypted)
          end
        else if JS.strict_eq (field "type") (JS.VStr "Event")
                && JS.strict_eq (field "event") (JS.VStr "Web3Response")
                && JS.truthy (field "data") then
          let trace := trace ++ [Log "PF >>> Message is a coinbase message"] in
          match cbObject st with
          | None =>
              settled ((trace, JS.Ok tt) ;;
                       pfLog "PF >>> Could not fetch cb object. Giving up on decrypting data: ")
          | Some cb =>
              match aes256gcmDecrypt_value B (field "data") (sessionSecret cb) with
              | JS.Throw e => (trace, JS.Rejected e, st)
              | JS.Ok JS.Pending => (trace, JS.Pending, st)
              | JS.Ok (JS.Rejected e) => (trace, JS.Rejected e, st)
              | JS.Ok (JS.Resolved decryptedString) =>
                  settled ((trace, JS.Ok tt) ;; on_coinbase_response st decryptedString)
              end
          end
        else
          settled ((trace, JS.Ok tt) ;; pfLog "PF >>> Message not recognized!")
  end.

(** What an outbound frame leaves running after [send] has returned:
    the [then] callback on a decrypt promise. *)
Inductive job : Type :=
| WalletConnectJob (payload : JS.value) (wc : WCObject)
| CoinbaseJob (decrypting : JS.promise string).

(** The callback given to [decrypt(payload, wcObject).then]. *)
Definition on_walletconnect_request (st : WsState) (decrypted : JS.value)
  : task B WsState :=
  run id <- lift (JS.get_prop decrypted "id");
  run method <- lift (JS.get_prop decrypted "method");
  if JS.truthy id && JS.truthy method
     && JS.strict_eq method (JS.VStr "eth_sendTransaction") then
    pfLog "PF >>> Payload is eth_sendTransaction request with id: " ;;
    run all_params <- lift (JS.get_prop decrypted "params");
    run params <- lift (JS.get_index0 all_params);
    pfLog "PF >>> Storing tx params object: " ;;
    ret {| wcObject := wcObject st; cbObject := cbObject st;
           wsMessages := Map_set (wsMessages st) id params |}
  else
    pfLog "PF >>> Payload not eth_sendTransaction: " ;;
    ret st.

(** The callback given to [aes256gcmDecrypt(...).then]. *)
Definition on_coinbase_request (st : WsState) (decryptedString : string)
  : task B WsState :=
  run decrypted <- lift (JSON_parse_value B (JS.VStr decryptedString));
  run id <- lift (JS.get_prop decrypted "id");
  run kind <- lift (JS.get_prop decrypted "type");
  run st' <-
    (if JS.truthy id && JS.strict_eq kind (JS.VStr "WEB3_REQUEST") then
       pfLog "PF >>> Payload is a coinbase WEB3_REQUEST request with id: " ;;
       run requestObj <- lift (JS.get_prop decrypted "request");
       if JS.truthy requestObj
          && JS.strict_eq (match JS.get_prop requestObj "method" with
                           | JS.Ok m => m
                           | JS.Throw _ => JS.VUndef
                           end) (JS.VStr "signEthereumTransaction") then
         pfLog "PF >>> Payload is a coinbase WEB3_REQUEST signEthereumTransaction with params: " ;;
         run params <- lift (JS.get_prop requestObj "params");
         run shouldSubmit <- lift (JS.get_prop params "shouldSubmit");
         pfLog "PF >>> Should submit tx: " ;;
         if JS.truthy shouldSubmit then
           pfLog "PF >>> Storing tx params object" ;;
           run fromAddress <- lift (JS.get_prop params "fromAddress");
           run toAddress <- lift (JS.get_prop params "toAddress");
           run data <- lift (JS.get_prop params "data");
           run weiValue <- lift (JS.get_prop params "weiValue");
           run chain <- lift (JS.get_prop params "chainId");
           ret {| wcObject := wcObject st; cbObject := cbObject st;
                  wsMessages :=
                    Map_set (wsMessages st) id
                      (JS.VObj [("from", fromAddress); ("to", toAddress);
                                ("data", data); ("value", weiValue);
                                ("chainId", chain)]) |}
         else ret st
       else ret st
     else
       pfLog "PF >>> Payload not eth_sendTransaction: " ;;
       ret st);
  pfLog "PF >>> Decrypted message: " ;;
  ret st'.

(** Running a job to its end.  A callback that throws, or a decrypt
    promise that rejects, has no handler attached. *)
Definition run_job (st : WsState) (j : job) : list (ws_effect B) * WsState :=
  let finish (t : task B WsState) :=
    match t with
    | (trace, JS.Ok st') => (trace, st')
    | (trace, JS.Throw e) => (trace ++ [UnhandledRejection e], st)
    end in
  match j with
  | WalletConnectJob payload wc =>
      finish (run decrypted <- lift (decrypt B payload wc);
              on_walletconnect_request st decrypted)
  | CoinbaseJob JS.Pending => ([], st)
  | CoinbaseJob (JS.Rejected e) => ([UnhandledRejection e], st)
  | CoinbaseJob (JS.Resolved decryptedString) =>
      finish (on_coinbase_request st decryptedString)
  end.

(** The inspection [proxiedSend] makes inside its [try] before it
    forwards the frame; every way out of it that does not throw is a
    [return originalSend.apply(this, arguments)]. *)
Definition inspect_outgoing (st : WsState) (arguments : Frame B) : task B (option job) :=
  pfLog "PF >>> Intercepted outgoing ws message" ;;
  run messageObj <- lift (JSON_parse_value B (JS.VStr (Frame_toString B arguments)));
  if negb (JS.truthy messageObj) then
    pfLog "PF >>> Could not parse ws message. Giving up on processing ws message: " ;;
    ret None
  else
    let field name := match JS.get_prop messageObj name with
                      | JS.Ok v => v
                      | JS.Throw _ => JS.VUndef
                      end in
    pfLog "PF >>> Parsed ws message to object: " ;;
    if JS.truthy (field "payload")
       && JS.strict_eq (field "topic") (optional_field (wcObject st) peerId) then
      pfLog "PF >>> Message is a walletconnect message" ;;
      match wcObject st with
      | None =>
          pfLog "PF >>> Could not fetch wc object. Giving up on processing ws message: " ;;
          ret None
      | Some wc =>
          run payload <- lift (JSON_parse_value B (field "payload"));
          if negb (JS.truthy payload) then
            pfLog "PF >>> Could not parse payload:" ;;
            ret None
          else
            pfLog "PF >>> Parsed payload: " ;;
            ret (Some (WalletConnectJob payload wc))
      end
    else if JS.strict_eq (field "type") (JS.VStr "PublishEvent")
            && JS.strict_eq (field "event") (JS.VStr "Web3Request")
            && JS.truthy (field "data") then
      pfLog "PF >>> Message is a coinbase message" ;;
      match cbObject st with
      | None =>
          pfLog "PF >>> Could not fetch coinbase object. Giving up on processing coinbase message: " ;;
          ret None
      | Some cb =>
          run decrypting <- lift (aes256gcmDecrypt_value B (field "data") (sessionSecret cb));
          ret (Some (CoinbaseJob decrypting))
      end
    else
      pfLog "PF >>> Message is not a walletconnect message" ;;
      ret None.

Definition run_jobs (st : WsState) (j : option job) : list (ws_effect B) * WsState :=
  match j with
  | Some j => run_job st j
  | None => ([], st)
  end.

(** [proxiedSend]: what the page's call of [ws.send] does.  The trace
    lists the synchronous part first and then the job left behind; the
    result is what the call returns or throws to the page. *)
Definition proxiedSend (st : WsState) (arguments : Frame B)
  : list (ws_effect B) * JS.result JS.value * WsState :=
  let forward : task B JS.value :=
    ([OriginalSend arguments], originalSend B arguments) in
  let recover : task B JS.value :=
    pfLog "PF >>> Error handling websocked connection: " ;; forward in
  match inspect_outgoing st arguments with
  | (trace, JS.Throw _) =>
      let '(trace', r) := recover in
      (trace ++ trace', r, st)
  | (trace, JS.Ok j) =>
      let '(later, st') := run_jobs st j in
      match forward with
      | (sent, JS.Ok v) => (trace ++ sent ++ later, JS.Ok v, st')
      | (sent, JS.Throw _) =>
          let '(trace', r) := recover in
          (trace ++ sent ++ trace' ++ later, r, st')
      end
  end.

End Sockets.

(** ** Reference readings used in the statements *)

(** One round of the hash as the specification words it: shift, subtract,
    add the character code, keep 32 bits. *)
Definition hash_step (hash chr : Z) : Z :=
  JS.ToInt32 (JS.shl hash 5 - hash + chr).

Definition hash_fold (data : list Z) : Z := fold_left hash_step data 0.

(** The same number without the intermediate truncations. *)
Definition hash_poly (data : list Z) : Z :=
  fold_left (fun acc chr => 31 * acc + chr) data 0.

(** Every recorded timestamp is a clock reading after the epoch. *)
Definition stamped (ls : storage) : Prop :=
  forall h t, loadMap ls !! h = Some t -> 0 < t.


(** The code units of an ASCII text, for writing examples. *)
Fixpoint units (s : string) : list Z :=
  match s with
  | EmptyString => []
  | String c rest => Z.of_nat (nat_of_ascii c) :: units rest
  end.


(** [receipt.name] on a lookup response, [undefined] when there is none. *)
Definition receipt_field (receipt : JS.value) (name : string) : JS.value :=
  match JS.get_prop receipt name with
  | JS.Ok v => v
  | JS.Throw _ => JS.VUndef
  end.

(** The response carries a block number: [receipt && receipt.blockNumber]. *)
Definition mined (receipt : JS.value) : bool :=
  JS.truthy receipt && JS.truthy (receipt_field receipt "blockNumber").

(** The first [n] lookups all answered, none with a block number. *)
Definition quiet_until (request : nat -> JS.result JS.value) (n : nat) : Prop :=
  forall k, (k < n)%nat -> exists r, request k = JS.Ok r /\ mined r = false.

(** [n] unsuccessful rounds starting at attempt [a]: a lookup, then a
    sleep of [ms] milliseconds, each time. *)
Definition rounds (ms : Z) (a n : nat) : list poll_effect :=
  concat (map (fun k => [GetTransactionReceipt k; Sleep ms]) (seq a n)).


(** The brand flags that tell a wallet apart from MetaMask, in the
    order the probes ask for them. *)
Definition distinguishing (p : InjectedProvider) : option ProviderName :=
  if isTrust p then Some trust
  else if isGoWallet p then Some gowallet
  else if isAlphaWallet p then Some alphawallet
  else if isStatus p then Some status_wallet
  else if isCoinbaseWallet p then Some coinbase
  else if isRabby p then Some rabby
  else if isFrame p then Some frame
  else None.

(** The addresses value a parse of the relay session works with. *)
Definition relay_addresses (localStorage : gmap string string)
    (newAddressesValue : option string) : option string :=
  match newAddressesValue with
  | Some a => Some a
  | None => localStorage !! "-walletlink:https://www.walletlink.org:Addresses"
  end.

(** All six required fields of the relay session are there. *)
Definition relay_complete (localStorage : gmap string string)
    (newAddressesValue : option string) : Prop :=
  present (localStorage !! "-walletlink:https://www.walletlink.org:session:id") = true
  /\ localStorage !! "-walletlink:https://www.walletlink.org:session:linked" = Some "1"%string
  /\ present (relay_addresses localStorage newAddressesValue) = true
  /\ present (localStorage !! "-walletlink:https://www.walletlink.org:session:secret") = true
  /\ present (localStorage !! "-walletlink:https://www.walletlink.org:DefaultChainId") = true
  /\ present (localStorage !! "-walletlink:https://www.walletlink.org:DefaultJsonRpcUrl") = true.

(** A session descriptor with no field left empty. *)
Definition filled (o : CbObject) : Prop :=
  sessionId o <> ""%string /\ linked o = "1"%string /\ addresses o <> ""%string
  /\ sessionSecret o <> ""%string /\ defaultChainId o <> ""%string
  /\ defaultJsonRpcUrl o <> ""%string.


(** A linked relay session as the Coinbase SDK leaves it in storage,
    for the examples. *)
Definition linked_relay : gmap string string :=
  <["-walletlink:https://www.walletlink.org:session:id" := "4f1c"]>
  (<["-walletlink:https://www.walletlink.org:session:linked" := "1"]>
  (<["-walletlink:https://www.walletlink.org:session:secret" :=
       "000102030405060708090a0b0c0d0e0f101112131415161718191a1b1c1d1e1f"]>
  (<["-walletlink:https://www.walletlink.org:Addresses" := "0xAbC0000000000000000000000000000000000001"]>
  (<["-walletlink:https://www.walletlink.org:DefaultChainId" := "137"]>
  (<["-walletlink:https://www.walletlink.org:DefaultJsonRpcUrl" := "https://polygon-rpc.com"]>
   ∅))))).


(** The two characters [hex_of_bytes] writes for one byte. *)
Definition hex_pair (b : Z) : string :=
  String (hex_char (b / 16)) (String (hex_char (b mod 16)) EmptyString).

(** A stand-in for Web Crypto in the examples (not AES): keys are 32
    raw bytes, the tag of a message is the first 16 key bytes, and
    decrypting adds the first IV byte to every ciphertext byte. *)
Definition toy_crypto : SubtleCrypto :=
  {| CryptoKey := list Z;
     importKey := fun bytes =>
       if (length bytes =? 32)%nat then JS.Ok bytes
       else JS.Throw (JS.Error "DataError");
     subtle_decrypt := fun iv secretKey data =>
       let n := (length data - 16)%nat in
       if bool_decide (skipn n data = firstn 16 secretKey) then
         JS.Ok (map (fun c => (c + hd 0 iv) mod 256) (firstn n data))
       else JS.Throw (JS.Error "OperationError");
     decode := fun bytes =>
       fold_right (fun b s => String (ascii_of_nat (Z.to_nat b)) s) EmptyString bytes |}.


(** Sample values for the examples about the provider wrapper: a page
    whose wallet is plain MetaMask, a transaction, the request that
    submits it, and two provider errors (EIP-1193 code 4001 is "user
    rejected the request", -32603 is "internal error"). *)
Definition metamask_wallet : InjectedProvider :=
  {| isTrust := false; isGoWallet := false; isAlphaWallet := false;
     isStatus := false; isCoinbaseWallet := false; isToshi := false;
     isRabby := false; isFrame := false; isMetaMask := true;
     constructor_name := "Object"; host := JS.VUndef |}.

Definition sample_tx : JS.value :=
  JS.VObj [("from", JS.VStr "0xAbC0000000000000000000000000000000000001");
           ("to", JS.VStr "0xdef0000000000000000000000000000000000002");
           ("data", JS.VStr "0x");
           ("value", JS.VStr "0x1")].

Definition send_transaction_call : list JS.value :=
  [JS.VObj [("method", JS.VStr "eth_sendTransaction");
            ("params", JS.VArr [sample_tx])]].

Definition request_accounts_call : list JS.value :=
  [JS.VObj [("method", JS.VStr "eth_requestAccounts")]].

Definition user_rejected : JS.exn :=
  JS.Thrown (JS.VObj [("code", JS.VNum 4001);
                      ("message", JS.VStr "User rejected the request.")]).

Definition internal_error : JS.exn :=
  JS.Thrown (JS.VObj [("code", JS.VNum (-32603));
                      ("message", JS.VStr "Internal JSON-RPC error.")]).

(** The request names a method: its first argument is a string or an
    object. *)
Definition names_method (args : list JS.value) : Prop :=
  match nth 0 args JS.VUndef with
  | JS.VStr _ | JS.VObj _ => True
  | _ => False
  end.


(** A later state has every key of an earlier one. *)
Definition keeps_keys (st st' : WsState) : Prop :=
  forall k, is_Some (wsMessages st !! k) -> is_Some (wsMessages st' !! k).

(** The frames [send] was given, in order. *)
Definition sends {B : Bridge} (trace : list (ws_effect B)) : list (Frame B) :=
  omap (fun eff => match eff with
                   | OriginalSend arguments => Some arguments
                   | _ => None
                   end) trace.

(** The logger calls of a trace, in order. *)
Definition logger_calls {B : Bridge} (trace : list (ws_effect B)) : list logger_call :=
  omap (fun eff => match eff with
                   | Logger c => Some c
                   | _ => None
                   end) trace.

(** The rejections nobody handles, in order. *)
Definition unhandled {B : Bridge} (trace : list (ws_effect B)) : list JS.exn :=
  omap (fun eff => match eff with
                   | UnhandledRejection e => Some e
                   | _ => None
                   end) trace.

(** *** A small bridge for the examples

    JSON text is written by [JSON_text]; the sample parser knows the
    finitely many texts of the examples and refuses everything else. *)

Definition dquote : string := String (ascii_of_nat 34) EmptyString.

Fixpoint escape (s : string) : string :=
  match s with
  | EmptyString => EmptyString
  | String c rest =>
      if ((nat_of_ascii c =? 34) || (nat_of_ascii c =? 92))%nat
      then String (ascii_of_nat 92) (String c (escape rest))
      else String c (escape rest)
  end.

Fixpoint JSON_text (v : JS.value) : string :=
  match v with
  | JS.VUndef | JS.VNull => "null"
  | JS.VBool b => if b then "true" else "false"
  | JS.VNum n => JS.Number_toString n
  | JS.VStr s => dquote ++ escape s ++ dquote
  | JS.VArr items =>
      "[" ++ (fix join (l : list JS.value) : string :=
                match l with
                | [] => EmptyString
                | [x] => JSON_text x
                | x :: rest => JSON_text x ++ "," ++ join rest
                end) items ++ "]"
  | JS.VObj fields =>
      "{" ++ (fix join (l : list (string * JS.value)) : string :=
                match l with
                | [] => EmptyString
                | [(k, x)] => dquote ++ escape k ++ dquote ++ ":" ++ JSON_text x
                | (k, x) :: rest =>
                    dquote ++ escape k ++ dquote ++ ":" ++ JSON_text x ++ "," ++ join rest
                end) fields ++ "}"
  end%string.

Definition parse_among (known : list JS.value) (text : string) : option JS.value :=
  find (fun v => String.eqb (JSON_text v) text) known.

(** A WalletConnect frame: the socket message wraps the encrypted
    payload as text; the sample cipher leaves the plaintext in [data]. *)
Definition wc_frame (topic : string) (plaintext : JS.value) : JS.value :=
  JS.VObj [("topic", JS.VStr topic); ("type", JS.VStr "pub");
           ("payload",
            JS.VStr (JSON_text (JS.VObj [("data", JS.VStr (JSON_text plaintext));
                                         ("hmac", JS.VStr "00");
                                         ("iv", JS.VStr "00")])))].

Definition wc_payload (plaintext : JS.value) : JS.value :=
  JS.VObj [("data", JS.VStr (JSON_text plaintext));
           ("hmac", JS.VStr "00"); ("iv", JS.VStr "00")].

(** The request of transaction 1, its result, and its refusal. *)
Definition tx_request : JS.value :=
  JS.VObj [("id", JS.VNum 1); ("jsonrpc", JS.VStr "2.0");
           ("method", JS.VStr "eth_sendTransaction");
           ("params", JS.VArr [sample_tx])].

Definition tx_result : JS.value :=
  JS.VObj [("id", JS.VNum 1); ("jsonrpc", JS.VStr "2.0");
           ("result", JS.VStr "0x9f3e")].

Definition tx_refusal : JS.value :=
  JS.VObj [("id", JS.VNum 1); ("jsonrpc", JS.VStr "2.0");
           ("error", JS.VObj [("code", JS.VNum (-32000));
                              ("message", JS.VStr "User rejected the transaction")])].

(** A frame whose payload is well-formed but does not decrypt. *)
Definition undecryptable_payload : JS.value :=
  JS.VObj [("data", JS.VStr "zz"); ("hmac", JS.VStr "00"); ("iv", JS.VStr "00")].

Definition undecryptable_frame (topic : string) : JS.value :=
  JS.VObj [("topic", JS.VStr topic); ("type", JS.VStr "pub");
           ("payload", JS.VStr (JSON_text undecryptable_payload))].

Definition sample_texts : list JS.value :=
  [ tx_request; tx_result; tx_refusal;
    undecryptable_payload; undecryptable_frame "wallet"; undecryptable_frame "dapp";
    wc_payload tx_request; wc_payload tx_result; wc_payload tx_refusal;
    wc_frame "wallet" tx_request; wc_frame "dapp" tx_result;
    wc_frame "dapp" tx_refusal;
    JS.VObj [("topic", JS.VStr "wallet"); ("type", JS.VStr "pub");
             ("payload", JS.VStr "garbled")];
    JS.VNull ].

Definition sample_decrypt (payload : JS.value) (wc : WCObject) : JS.result JS.value :=
  do data <- JS.get_prop payload "data";
  match data with
  | JS.VStr text =>
      match parse_among sample_texts text with
      | Some v => JS.Ok v
      | None => JS.Throw JS.SyntaxError
      end
  | _ => JS.Throw JS.TypeError
  end.

Definition sample_chains (chain : JS.value) : JS.result ProviderHandle :=
  match chain with
  | JS.VUndef | JS.VNull => JS.Throw JS.TypeError
  | JS.VNum 137 => JS.Ok (Web3HttpProvider "https://polygon-rpc.com")
  | _ => JS.Ok no_provider
  end.

(** An open socket, whose [send] returns [undefined]. *)
Definition sample_bridge : Bridge :=
  {| Frame := string;
     Frame_toString := fun text => text;
     JSON_parse := parse_among sample_texts;
     decrypt := sample_decrypt;
     crypto := toy_crypto;
     chainIdToWeb3Provider := sample_chains;
     originalSend := fun _ => JS.Ok JS.VUndef |}.

(** The same on a socket that is still connecting, whose [send] throws. *)
Definition connecting_bridge : Bridge :=
  {| Frame := string;
     Frame_toString := fun text => text;
     JSON_parse := parse_among sample_texts;
     decrypt := sample_decrypt;
     crypto := toy_crypto;
     chainIdToWeb3Provider := sample_chains;
     originalSend := fun _ => JS.Throw (JS.Error "InvalidStateError") |}.

(** A page paired with a wallet over WalletConnect, nothing in flight. *)
Definition paired : WsState :=
  {| wcObject := Some {| clientId := "dapp"; peerId := "wallet"; chainId := 137;
                         key := "00"; peerMeta_name := "Rainbow" |};
     cbObject := None;
     wsMessages := ∅ |}.

Definition rainbow_sender : WalletResponse :=
  {| type := type_walletconnect;
     provider := Web3HttpProvider "https://polygon-rpc.com";
     wallet := "0xabc0000000000000000000000000000000000001";
     walletProvider := "rainbow" |}.


(** *** Readings used by the further properties *)

(** A run of submissions of events at their clock readings, in order. *)
Definition submit_all {event : Type} (JSON_stringify : event -> list Z)
    (arrivals : list (event * Z)) (st : storage * list event) : storage * list event :=
  foldl (fun st arrival => submit JSON_stringify arrival.1 arrival.2 st) st arrivals.

(** Each reading of the list comes less than the window after the one
    before it, the first one after [start]. *)
Fixpoint close_together (start : Z) (times : list Z) : Prop :=
  match times with
  | [] => True
  | t :: rest =>
      0 < t /\ t - start < MIN_TIME_DIFF_FOR_EVENT_LOG_MS /\ close_together t rest
  end.


(** The method a request names, under either calling convention. *)
Definition method_of (args : list JS.value) : JS.value :=
  let arg0 := nth 0 args JS.VUndef in
  if JS.is_string arg0 then arg0
  else match JS.get_prop arg0 "method" with
       | JS.Ok m => m
       | JS.Throw _ => JS.VUndef
       end.

(** The state an outbound frame leaves: the sessions as they were, and
    at most one entry of [wsMessages] set. *)
Definition remembers_one (st st' : WsState) : Prop :=
  wcObject st' = wcObject st /\ cbObject st' = cbObject st
  /\ (wsMessages st' = wsMessages st
      \/ exists k v, wsMessages st' = <[k := v]> (wsMessages st)).

(** Text the pattern [.{1,2}] finds nothing in: line terminators only. *)
Fixpoint only_line_terminators (s : string) : bool :=
  match s with
  | EmptyString => true
  | String c rest => is_line_terminator c && only_line_terminators rest
  end.

(** What an inbound frame may report: a transaction held in
    [wsMessages], as pending, or as cancelled without a hash, for a
    wallet reached over a bridge. *)
Definition remembered (st : WsState) (c : logger_call) : Prop :=
  match c with
  | logSendTransaction tx txStatus result walletResult =>
      (exists k, wsMessages st !! k = Some tx)
      /\ (txStatus = PENDING \/ (txStatus = CANCELLED /\ result = JS.VNull))
      /\ (type walletResult = type_walletconnect \/ type walletResult = type_coinbase)
  | logWalletConnect _ => False
  end.

(** ** The account listener *)

(** [accountsChangedListener(accounts)]: the wallet's [accountsChanged]
    event, reported as a connection of the first account. *)
Definition accountsChangedListener (window_CIPHER : bool) (fetchedProvider : InjectedProvider)
    (accounts : JS.value) : list logger_call * JS.result unit :=
  match (do first <- JS.get_index0 accounts;
         do wallet <- JS.toLowerCase first;
         do name <- getProviderNameForMetamask window_CIPHER fetchedProvider;
         JS.Ok {| type := type_injected; provider := window_ethereum;
                  wallet := wallet; walletProvider := ProviderName_label name |}) with
  | JS.Ok w => ([logWalletConnect w], JS.Ok tt)
  | JS.Throw e => ([], JS.Throw e)
  end.

(** ** Page address, identities and error reports *)

(** [text.split(sep)] for a separator of one character: the pieces
    between its occurrences, never fewer than one. *)
Fixpoint String_split (sep : ascii) (text : string) : list string :=
  match text with
  | EmptyString => [EmptyString]
  | String c rest =>
      if Ascii.eqb c sep then EmptyString :: String_split sep rest
      else match String_split sep rest with
           | first :: others => String c first :: others
           | [] => [String c EmptyString]
           end
  end.

(** An absent field is a field the object literal does not mention. *)
Record PathAndQuery : Type := mkPathAndQuery {
  path : option string;
  query : option string
}.

Definition splitPathAndQuery (text : option string) : PathAndQuery :=
  let splitted := String_split "?" (default ""%string text) in
  if (length splitted =? 0)%nat then {| path := None; query := None |}
  else if (length splitted =? 1)%nat then {| path := splitted !! 0%nat; query := None |}
  else {| path := splitted !! 0%nat; query := splitted !! 1%nat |}.

Definition PF_SDK_SESSION_KEY : string := "PF_SDK_SESSION_KEY".
Definition PF_SDK_USER_KEY : string := "PF_SDK_USER_KEY".

(** [getUserId()]; [randomUUID] is what [crypto.randomUUID()] would
    return at this call.  The result is the identifier and the storage
    the call leaves. *)
Definition getUserId (randomUUID : string) (localStorage : gmap string string)
  : string * gmap string string :=
  let userId := localStorage !! PF_SDK_USER_KEY in
  if present userId then (default ""%string userId, localStorage)
  else (randomUUID, <[PF_SDK_USER_KEY := randomUUID]> localStorage).

Definition setUserId (userId : string) (localStorage : gmap string string)
  : gmap string string :=
  <[PF_SDK_USER_KEY := userId]> localStorage.

Definition getSessionId (randomUUID : string) (sessionStorage : gmap string string)
  : string * gmap string string :=
  let sessionId := sessionStorage !! PF_SDK_SESSION_KEY in
  if present sessionId then (default ""%string sessionId, sessionStorage)
  else (randomUUID, <[PF_SDK_SESSION_KEY := randomUUID]> sessionStorage).

Section ErrorReports.

(** The values the browser hands to [window.onerror], known by their
    truthiness, by their rendering in a template literal and by the
    result of calling their [toString]. *)
Context {V : Type}.
Context (truthy : V -> bool).
Context (template : V -> JS.result string).
Context (toString_call : V -> JS.result string).

(** [errorHandler(errorMsg, url, lineNo, columnNo, errorObj)]: the
    arguments of the calls of [logErrors] it makes, and what its promise
    settles with. *)
Definition errorHandler (errorMsg url lineNo columnNo errorObj : V)
  : list (list string) * JS.result bool :=
  let errorMessage := ""%string in
  match
    (do errorMessage <-
       (if truthy errorMsg
        then (do s <- template errorMsg; JS.Ok ("errorMsg=" ++ s ++ ";")%string)
        else JS.Ok errorMessage);
     do errorMessage <-
       (if truthy url
        then (do s <- template url; JS.Ok ("url=" ++ s ++ ";")%string)
        else JS.Ok errorMessage);
     do errorMessage <-
       (if truthy lineNo
        then (do s <- template lineNo; JS.Ok ("lineNo=" ++ s ++ ";")%string)
        else JS.Ok errorMessage);
     do errorMessage <-
       (if truthy columnNo
        then (do s <- template columnNo; JS.Ok ("columnNo=" ++ s ++ ";")%string)
        else JS.Ok errorMessage);
     do errorMessage <-
       (if truthy errorObj
        then (do s <- toString_call errorObj; JS.Ok ("errorObj=" ++ s ++ ";")%string)
        else JS.Ok errorMessage);
     JS.Ok errorMessage)
  with
  | JS.Ok errorMessage => ([[errorMessage]], JS.Ok true)
  | JS.Throw e => ([], JS.Throw e)
  end.

End ErrorReports.

(** [v.toString()] on a value as [JSON.parse] produces them. *)
Definition toString_method (v : JS.value) : JS.result string :=
  match v with
  | JS.VUndef | JS.VNull => JS.Throw JS.TypeError
  | _ => JS.ToString v
  end.

(** The [window.onunhandledrejection] handler that [attach] installs,
    on the [reason] of the event; [stringified] is what
    [JSON.stringify(errorEvent)] gives. *)
Definition onunhandledrejection (stringified : string) (reason : JS.value)
  : list (list string) * JS.result unit :=
  let errors : list string := [] in
  if JS.truthy reason then
    match
      (do message <- JS.get_prop reason "message";
       do errors <-
         (if JS.truthy message
          then (do s <- toString_method message; JS.Ok (errors ++ [s]))
          else JS.Ok errors);
       do stack <- JS.get_prop reason "stack";
       do errors <-
         (if JS.truthy stack
          then (do s <- toString_method stack; JS.Ok (errors ++ [s]))
          else JS.Ok errors);
       JS.Ok errors)
    with
    | JS.Ok errors => ([errors], JS.Ok tt)
    | JS.Throw e => ([], JS.Throw e)
    end
  else ([[stringified]], JS.Ok tt).

(** ** The [window.ethereum] accessor *)

Module Accessor.

(** Objects by what they are made of: an object of the wallet's own, or
    [new Proxy(target, handler)]. *)
Inductive object : Type :=
| Wallet (id : nat)
| Proxy (target : object).

(** How many interceptors a call of [request] on the object runs
    through. *)
Fixpoint wraps (o : object) : nat :=
  match o with
  | Wallet _ => 0
  | Proxy target => S (wraps target)
  end.

(** The module variables [proxy] and [provider]; [None] is [undefined]. *)
Record state : Type := mkState {
  proxy : option object;
  provider : option object
}.

(** The module as loaded: [provider] holds what [window.ethereum] was. *)
Definition initial (ethereum : option object) : state :=
  {| proxy := None; provider := ethereum |}.

(** The [get] accessor: the state it leaves and what the page reads. *)
Definition get (st : state) : state * option object :=
  match proxy st, provider st with
  | None, Some p =>
      let st' := {| proxy := Some (Proxy p); provider := None |} in
      (st', proxy st')
  | _, _ => (st, proxy st)
  end.

(** The [set] accessor; [new Proxy] throws on a target that is no
    object. *)
Definition set (newProvider : option object) (st : state) : JS.result state :=
  match newProvider with
  | Some p => JS.Ok {| proxy := Some (Proxy p); provider := provider st |}
  | None => JS.Throw JS.TypeError
  end.

(** One use of the property by the page or by a wallet. *)
Inductive step : state -> state -> Prop :=
| step_get st : step st (get st).1
| step_set st newProvider st' : set newProvider st = JS.Ok st' -> step st st'.

(** The page, or a wallet library, assigning back what it has just
    read: [window.ethereum = window.ethereum]. *)
Definition write_back (st : state) : state :=
  let '(st1, o) := get st in
  match set o st1 with
  | JS.Ok st2 => st2
  | JS.Throw _ => st1
  end.

End Accessor.

(** ** Chain state *)

Module Rpc.

(** [chainIdToWeb3Provider(chainId)] over the fetched [chainlist]:
    an HTTP client for the chain's endpoint, or [null]. *)
Definition chainIdToWeb3Provider (chainlist : gmap string string) (chainId : JS.value)
  : JS.result ProviderHandle :=
  do key <- toString_method chainId;
  let rpc := chainlist !! key in
  if negb (present rpc) then JS.Ok no_provider
  else JS.Ok (Web3HttpProvider (default ""%string rpc)).

Record WalletState : Type := mkWalletState {
  walletAddress : string;
  gasBalance : string;
  nonce : string;
  networkId : Z
}.

Record NetworkState : Type := mkNetworkState {
  chainId : Z;
  gasPrice : string;
  blockHeight : string
}.

Record ChainState : Type := mkChainState {
  chain_wallet : WalletState;
  chain_network : NetworkState
}.

(** A call of [provider.request({method, params})]; a request made
    without [params] has the empty list. *)
Record rpc_call : Type := mkRpcCall {
  on_provider : ProviderHandle;
  method : string;
  params : list JS.value
}.

(** A computation that issues requests and may throw part-way. *)
Definition traced (A : Type) : Type := list rpc_call * JS.result A.

Definition and_then {A C} (t : traced A) (k : A -> traced C) : traced C :=
  match t with
  | (calls, JS.Ok a) => let '(calls', r) := k a in (calls ++ calls', r)
  | (calls, JS.Throw e) => (calls, JS.Throw e)
  end.

(** [v ?? "0"] *)
Definition or_zero (v : JS.value) : JS.value :=
  match v with
  | JS.VUndef | JS.VNull => JS.VStr "0"
  | _ => v
  end.

Section ChainState.

(** What awaiting a request settles with, and the two conversions of
    the [BigNumber] library. *)
Context (settle : rpc_call -> JS.result JS.value).
Context (BigNumber_toString : JS.value -> JS.result string).
Context (BigNumber_toNumber : JS.value -> JS.result Z).

(** [await provider.request({method, params})]; reading [request] from
    [null] throws before anything is sent. *)
Definition request (provider : ProviderHandle) (method : string) (params : list JS.value)
  : traced JS.value :=
  match provider with
  | no_provider => ([], JS.Throw JS.TypeError)
  | _ =>
      let c := {| on_provider := provider; method := method; params := params |} in
      ([c], settle c)
  end.

Definition getChainState (walletResult : WalletResponse) : traced (option ChainState) :=
  let provider := provider walletResult in
  let wallet_truthy := negb (String.eqb (wallet walletResult) "") in
  if negb wallet_truthy then ([], JS.Ok None)
  else
    and_then (request provider "eth_getBalance"
                [JS.VStr (wallet walletResult); JS.VStr "latest"])
      (fun getBalanceResponse =>
    and_then ([], BigNumber_toString (or_zero getBalanceResponse)) (fun gasBalance =>
    and_then (request provider "eth_getTransactionCount"
                [JS.VStr (wallet walletResult); JS.VStr "latest"])
      (fun nonceResponse =>
    and_then ([], BigNumber_toString (or_zero nonceResponse)) (fun nonce =>
    and_then (request provider "eth_chainId" []) (fun networkIdResponse =>
    and_then ([], BigNumber_toNumber (or_zero networkIdResponse)) (fun networkId =>
    and_then (request provider "eth_blockNumber" []) (fun blockHeightResponse =>
    and_then ([], BigNumber_toString (or_zero blockHeightResponse)) (fun blockHeight =>
    and_then (request provider "eth_gasPrice" []) (fun gasPriceResponse =>
    and_then ([], BigNumber_toString (or_zero gasPriceResponse)) (fun gasPrice =>
    ([], JS.Ok (Some {| chain_wallet :=
                          {| walletAddress := wallet walletResult;
                             gasBalance := gasBalance;
                             nonce := nonce;
                             networkId := networkId |};
                        chain_network :=
                          {| chainId := networkId;
                             gasPrice := gasPrice;
                             blockHeight := blockHeight |} |})))))))))))).

End ChainState.

(** The methods [getChainState] asks for, in its order. *)
Definition chain_methods : list string :=
  ["eth_getBalance"; "eth_getTransactionCount"; "eth_chainId"; "eth_blockNumber";
   "eth_gasPrice"]%string.

End Rpc.

(** ** The relay's storage listener *)

(** The handler of [itemInserted] events on the key
    [-walletlink:https://www.walletlink.org:Addresses].  The event is
    dispatched before the item is written, so [localStorage] is the
    storage as it was; the result is the new value of the module
    variable [cbObject] and the logger calls made. *)
Definition localStorageSetHandler_addresses (localStorage : gmap string string)
    (value : string) (cbObject : option CbObject)
  : option CbObject * list logger_call :=
  match fetchCbObject localStorage (Some value) cbObject with
  | Some cb =>
      let oldAddressesValue :=
        default ""%string (localStorage !! "-walletlink:https://www.walletlink.org:Addresses") in
      let newAddressesValue := value in
      if (0 <? Z.of_nat (String.length newAddressesValue))
         && negb (String.eqb newAddressesValue oldAddressesValue)
      then
        let cb := {| sessionId := sessionId cb;
                     sessionSecret := sessionSecret cb;
                     addresses := newAddressesValue;
                     linked := linked cb;
                     defaultChainId := defaultChainId cb;
                     defaultJsonRpcUrl := defaultJsonRpcUrl cb |} in
        (Some cb,
         [logWalletConnect {| provider := Web3HttpProvider (defaultJsonRpcUrl cb);
                              type := type_coinbase;
                              wallet := JS.lower (addresses cb);
                              walletProvider := "coinbase" |}])
      else (Some cb, [])
  | None => (None, [])
  end.

(** What can happen to the module variable [cbObject]: a parse of the
    relay session, or a write of the addresses key seen by the
    listener. *)
Inductive cbObject_step : option CbObject -> option CbObject -> Prop :=
| cbObject_fetch localStorage newAddressesValue cb :
    cbObject_step cb (fetchCbObject localStorage newAddressesValue cb)
| cbObject_inserted localStorage value cb :
    cbObject_step cb (localStorageSetHandler_addresses localStorage value cb).1.

(** ** Brand detection, from the page *)

(** The values that have an [indexOf] method: strings and arrays. *)
Definition has_indexOf (v : JS.value) : bool :=
  match v with
  | JS.VStr _ | JS.VArr _ => true
  | _ => false
  end.

(** [getProviderNameForMetamask()] with what it reads off the page made
    explicit.  [ethereum] is [window.ethereum], [None] when that is
    [undefined] or [null], and reading a flag from it then throws.
    [constructor_present] tells whether the object has a [constructor]
    (an object made without a prototype has none, and reading its
    [name] throws); when it has one, [constructor_name] is its name. *)
Definition getProviderNameForMetamask_window (window_CIPHER : bool)
    (ethereum : option InjectedProvider) (constructor_present : bool)
  : JS.result ProviderName :=
  match ethereum with
  | None => JS.Throw JS.TypeError
  | Some fetchedProvider =>
      if isTrust fetchedProvider then JS.Ok trust
      else if isGoWallet fetchedProvider then JS.Ok gowallet
      else if isAlphaWallet fetchedProvider then JS.Ok alphawallet
      else if isStatus fetchedProvider then JS.Ok status_wallet
      else if isCoinbaseWallet fetchedProvider then JS.Ok coinbase
      else if isRabby fetchedProvider then JS.Ok rabby
      else if isFrame fetchedProvider then JS.Ok frame
      else if window_CIPHER then JS.Ok cipher
      else if negb constructor_present then JS.Throw JS.TypeError
      else if String.eqb (constructor_name fetchedProvider) "EthereumProvider" then JS.Ok mist
      else if String.eqb (constructor_name fetchedProvider) "Web3FrameProvider" then JS.Ok parity
      else
        do inf <- host_mentions fetchedProvider "infura";
        if inf then JS.Ok infura
        else
          do loc <- host_mentions fetchedProvider "localhost";
          if loc then JS.Ok localhost
          else if isMetaMask fetchedProvider then JS.Ok metamask
          else JS.Ok unknown
  end.

(** * Properties *)

(** ** 32-bit arithmetic of the hash *)

Lemma ToInt32_range z : - 2 ^ 31 <= JS.ToInt32 z < 2 ^ 31.
Proof.
  unfold JS.ToInt32.
  pose proof (Z.mod_pos_bound (z + 2 ^ 31) (2 ^ 32) ltac:(lia)). lia.
Qed.

Lemma ToInt32_small z : - 2 ^ 31 <= z < 2 ^ 31 -> JS.ToInt32 z = z.
Proof.
  intros Hz. unfold JS.ToInt32. rewrite Z.mod_small; lia.
Qed.

Lemma ToInt32_idem z : JS.ToInt32 (JS.ToInt32 z) = JS.ToInt32 z.
Proof. apply ToInt32_small, ToInt32_range. Qed.

Lemma ToInt32_congr a b :
  a mod 2 ^ 32 = b mod 2 ^ 32 -> JS.ToInt32 a = JS.ToInt32 b.
Proof.
  intros H. unfold JS.ToInt32.
  rewrite (Z.add_mod a), (Z.add_mod b), H by lia. reflexivity.
Qed.

Lemma ToInt32_mod z : JS.ToInt32 z mod 2 ^ 32 = z mod 2 ^ 32.
Proof.
  unfold JS.ToInt32.
  rewrite Zminus_mod, Z.mod_mod, <- Zminus_mod by lia.
  f_equal. lia.
Qed.

Lemma bitor_0 h : JS.bitor h 0 = JS.ToInt32 h.
Proof.
  unfold JS.bitor.
  replace (JS.ToInt32 0) with 0 by reflexivity.
  rewrite Z.lor_0_r. apply ToInt32_idem.
Qed.

Lemma shl_5 h : JS.shl h 5 = JS.ToInt32 (32 * h).
Proof.
  unfold JS.shl. replace (5 mod 32) with 5 by reflexivity.
  rewrite Z.shiftl_mul_pow2 by lia.
  apply ToInt32_congr.
  rewrite Z.mul_mod, ToInt32_mod, <- Z.mul_mod by lia.
  f_equal. lia.
Qed.

(** ** The structural hash *)

Lemma hashEvent_loop_fold suffix : forall prefix h,
  hashEvent_loop (prefix ++ suffix) (length suffix) (length prefix) h
  = fold_left hash_step suffix h.
Proof.
  induction suffix as [|c suffix IH]; intros prefix h; [reflexivity|].
  cbn [hashEvent_loop length fold_left].
  unfold charCodeAt.
  rewrite nth_middle, bitor_0.
  replace (prefix ++ c :: suffix) with ((prefix ++ [c]) ++ suffix)
    by (rewrite <- app_assoc; reflexivity).
  replace (S (length prefix)) with (length (prefix ++ [c]))
    by (rewrite length_app; simpl; lia).
  apply IH.
Qed.

Lemma hashEvent_data_fold data :
  hashEvent_data data = JS.Number_toString (hash_fold data).
Proof.
  unfold hashEvent_data, hash_fold. f_equal.
  apply (hashEvent_loop_fold data []).
Qed.

Lemma hash_fold_range data : - 2 ^ 31 <= hash_fold data < 2 ^ 31.
Proof.
  unfold hash_fold.
  destruct data as [|c data] using rev_ind; [simpl; lia|].
  rewrite fold_left_app. simpl. apply ToInt32_range.
Qed.

(** The truncations inside the loop lose nothing: the hash is the
    base-31 polynomial of the character codes, reduced once. *)
Lemma hash_fold_poly data : hash_fold data = JS.ToInt32 (hash_poly data).
Proof.
  unfold hash_fold, hash_poly.
  induction data as [|c data IH] using rev_ind; [reflexivity|].
  rewrite !fold_left_app. simpl. rewrite IH. unfold hash_step.
  apply ToInt32_congr.
  rewrite shl_5.
  set (p := fold_left _ data 0).
  rewrite Zplus_mod, Zminus_mod, !ToInt32_mod.
  rewrite (Z.mul_mod 32 (JS.ToInt32 p)), ToInt32_mod, <- Z.mul_mod by lia.
  rewrite <- Zminus_mod, <- Zplus_mod.
  f_equal. lia.
Qed.

(** With UTF-16 code units as characters, every intermediate value of a
    round is far inside the range where a double is an exact integer. *)
Lemma hash_round_exact h chr :
  - 2 ^ 31 <= h < 2 ^ 31 -> 0 <= chr < 2 ^ 16 ->
  - 2 ^ 53 < JS.shl h 5 - h + chr < 2 ^ 53.
Proof.
  intros Hh Hc. pose proof (ToInt32_range (Z.shiftl (JS.ToInt32 h) (5 mod 32))).
  unfold JS.shl. lia.
Qed.

(** The decimal text determines the number. *)
Lemma Number_toString_inj a b :
  JS.Number_toString a = JS.Number_toString b -> a = b.
Proof.
  unfold JS.Number_toString. intros H.
  assert (Hnz : forall z, Z.to_int z <> Pos Nil /\ Z.to_int z <> Neg Nil).
  { intros [|p|p]; simpl; split; try discriminate;
      intros E; injection E as E;
      exact (DecimalPos.Unsigned.to_uint_nonnil p E). }
  apply (f_equal NilZero.int_of_string) in H.
  rewrite !NilZero.isi in H by apply Hnz.
  injection H as H. rewrite <- (DecimalZ.of_to a), <- (DecimalZ.of_to b).
  congruence.
Qed.

Example hashEvent_ab : hashEvent_data (units "ab") = "3105"%string.
Proof. reflexivity. Qed.

Example hashEvent_key :
  hashEvent_data (units "PF_EVENTS_HASH_MAP") = "923768488"%string.
Proof. vm_compute. reflexivity. Qed.

Example hashEvent_negative :
  hashEvent_data (units "The quick brown fox jumps over the lazy dog")
  = "-609428141"%string.
Proof. vm_compute. reflexivity. Qed.

(** C10. The hash of an event depends on the event only through its
    JSON serialisation: two events with equal serialisations get equal
    hashes.  The hash is defined for every serialisation, and it is the
    decimal text of a signed 32-bit integer, namely the one obtained by
    folding [hash = (hash << 5) - hash + charCode], truncated to 32
    bits, over the serialised characters from 0. *)
Theorem hashEvent_deterministic_int32
    {event : Type} (JSON_stringify : event -> list Z) (e1 e2 : event) :
  JSON_stringify e1 = JSON_stringify e2 ->
  hashEvent JSON_stringify e1 = hashEvent JSON_stringify e2
  /\ exists h : Z,
       - 2 ^ 31 <= h < 2 ^ 31
       /\ h = fold_left (fun hash chr => JS.ToInt32 (JS.shl hash 5 - hash + chr))
                (JSON_stringify e1) 0
       /\ hashEvent JSON_stringify e1 = JS.Number_toString h.
Proof.
  intros Heq. split.
  - unfold hashEvent. rewrite Heq. reflexivity.
  - exists (hash_fold (JSON_stringify e1)). split; [apply hash_fold_range|].
    split; [reflexivity|]. apply hashEvent_data_fold.
Qed.

Lemma hashEvent_deterministic_int32_witness :
  units "[1,2]" = units "[1,2]"
  /\ hashEvent units "[1,2]"%string = hashEvent units "[1,2]"%string
  /\ exists h : Z,
       - 2 ^ 31 <= h < 2 ^ 31
       /\ h = fold_left (fun hash chr => JS.ToInt32 (JS.shl hash 5 - hash + chr))
                (units "[1,2]") 0
       /\ hashEvent units "[1,2]"%string = JS.Number_toString h.
Proof.
  split; [reflexivity|].
  apply (hashEvent_deterministic_int32 units "[1,2]"%string "[1,2]"%string).
  reflexivity.
Defined.

(** ** The dedup record *)

Lemma Map_of_entries_snoc entries k v :
  Map_of_entries (entries ++ [(k, v)]) = <[k := v]> (Map_of_entries entries).
Proof. unfold Map_of_entries. rewrite foldl_app. reflexivity. Qed.

Lemma Map_of_entries_list_to_map entries :
  Map_of_entries entries = list_to_map (reverse entries).
Proof.
  induction entries as [|[k v] entries IH] using rev_ind; [reflexivity|].
  rewrite Map_of_entries_snoc, reverse_app, IH. reflexivity.
Qed.

(** Writing the map and reading it back gives the map. *)
Lemma loadMap_storeMap (m : gmap string Z) : loadMap (storeMap m) = m.
Proof.
  unfold loadMap, storeMap. simpl.
  rewrite Map_of_entries_list_to_map.
  rewrite <- (list_to_map_to_list m) at 2.
  apply list_to_map_proper.
  - rewrite fmap_reverse, reverse_Permutation. apply NoDup_fst_map_to_list.
  - apply reverse_Permutation.
Qed.

Lemma loadMap_storeEvent h t ls :
  loadMap (storeEvent h t ls) = <[h := t]> (loadMap ls).
Proof. unfold storeEvent. apply loadMap_storeMap. Qed.

Lemma stamped_empty : stamped None.
Proof. intros h t. unfold loadMap, Map_of_entries. simpl. rewrite lookup_empty. discriminate. Qed.

Section Dedup.

Context {event : Type} (JSON_stringify : event -> list Z).

Lemma checkShouldLogEvent_store e now ls :
  loadMap (checkShouldLogEvent JSON_stringify e now ls).2
  = <[hashEvent JSON_stringify e := now]> (loadMap ls).
Proof. apply loadMap_storeEvent. Qed.

(** Clock readings after the epoch keep the record stamped. *)
Lemma checkShouldLogEvent_stamped e now ls :
  0 < now -> stamped ls ->
  stamped (checkShouldLogEvent JSON_stringify e now ls).2.
Proof.
  intros Hnow Hls h t. rewrite checkShouldLogEvent_store.
  rewrite lookup_insert. case_decide.
  - intros [= <-]. exact Hnow.
  - apply Hls.
Qed.

Lemma checkShouldLogEvent_verdict e now ls :
  stamped ls ->
  (checkShouldLogEvent JSON_stringify e now ls).1 = false
  <-> exists prev, loadMap ls !! hashEvent JSON_stringify e = Some prev
                   /\ now - prev < MIN_TIME_DIFF_FOR_EVENT_LOG_MS.
Proof.
  intros Hls. unfold checkShouldLogEvent. cbn [fst].
  destruct (loadMap ls !! hashEvent JSON_stringify e) as [prev|] eqn:Hprev.
  - pose proof (Hls _ _ Hprev) as Hpos.
    destruct (Z.eqb_spec prev 0) as [->|_]; [lia|]. cbn [negb].
    destruct (Z.ltb_spec (now - prev) MIN_TIME_DIFF_FOR_EVENT_LOG_MS).
    + split; [|reflexivity]. intros _. exists prev. split; [reflexivity|assumption].
    + split; [discriminate|]. intros (p & [= <-] & Hlt). lia.
  - split; [discriminate|]. intros (p & [=] & _).
Qed.

Lemma submit_unfold e now ls sent :
  submit JSON_stringify e now (ls, sent)
  = ((checkShouldLogEvent JSON_stringify e now ls).2,
     if (checkShouldLogEvent JSON_stringify e now ls).1 then sent ++ [e] else sent).
Proof.
  unfold submit. cbn [fst snd].
  destruct (checkShouldLogEvent JSON_stringify e now ls). reflexivity.
Qed.

End Dedup.

(** C1. On a record whose timestamps are clock readings, the check
    answers false exactly when the record holds, for the hash of the
    event, a timestamp less than 1000 ms before the current time;
    whatever it answers, it stores the current time for that hash.
    Hence two events with the same serialisation produce one backend
    request when the second comes less than 1000 ms after the first,
    and two when it comes 1000 ms or more after it. *)
Theorem checkShouldLogEvent_dedup_window
    {event : Type} (JSON_stringify : event -> list Z)
    (e : event) (now : Z) (ls : storage) :
  stamped ls ->
  ((checkShouldLogEvent JSON_stringify e now ls).1 = false
   <-> exists prev, loadMap ls !! hashEvent JSON_stringify e = Some prev
                    /\ now - prev < 1000)
  /\ loadMap (checkShouldLogEvent JSON_stringify e now ls).2
     = <[hashEvent JSON_stringify e := now]> (loadMap ls)
  /\ forall (e' : event) (now' : Z) (sent : list event),
       JSON_stringify e' = JSON_stringify e ->
       0 < now ->
       (checkShouldLogEvent JSON_stringify e now ls).1 = true ->
       let after := submit JSON_stringify e' now'
                      (submit JSON_stringify e now (ls, sent)) in
       (now' - now < 1000 -> after.2 = sent ++ [e])
       /\ (1000 <= now' - now -> after.2 = sent ++ [e; e']).
Proof.
  intros Hls. split; [apply checkShouldLogEvent_verdict, Hls|].
  split; [apply checkShouldLogEvent_store|].
  intros e' now' sent Hsame Hnow Hfirst after.
  assert (Hls' : stamped (checkShouldLogEvent JSON_stringify e now ls).2)
    by (apply checkShouldLogEvent_stamped; assumption).
  assert (Hhash : hashEvent JSON_stringify e' = hashEvent JSON_stringify e)
    by (unfold hashEvent; rewrite Hsame; reflexivity).
  pose proof (checkShouldLogEvent_verdict JSON_stringify e' now' _ Hls') as Hsecond.
  rewrite checkShouldLogEvent_store, Hhash, lookup_insert_eq in Hsecond.
  subst after. rewrite !submit_unfold, Hfirst. cbn [snd].
  destruct (checkShouldLogEvent JSON_stringify e' now' _).1 eqn:E2.
  all: split; intros Hgap.
  - exfalso. destruct Hsecond as [_ Hsecond].
    enough (true = false) by discriminate.
    apply Hsecond. exists now. split; [reflexivity|exact Hgap].
  - rewrite <- app_assoc. reflexivity.
  - reflexivity.
  - destruct Hsecond as [Hsecond _].
    destruct (Hsecond eq_refl) as (p & [= <-] & Hlt).
    unfold MIN_TIME_DIFF_FOR_EVENT_LOG_MS in Hlt. lia.
Qed.

Lemma checkShouldLogEvent_dedup_window_witness :
  stamped None
  /\ (((checkShouldLogEvent units "[1,2]"%string 5000 None).1 = false
       <-> exists prev, loadMap None !! hashEvent units "[1,2]"%string = Some prev
                        /\ 5000 - prev < 1000)
      /\ loadMap (checkShouldLogEvent units "[1,2]"%string 5000 None).2
         = <[hashEvent units "[1,2]"%string := 5000]> (loadMap None)
      /\ forall (e' : string) (now' : Z) (sent : list string),
           units e' = units "[1,2]" ->
           0 < 5000 ->
           (checkShouldLogEvent units "[1,2]"%string 5000 None).1 = true ->
           let after := submit units e' now'
                          (submit units "[1,2]"%string 5000 (None, sent)) in
           (now' - 5000 < 1000 -> after.2 = sent ++ ["[1,2]"%string])
           /\ (1000 <= now' - 5000 -> after.2 = sent ++ ["[1,2]"%string; e'])).
Proof.
  split; [exact stamped_empty|].
  exact (checkShouldLogEvent_dedup_window units "[1,2]"%string 5000 None stamped_empty).
Defined.

(** The window on concrete clock readings: 999 ms apart, exactly
    1000 ms apart, and a first emission. *)
Example dedup_inside_window :
  (submit units "[1,2]"%string 5999 (submit units "[1,2]"%string 5000 (None, []))).2
  = ["[1,2]"%string].
Proof. vm_compute. reflexivity. Qed.

Example dedup_at_window :
  (submit units "[1,2]"%string 6000 (submit units "[1,2]"%string 5000 (None, []))).2
  = ["[1,2]"%string; "[1,2]"%string].
Proof. vm_compute. reflexivity. Qed.

Example dedup_resets_window :
  (submit units "[1,2]"%string 6500
     (submit units "[1,2]"%string 5800
        (submit units "[1,2]"%string 5000 (None, [])))).2
  = ["[1,2]"%string].
Proof. vm_compute. reflexivity. Qed.

(** A timestamp of 0 in the record reads as no timestamp: this is why
    the statement above asks for clock readings after the epoch. *)
Example dedup_epoch_reading :
  (checkShouldLogEvent units "[1,2]"%string 500
     (Some [(hashEvent units "[1,2]"%string, 0)])).1 = true.
Proof. vm_compute. reflexivity. Qed.

(** ** The finality watcher *)

Lemma waitMined_loop_unmined request s fuel a r :
  request a = JS.Ok r -> mined r = false ->
  waitMined_loop request s (S fuel) a
  = (GetTransactionReceipt a :: Sleep (s * 1000) :: (waitMined_loop request s fuel (S a)).1,
     (waitMined_loop request s fuel (S a)).2).
Proof.
  intros Hr Hm. cbn [waitMined_loop]. rewrite Hr.
  unfold mined, receipt_field in Hm.
  destruct (JS.truthy r) eqn:Ht; cbn [andb] in Hm.
  - destruct (JS.get_prop r "blockNumber") as [bn|]; [rewrite Hm|];
      destruct (waitMined_loop request s fuel (S a)); reflexivity.
  - destruct (waitMined_loop request s fuel (S a)); reflexivity.
Qed.

Lemma waitMined_loop_mined request s fuel a r :
  request a = JS.Ok r -> mined r = true ->
  waitMined_loop request s (S fuel) a
  = ([GetTransactionReceipt a],
     JS.Ok (Some {| blockNumber := receipt_field r "blockNumber";
                    status := if JS.strict_eq (receipt_field r "status") (JS.VStr "0x0")
                              then FAILURE else SUCCESS |})).
Proof.
  intros Hr Hm. cbn [waitMined_loop]. rewrite Hr.
  unfold mined, receipt_field in *.
  destruct (JS.truthy r) eqn:Ht; cbn [andb] in Hm; [|discriminate].
  destruct (JS.get_prop r "blockNumber") as [bn|]; [|discriminate].
  rewrite Hm. reflexivity.
Qed.

Lemma waitMined_loop_rounds request s n : forall fuel a,
  (forall k, (k < n)%nat -> exists r, request (a + k)%nat = JS.Ok r /\ mined r = false) ->
  waitMined_loop request s (n + fuel) a
  = (rounds (s * 1000) a n ++ (waitMined_loop request s fuel (a + n)).1,
     (waitMined_loop request s fuel (a + n)).2).
Proof.
  induction n as [|n IH]; intros fuel a Hq.
  - rewrite Nat.add_0_r. simpl. destruct (waitMined_loop request s fuel a); reflexivity.
  - destruct (Hq 0%nat ltac:(lia)) as (r & Hr & Hm). rewrite Nat.add_0_r in Hr.
    change (S n + fuel)%nat with (S (n + fuel)).
    rewrite (waitMined_loop_unmined _ _ _ _ _ Hr Hm).
    rewrite IH.
    + cbn [fst snd]. replace (S a + n)%nat with (a + S n)%nat by lia. reflexivity.
    + intros k Hk. replace (S a + k)%nat with (a + S k)%nat by lia. apply Hq. lia.
Qed.

(** C6. With the defaults (50 attempts, 5 seconds) or the values passed,
    the watcher repeats lookup-then-sleep at the fixed interval.  On the
    first response with a block number it returns at once, without
    another sleep or lookup: FAILURE when the receipt's status is "0x0",
    SUCCESS for any other status.  When every lookup of the budget
    answered without a block number it returns null, not an error. *)
Theorem waitMined_finality (request : nat -> JS.result JS.value)
    (retries : option nat) (pollIntervalSeconds : option Z) :
  let budget := default 50%nat retries in
  let ms := default 5 pollIntervalSeconds * 1000 in
  (forall (n : nat) (receipt : JS.value),
      (n < budget)%nat ->
      quiet_until request n ->
      request n = JS.Ok receipt ->
      mined receipt = true ->
      exists outcome : TxStatus,
        waitMined request retries pollIntervalSeconds
        = (rounds ms 0 n ++ [GetTransactionReceipt n],
           JS.Ok (Some {| blockNumber := receipt_field receipt "blockNumber";
                          status := outcome |}))
        /\ (receipt_field receipt "status" = JS.VStr "0x0" -> outcome = FAILURE)
        /\ (receipt_field receipt "status" <> JS.VStr "0x0" -> outcome = SUCCESS))
  /\ (quiet_until request budget ->
      waitMined request retries pollIntervalSeconds = (rounds ms 0 budget, JS.Ok None)).
Proof.
  intros budget ms. unfold waitMined. fold budget. split.
  - intros n receipt Hn Hq Hr Hm.
    exists (if JS.strict_eq (receipt_field receipt "status") (JS.VStr "0x0")
            then FAILURE else SUCCESS).
    split; [|split].
    + replace budget with (n + S (budget - S n))%nat by lia.
      rewrite waitMined_loop_rounds by (intros k Hk; apply Hq, Hk).
      rewrite (waitMined_loop_mined _ _ _ _ _ Hr Hm). reflexivity.
    + intros ->. reflexivity.
    + intros Hne.
      destruct (receipt_field receipt "status") as [| |b|z|s|l|f]; try reflexivity.
      cbn [JS.strict_eq]. destruct (String.eqb_spec s "0x0"); [congruence|reflexivity].
  - intros Hq.
    replace budget with (budget + 0)%nat at 1 by lia.
    rewrite waitMined_loop_rounds by (intros k Hk; apply Hq, Hk).
    cbn [waitMined_loop fst snd]. rewrite app_nil_r. reflexivity.
Qed.

Lemma waitMined_finality_witness :
  let reverted := JS.VObj [("blockNumber", JS.VStr "0x10"); ("status", JS.VStr "0x0")] in
  let request := fun k : nat => if (k <? 2)%nat then JS.Ok JS.VNull else JS.Ok reverted in
  (exists outcome : TxStatus,
      waitMined request None None
      = (rounds 5000 0 2 ++ [GetTransactionReceipt 2],
         JS.Ok (Some {| blockNumber := JS.VStr "0x10"; status := outcome |}))
      /\ outcome = FAILURE)
  /\ waitMined (fun _ => JS.Ok JS.VNull) None None = (rounds 5000 0 50, JS.Ok None).
Proof.
  intros reverted request. split.
  - destruct (waitMined_finality request None None) as [Hmined _].
    destruct (Hmined 2%nat reverted) as (outcome & Hrun & Hfail & _).
    + cbn. lia.
    + intros k Hk. exists JS.VNull.
      destruct k as [|[|k]]; [split; reflexivity | split; reflexivity | lia].
    + reflexivity.
    + reflexivity.
    + exists outcome. split; [exact Hrun | apply Hfail; reflexivity].
  - destruct (waitMined_finality (fun _ => JS.Ok JS.VNull) None None) as [_ Hquiet].
    apply Hquiet. intros k _. exists JS.VNull. split; reflexivity.
Defined.

(** Two receipts absent, then a reverted transaction in block 0x10. *)
Example waitMined_third_poll_fails :
  waitMined
    (fun k => if (k <? 2)%nat then JS.Ok JS.VNull
              else JS.Ok (JS.VObj [("blockNumber", JS.VStr "0x10");
                                   ("status", JS.VStr "0x0")]))
    None None
  = ([GetTransactionReceipt 0; Sleep 5000; GetTransactionReceipt 1; Sleep 5000;
      GetTransactionReceipt 2],
     JS.Ok (Some {| blockNumber := JS.VStr "0x10"; status := FAILURE |})).
Proof. reflexivity. Qed.

Example waitMined_gives_up :
  (waitMined (fun _ => JS.Ok JS.VNull) None None).2 = JS.Ok None
  /\ length (waitMined (fun _ => JS.Ok JS.VNull) None None).1 = 100%nat.
Proof. split; reflexivity. Qed.

(** A lookup that itself fails is not a timeout: the watcher fails with it. *)
Example waitMined_lookup_error :
  waitMined (fun _ => JS.Throw (JS.Error "network")) None None
  = ([GetTransactionReceipt 0], JS.Throw (JS.Error "network")).
Proof. reflexivity. Qed.

(** ** Brand detection *)

(** The chain of [if]s is the priority list read from the top. *)
Lemma getProviderNameForMetamask_first_match window_CIPHER p :
  getProviderNameForMetamask window_CIPHER p = first_match (probes window_CIPHER) p.
Proof.
  unfold getProviderNameForMetamask, probes. cbn [first_match JS.bind].
  repeat match goal with
         | |- (if ?c then _ else _) = (if ?c then _ else _) => destruct c; [reflexivity|]
         end.
  destruct (host_mentions p "infura") as [[]|]; cbn [JS.bind]; try reflexivity.
  all: destruct (host_mentions p "localhost") as [[]|]; cbn [JS.bind]; reflexivity.
Qed.

Lemma distinguishing_not_metamask p brand :
  distinguishing p = Some brand -> brand <> metamask.
Proof.
  unfold distinguishing.
  repeat match goal with
         | |- context [if ?c then _ else _] => destruct c
         end; intros [= <-]; discriminate.
Qed.

(** C8. Detection is the first matching probe of a fixed priority list:
    for every provider, what the chain of [if]s returns is what reading
    the list of probes from the top returns, the answer unknown
    included when no probe matches.  In particular a provider that sets
    a distinguishing brand flag is reported under that brand (the first
    such flag in the order of the list) whatever its isMetaMask flag
    says: a wallet that also sets isMetaMask is never reported as
    metamask. *)
Theorem getProviderNameForMetamask_brand_first
    (window_CIPHER : bool) (p : InjectedProvider) :
  getProviderNameForMetamask window_CIPHER p = first_match (probes window_CIPHER) p
  /\ (forall brand,
        distinguishing p = Some brand ->
        getProviderNameForMetamask window_CIPHER p = JS.Ok brand
        /\ getProviderNameForMetamask window_CIPHER p <> JS.Ok metamask).
Proof.
  split; [apply getProviderNameForMetamask_first_match|].
  intros brand Hd.
  assert (Hb : getProviderNameForMetamask window_CIPHER p = JS.Ok brand).
  { revert Hd. unfold distinguishing, getProviderNameForMetamask.
    repeat match goal with
           | |- context [if ?c then _ else _] =>
               destruct c; [intros [= <-]; reflexivity|]
           end.
    discriminate. }
  split; [exact Hb|]. rewrite Hb. intros [= E].
  exact (distinguishing_not_metamask p brand Hd E).
Qed.

Lemma getProviderNameForMetamask_brand_first_witness :
  let p := {| isTrust := false; isGoWallet := false; isAlphaWallet := false;
              isStatus := false; isCoinbaseWallet := false; isToshi := false;
              isRabby := true; isFrame := true; isMetaMask := true;
              constructor_name := "Object"; host := JS.VUndef |} in
  distinguishing p = Some rabby
  /\ getProviderNameForMetamask false p = first_match (probes false) p
  /\ getProviderNameForMetamask false p = JS.Ok rabby
  /\ getProviderNameForMetamask false p <> JS.Ok metamask.
Proof.
  intros p. split; [reflexivity|].
  destruct (getProviderNameForMetamask_brand_first false p) as [Hlist Hbrand].
  split; [exact Hlist|]. apply (Hbrand rabby). reflexivity.
Defined.

Example detects_trust_over_metamask :
  getProviderNameForMetamask false
    {| isTrust := true; isGoWallet := false; isAlphaWallet := false;
       isStatus := false; isCoinbaseWallet := false; isToshi := false;
       isRabby := false; isFrame := false; isMetaMask := true;
       constructor_name := "Object"; host := JS.VUndef |}
  = JS.Ok trust.
Proof. reflexivity. Qed.

Example detects_plain_metamask :
  getProviderNameForMetamask false
    {| isTrust := false; isGoWallet := false; isAlphaWallet := false;
       isStatus := false; isCoinbaseWallet := false; isToshi := false;
       isRabby := false; isFrame := false; isMetaMask := true;
       constructor_name := "Object"; host := JS.VUndef |}
  = JS.Ok metamask.
Proof. reflexivity. Qed.

Example detects_infura_host :
  getProviderNameForMetamask false
    {| isTrust := false; isGoWallet := false; isAlphaWallet := false;
       isStatus := false; isCoinbaseWallet := false; isToshi := false;
       isRabby := false; isFrame := false; isMetaMask := true;
       constructor_name := "HttpProvider";
       host := JS.VStr "https://mainnet.infura.io/v3" |}
  = JS.Ok infura.
Proof. reflexivity. Qed.

(** The earlier revision answered metamask for every provider with the
    compatibility flag, whatever else it set; the current order is the
    repair of that. *)
Lemma getProviderNameForMetamask_v1_metamask_first window_CIPHER p :
  isMetaMask p = true ->
  getProviderNameForMetamask_v1 window_CIPHER p = JS.Ok metamask.
Proof. intros H. unfold getProviderNameForMetamask_v1. rewrite H. reflexivity. Qed.

(** ** The Coinbase relay session *)

Lemma present_Some (item : option string) :
  present item = true <-> exists s, item = Some s /\ s <> ""%string.
Proof.
  destruct item as [s|]; simpl.
  - destruct (String.eqb_spec s ""); simpl; split.
    + discriminate.
    + intros (s' & [= <-] & Hne). contradiction.
    + intros _. exists s. split; [reflexivity|assumption].
    + reflexivity.
  - split; [discriminate|]. intros (s & [=] & _).
Qed.

Lemma nonempty_length (s : string) : s <> ""%string -> (0 <? Z.of_nat (String.length s)) = true.
Proof. destruct s; [contradiction|]. intros _. reflexivity. Qed.

Lemma fetchCbObject_condition localStorage newAddressesValue :
  relay_complete localStorage newAddressesValue
  <-> (present (localStorage !! "-walletlink:https://www.walletlink.org:session:id")
       && present (localStorage !! "-walletlink:https://www.walletlink.org:session:linked")
       && bool_decide (localStorage !! "-walletlink:https://www.walletlink.org:session:linked"
                       = Some "1"%string)
       && present (relay_addresses localStorage newAddressesValue)
       && (0 <? Z.of_nat (String.length
                            (default ""%string (relay_addresses localStorage newAddressesValue))))
       && present (localStorage !! "-walletlink:https://www.walletlink.org:session:secret")
       && present (localStorage !! "-walletlink:https://www.walletlink.org:DefaultChainId")
       && present (localStorage !! "-walletlink:https://www.walletlink.org:DefaultJsonRpcUrl"))
      = true.
Proof.
  unfold relay_complete. rewrite !andb_true_iff, bool_decide_eq_true.
  split.
  - intros (H1 & H2 & H3 & H4 & H5 & H6). repeat split; try assumption.
    + rewrite H2. reflexivity.
    + apply present_Some in H3 as (a & -> & Ha). apply nonempty_length, Ha.
  - intros (((((((H1 & _) & H2) & H3) & _) & H4) & H5) & H6). repeat split; assumption.
Qed.

(** C9. A parse of the relay session assigns a session exactly when the
    session id, the linked flag "1", a non-empty addresses value, the
    session secret, the default chain id and the default RPC URL are all
    present, and then every field of the session is filled from them.
    When any of them is missing or empty the parse assigns nothing: the
    module variable keeps its value, which is null until a first
    complete parse.  So the variable never holds a session with an empty
    field. *)
Theorem fetchCbObject_all_or_nothing
    (localStorage : gmap string string) (newAddressesValue : option string)
    (cbObject : option CbObject) :
  (relay_complete localStorage newAddressesValue ->
     exists o, fetchCbObject localStorage newAddressesValue cbObject = Some o
       /\ filled o
       /\ Some (sessionId o) = localStorage !! "-walletlink:https://www.walletlink.org:session:id"
       /\ Some (linked o) = localStorage !! "-walletlink:https://www.walletlink.org:session:linked"
       /\ Some (addresses o) = relay_addresses localStorage newAddressesValue
       /\ Some (sessionSecret o) = localStorage !! "-walletlink:https://www.walletlink.org:session:secret"
       /\ Some (defaultChainId o) = localStorage !! "-walletlink:https://www.walletlink.org:DefaultChainId"
       /\ Some (defaultJsonRpcUrl o) = localStorage !! "-walletlink:https://www.walletlink.org:DefaultJsonRpcUrl")
  /\ (~ relay_complete localStorage newAddressesValue ->
        fetchCbObject localStorage newAddressesValue cbObject = cbObject
        /\ fetchCbObject localStorage newAddressesValue None = None)
  /\ (forall o, fetchCbObject localStorage newAddressesValue None = Some o -> filled o).
Proof.
  pose proof (fetchCbObject_condition localStorage newAddressesValue) as Hc.
  assert (Hyes : relay_complete localStorage newAddressesValue ->
            forall cb, exists o, fetchCbObject localStorage newAddressesValue cb = Some o
              /\ filled o
              /\ Some (sessionId o) = localStorage !! "-walletlink:https://www.walletlink.org:session:id"
              /\ Some (linked o) = localStorage !! "-walletlink:https://www.walletlink.org:session:linked"
              /\ Some (addresses o) = relay_addresses localStorage newAddressesValue
              /\ Some (sessionSecret o) = localStorage !! "-walletlink:https://www.walletlink.org:session:secret"
              /\ Some (defaultChainId o) = localStorage !! "-walletlink:https://www.walletlink.org:DefaultChainId"
              /\ Some (defaultJsonRpcUrl o) = localStorage !! "-walletlink:https://www.walletlink.org:DefaultJsonRpcUrl").
  { intros Hall cb. pose proof Hall as (H1 & H2 & H3 & H4 & H5 & H6).
    apply Hc in Hall. unfold fetchCbObject. fold (relay_addresses localStorage newAddressesValue).
    rewrite Hall. eexists. split; [reflexivity|].
    apply present_Some in H1 as (s1 & E1 & N1).
    apply present_Some in H3 as (s3 & E3 & N3).
    apply present_Some in H4 as (s4 & E4 & N4).
    apply present_Some in H5 as (s5 & E5 & N5).
    apply present_Some in H6 as (s6 & E6 & N6).
    unfold filled. cbn [sessionId linked addresses sessionSecret defaultChainId defaultJsonRpcUrl].
    rewrite E1, H2, E3, E4, E5, E6. cbn [default]. repeat split; assumption. }
  assert (Hno : ~ relay_complete localStorage newAddressesValue ->
            forall cb, fetchCbObject localStorage newAddressesValue cb = cb).
  { intros Hmiss cb. unfold fetchCbObject. fold (relay_addresses localStorage newAddressesValue).
    match goal with
    | |- (if ?c then _ else _) = _ => assert (c = false) as ->; [|reflexivity]
    end.
    apply not_true_is_false. intros E. apply Hmiss, Hc, E. }
  split; [intros H; apply Hyes, H|]. split.
  - intros Hmiss. split; apply Hno, Hmiss.
  - intros o Ho.
    assert (Hdec : relay_complete localStorage newAddressesValue
                   \/ ~ relay_complete localStorage newAddressesValue).
    { match type of Hc with
      | _ <-> ?c = true => destruct (Bool.bool_dec c true) as [E|E]
      end; [left; apply Hc, E | right; intros H; apply E, Hc, H]. }
    destruct Hdec as [Hall|Hmiss].
    + destruct (Hyes Hall None) as (o' & Ho' & Hf & _). congruence.
    + rewrite (Hno Hmiss) in Ho. discriminate.
Qed.

Lemma fetchCbObject_all_or_nothing_witness :
  (exists o, fetchCbObject linked_relay None None = Some o /\ filled o)
  /\ fetchCbObject linked_relay (Some ""%string) None = None.
Proof.
  split.
  - destruct (fetchCbObject_all_or_nothing linked_relay None None) as [Hall _].
    destruct Hall as (o & Ho & Hfilled & _).
    + repeat split; reflexivity.
    + exists o. split; assumption.
  - destruct (fetchCbObject_all_or_nothing linked_relay (Some ""%string) None)
      as (_ & Hmissing & _).
    apply Hmissing. intros (_ & _ & Haddresses & _). discriminate.
Defined.

Example fetchCbObject_linked :
  fetchCbObject linked_relay None None
  = Some {| sessionId := "4f1c";
            sessionSecret := "000102030405060708090a0b0c0d0e0f101112131415161718191a1b1c1d1e1f";
            addresses := "0xAbC0000000000000000000000000000000000001";
            linked := "1";
            defaultChainId := "137";
            defaultJsonRpcUrl := "https://polygon-rpc.com" |}.
Proof. vm_compute. reflexivity. Qed.

Example fetchCbObject_empty_addresses :
  fetchCbObject linked_relay (Some ""%string) None = None.
Proof. vm_compute. reflexivity. Qed.

Example fetchCbObject_not_linked :
  fetchCbObject
    (<["-walletlink:https://www.walletlink.org:session:linked" := "0"]> linked_relay)
    None None = None.
Proof. vm_compute. reflexivity. Qed.

Example fetchCbObject_no_secret :
  fetchCbObject
    (delete "-walletlink:https://www.walletlink.org:session:secret" linked_relay)
    None None = None.
Proof. vm_compute. reflexivity. Qed.

(** ** The relay cipher *)

Lemma hex_pair_decodes b : is_byte b -> ToUint8 (parseInt16 (hex_pair b)) = b.
Proof.
  intros Hb.
  assert (Hall : forallb (fun n => ToUint8 (parseInt16 (hex_pair (Z.of_nat n))) =? Z.of_nat n)
                   (seq 0 256) = true) by (vm_compute; reflexivity).
  rewrite forallb_forall in Hall.
  specialize (Hall (Z.to_nat b)). unfold is_byte in Hb.
  rewrite Z2Nat.id in Hall by lia.
  apply Z.eqb_eq, Hall, in_seq. lia.
Qed.

Lemma hex_pair_plain b :
  is_byte b ->
  is_line_terminator (hex_char (b / 16)) = false
  /\ is_line_terminator (hex_char (b mod 16)) = false.
Proof.
  intros Hb.
  assert (Hall : forallb (fun n => negb (is_line_terminator (hex_char (Z.of_nat n / 16)))
                                   && negb (is_line_terminator (hex_char (Z.of_nat n mod 16))))
                   (seq 0 256) = true) by (vm_compute; reflexivity).
  rewrite forallb_forall in Hall.
  specialize (Hall (Z.to_nat b)). unfold is_byte in Hb.
  rewrite Z2Nat.id in Hall by lia.
  apply andb_true_iff in Hall as [H1 H2]; [|apply in_seq; lia].
  split; apply negb_true_iff; assumption.
Qed.

Lemma match_pairs_hex bytes :
  Forall is_byte bytes -> match_pairs (hex_of_bytes bytes) = map hex_pair bytes.
Proof.
  induction 1 as [|b bytes Hb _ IH]; [reflexivity|].
  cbn [hex_of_bytes match_pairs map].
  destruct (hex_pair_plain b Hb) as [-> ->]. rewrite IH. reflexivity.
Qed.

(** Decoding undoes the wire encoding. *)
Lemma hexStringToUint8Array_hex_of_bytes bytes :
  Forall is_byte bytes -> bytes <> [] ->
  hexStringToUint8Array (hex_of_bytes bytes) = JS.Ok bytes.
Proof.
  intros Hb Hne. unfold hexStringToUint8Array. rewrite match_pairs_hex by assumption.
  destruct bytes as [|b bytes]; [contradiction|].
  cbn [map]. f_equal.
  change (map (fun byte => ToUint8 (parseInt16 byte)) (map hex_pair (b :: bytes)) = b :: bytes).
  rewrite map_map. clear Hne.
  induction Hb as [|x l Hx _ IH]; [reflexivity|].
  cbn [map]. rewrite hex_pair_decodes, IH by assumption. reflexivity.
Qed.

Lemma hex_digit_plain c d : hex_digit c = Some d -> is_line_terminator c = false.
Proof.
  unfold hex_digit, is_line_terminator.
  destruct (nat_of_ascii c =? 10)%nat eqn:E10; [apply Nat.eqb_eq in E10; rewrite E10; discriminate|].
  destruct (nat_of_ascii c =? 13)%nat eqn:E13; [apply Nat.eqb_eq in E13; rewrite E13; discriminate|].
  reflexivity.
Qed.

(** Hexadecimal text pairs up from the left, a last odd digit alone. *)
Lemma match_pairs_hex_length s :
  is_hex_string s = true ->
  length (match_pairs s) = Nat.div2 (S (String.length s)).
Proof.
  assert (Hboth : forall s,
             (is_hex_string s = true -> length (match_pairs s) = Nat.div2 (S (String.length s)))
             /\ (forall c, is_hex_string (String c s) = true ->
                   length (match_pairs (String c s)) = Nat.div2 (S (S (String.length s))))).
  { clear s. induction s as [|b s [IH1 IH2]].
    - split; [reflexivity|]. intros c Hc. cbn [is_hex_string] in Hc.
      destruct (hex_digit c) as [d|] eqn:Hd; [|discriminate].
      cbn [match_pairs]. rewrite (hex_digit_plain _ _ Hd). reflexivity.
    - split; [apply IH2|]. intros c Hc. cbn [is_hex_string] in Hc.
      destruct (hex_digit c) as [d|] eqn:Hd; [|discriminate].
      destruct (hex_digit b) as [d'|] eqn:Hd'; [|discriminate].
      cbn [match_pairs]. rewrite (hex_digit_plain _ _ Hd), (hex_digit_plain _ _ Hd').
      cbn [length String.length Nat.div2]. f_equal. apply IH1, Hc. }
  apply Hboth.
Qed.

(** A secret of 64 hexadecimal digits is a key of 32 bytes. *)
Lemma hexStringToUint8Array_secret secret :
  is_hex_string secret = true -> String.length secret = 64%nat ->
  exists keyBytes, hexStringToUint8Array secret = JS.Ok keyBytes
                   /\ length keyBytes = 32%nat.
Proof.
  intros Hhex Hlen. pose proof (match_pairs_hex_length secret Hhex) as Hp.
  rewrite Hlen in Hp. unfold hexStringToUint8Array.
  destruct (match_pairs secret) as [|p ps] eqn:E; [discriminate|].
  eexists. split; [reflexivity|]. rewrite length_map. exact Hp.
Qed.

Lemma aes256gcmDecrypt_secret_length crypto cipherText secret :
  String.length secret <> 64%nat ->
  aes256gcmDecrypt crypto cipherText secret = JS.Throw (JS.Error "secret must be 256 bits").
Proof.
  intros Hlen. unfold aes256gcmDecrypt.
  destruct (Nat.eqb_spec (String.length secret) 64); [contradiction|reflexivity].
Qed.

Lemma slice_layout {A} (iv tag ct : list A) :
  length iv = 12%nat -> length tag = 16%nat ->
  slice (iv ++ tag ++ ct) 0 12 = iv
  /\ slice (iv ++ tag ++ ct) 12 28 = tag
  /\ slice_from (iv ++ tag ++ ct) 28 = ct.
Proof.
  intros Hiv Htag. unfold slice, slice_from. repeat split.
  - cbn [skipn]. change (12 - 0)%nat with 12%nat. rewrite <- Hiv. apply take_app_length.
  - rewrite <- Hiv, drop_app_length. change (28 - length iv)%nat with (28 - length iv)%nat.
    rewrite Hiv. change (28 - 12)%nat with 16%nat. rewrite <- Htag. apply take_app_length.
  - rewrite app_assoc.
    replace 28%nat with (length (iv ++ tag)) by (rewrite length_app; lia).
    apply drop_app_length.
Qed.

Lemma aes256gcmDecrypt_layout (crypto : SubtleCrypto) (cipherText secret : string)
    (iv tag ct keyBytes : list Z) (secretKey : CryptoKey crypto) :
  String.length secret = 64%nat ->
  hexStringToUint8Array secret = JS.Ok keyBytes ->
  importKey crypto keyBytes = JS.Ok secretKey ->
  hexStringToUint8Array cipherText = JS.Ok (iv ++ tag ++ ct) ->
  length iv = 12%nat ->
  length tag = 16%nat ->
  aes256gcmDecrypt crypto cipherText secret
  = JS.Ok match subtle_decrypt crypto iv secretKey (ct ++ tag) with
          | JS.Ok decrypted => JS.Resolved (decode crypto decrypted)
          | JS.Throw err => JS.Rejected err
          end.
Proof.
  intros Hlen Hkey Himport Hcipher Hiv Htag.
  unfold aes256gcmDecrypt. rewrite Hlen, Hkey, Himport, Hcipher.
  destruct (slice_layout iv tag ct Hiv Htag) as (-> & -> & ->).
  reflexivity.
Qed.

(** C7. The routine reads the hex-decoded input as a 12-byte IV, then a
    16-byte authentication tag, then the ciphertext, and calls the
    AES-GCM decrypt of Web Crypto with that IV on the ciphertext
    followed by the tag; its promise resolves with the decoded plaintext
    or rejects with the decrypt error.  A secret that is not 64
    characters long, and so every hexadecimal secret that does not
    decode to exactly 32 bytes, makes the call throw before any key is
    imported or anything is decrypted. *)
Theorem aes256gcmDecrypt_wire_format (crypto : SubtleCrypto) (cipherText secret : string) :
  (String.length secret <> 64%nat ->
     aes256gcmDecrypt crypto cipherText secret
     = JS.Throw (JS.Error "secret must be 256 bits"))
  /\ (is_hex_string secret = true ->
      ~ (exists keyBytes, hexStringToUint8Array secret = JS.Ok keyBytes
                          /\ length keyBytes = 32%nat) ->
      aes256gcmDecrypt crypto cipherText secret
      = JS.Throw (JS.Error "secret must be 256 bits"))
  /\ (forall (iv tag ct keyBytes : list Z) (secretKey : CryptoKey crypto),
        String.length secret = 64%nat ->
        hexStringToUint8Array secret = JS.Ok keyBytes ->
        importKey crypto keyBytes = JS.Ok secretKey ->
        hexStringToUint8Array cipherText = JS.Ok (iv ++ tag ++ ct) ->
        length iv = 12%nat ->
        length tag = 16%nat ->
        aes256gcmDecrypt crypto cipherText secret
        = JS.Ok match subtle_decrypt crypto iv secretKey (ct ++ tag) with
                | JS.Ok decrypted => JS.Resolved (decode crypto decrypted)
                | JS.Throw err => JS.Rejected err
                end).
Proof.
  split; [apply aes256gcmDecrypt_secret_length|]. split.
  - intros Hhex Hnot. apply aes256gcmDecrypt_secret_length. intros Hlen.
    apply Hnot, hexStringToUint8Array_secret; assumption.
  - intros iv tag ct keyBytes secretKey. apply aes256gcmDecrypt_layout.
Qed.

Lemma aes256gcmDecrypt_wire_format_witness :
  let secret := "000102030405060708090a0b0c0d0e0f101112131415161718191a1b1c1d1e1f"%string in
  let iv := [1; 0; 0; 0; 0; 0; 0; 0; 0; 0; 0; 0] in
  let tag := [0; 1; 2; 3; 4; 5; 6; 7; 8; 9; 10; 11; 12; 13; 14; 15] in
  let ct := [103; 104] in
  let keyBytes := [0; 1; 2; 3; 4; 5; 6; 7; 8; 9; 10; 11; 12; 13; 14; 15; 16; 17; 18;
                   19; 20; 21; 22; 23; 24; 25; 26; 27; 28; 29; 30; 31] in
  aes256gcmDecrypt toy_crypto (hex_of_bytes (iv ++ tag ++ ct)) secret
  = JS.Ok match subtle_decrypt toy_crypto iv keyBytes (ct ++ tag) with
          | JS.Ok decrypted => JS.Resolved (decode toy_crypto decrypted)
          | JS.Throw err => JS.Rejected err
          end
  /\ aes256gcmDecrypt toy_crypto (hex_of_bytes (iv ++ tag ++ ct)) "0001"
     = JS.Throw (JS.Error "secret must be 256 bits").
Proof.
  intros secret iv tag ct keyBytes. split.
  - destruct (aes256gcmDecrypt_wire_format toy_crypto (hex_of_bytes (iv ++ tag ++ ct)) secret)
      as (_ & _ & Hlayout).
    apply (Hlayout iv tag ct keyBytes keyBytes); reflexivity.
  - destruct (aes256gcmDecrypt_wire_format toy_crypto (hex_of_bytes (iv ++ tag ++ ct)) "0001")
      as (_ & Hreject & _).
    apply Hreject; [reflexivity|].
    intros (decoded & Hkey & Hlen). vm_compute in Hkey.
    injection Hkey as <-. discriminate.
Defined.

(** On the relay's own encoding of IV, tag and ciphertext. *)
Corollary aes256gcmDecrypt_hex_of_bytes (crypto : SubtleCrypto)
    (iv tag ct keyBytes : list Z) (secret : string) (secretKey : CryptoKey crypto) :
  Forall is_byte (iv ++ tag ++ ct) ->
  length iv = 12%nat -> length tag = 16%nat ->
  String.length secret = 64%nat ->
  hexStringToUint8Array secret = JS.Ok keyBytes ->
  importKey crypto keyBytes = JS.Ok secretKey ->
  aes256gcmDecrypt crypto (hex_of_bytes (iv ++ tag ++ ct)) secret
  = JS.Ok match subtle_decrypt crypto iv secretKey (ct ++ tag) with
          | JS.Ok decrypted => JS.Resolved (decode crypto decrypted)
          | JS.Throw err => JS.Rejected err
          end.
Proof.
  intros Hb Hiv Htag Hlen Hkey Himport.
  apply (aes256gcmDecrypt_layout crypto _ _ iv tag ct keyBytes); try assumption.
  apply hexStringToUint8Array_hex_of_bytes; [assumption|].
  destruct iv; discriminate.
Qed.

Example aes256gcmDecrypt_toy_message :
  aes256gcmDecrypt toy_crypto
    ("010000000000000000000000" ++ "000102030405060708090a0b0c0d0e0f" ++ "6768")
    "000102030405060708090a0b0c0d0e0f101112131415161718191a1b1c1d1e1f"
  = JS.Ok (JS.Resolved "hi"%string).
Proof. vm_compute. reflexivity. Qed.

Example aes256gcmDecrypt_toy_bad_tag :
  aes256gcmDecrypt toy_crypto
    ("010000000000000000000000" ++ "ff0102030405060708090a0b0c0d0e0f" ++ "6768")
    "000102030405060708090a0b0c0d0e0f101112131415161718191a1b1c1d1e1f"
  = JS.Ok (JS.Rejected (JS.Error "OperationError")).
Proof. vm_compute. reflexivity. Qed.

Example aes256gcmDecrypt_short_secret :
  aes256gcmDecrypt toy_crypto "00" "000102030405060708090a0b0c0d0e0f"
  = JS.Throw (JS.Error "secret must be 256 bits").
Proof. reflexivity. Qed.

(** An empty ciphertext has no pairs to decode: the failure happens
    inside the promise, before the [try], and the promise never settles. *)
Example aes256gcmDecrypt_empty_input :
  aes256gcmDecrypt toy_crypto ""
    "000102030405060708090a0b0c0d0e0f101112131415161718191a1b1c1d1e1f"
  = JS.Ok JS.Pending.
Proof. vm_compute. reflexivity. Qed.

(** What the decoder makes of text that is not hexadecimal. *)
Example hexStringToUint8Array_oddities :
  hexStringToUint8Array "fF7" = JS.Ok [255; 7]
  /\ hexStringToUint8Array "zz-1 a" = JS.Ok [0; 255; 10]
  /\ hexStringToUint8Array "" = JS.Throw JS.TypeError.
Proof. repeat split; reflexivity. Qed.

(** ** The provider wrapper *)

Lemma PropertyKey_eqb_eq a b : PropertyKey_eqb a b = true <-> a = b.
Proof.
  destruct a as [x|x], b as [y|y]; simpl; split; try discriminate.
  - intros H. apply String.eqb_eq in H. congruence.
  - intros [= ->]. apply String.eqb_refl.
  - intros H. apply Nat.eqb_eq in H. congruence.
  - intros [= ->]. apply Nat.eqb_refl.
Qed.

Lemma proxiedFunctions_only_request prop :
  Array_includes proxiedFunctions prop = true <-> prop = PString "request".
Proof.
  unfold Array_includes, proxiedFunctions. cbn [existsb].
  rewrite orb_false_r. apply PropertyKey_eqb_eq.
Qed.

(** C5. Reading any property other than [request] through the proxy is
    [Reflect.get] on the wrapped provider with the same key and
    receiver, nothing more; the trap substitutes its wrapper for
    [request] alone. *)
Theorem handler_get_forwards
    {Target Receiver V : Type}
    (Reflect_get : Target -> PropertyKey -> Receiver -> V)
    (apply_await : V -> list JS.value -> JS.result JS.value)
    (window_CIPHER : bool) (fetchedProvider : InjectedProvider)
    (target : Target) (prop : PropertyKey) (receiver : Receiver) :
  prop <> PString "request" ->
  handler_get Reflect_get apply_await window_CIPHER fetchedProvider target prop receiver
  = Forwarded (Reflect_get target prop receiver)
  /\ exists wrapper,
       handler_get Reflect_get apply_await window_CIPHER fetchedProvider
         target (PString "request") receiver
       = Intercepted wrapper.
Proof.
  intros Hne. unfold handler_get. split.
  - destruct (Array_includes proxiedFunctions prop) eqn:E; [|reflexivity].
    apply proxiedFunctions_only_request in E. contradiction.
  - eexists. reflexivity.
Qed.

Lemma handler_get_forwards_witness :
  let provider_object (key : PropertyKey) : Z :=
    match key with
    | PString "chainId" => 137
    | _ => 0
    end in
  PString "chainId" <> PString "request"
  /\ handler_get (fun t key (_ : unit) => t key) (fun _ _ => JS.Throw JS.TypeError)
       false metamask_wallet provider_object (PString "chainId") tt
     = Forwarded 137
  /\ exists wrapper,
       handler_get (fun t key (_ : unit) => t key) (fun _ _ => JS.Throw JS.TypeError)
         false metamask_wallet provider_object (PString "request") tt
       = Intercepted wrapper.
Proof.
  intros provider_object. split; [discriminate|].
  apply (handler_get_forwards (fun t key (_ : unit) => t key)
           (fun _ _ => JS.Throw JS.TypeError) false metamask_wallet
           provider_object (PString "chainId") tt).
  discriminate.
Defined.

(** A symbol key is forwarded like any other. *)
Example handler_get_symbol :
  handler_get (fun (t : PropertyKey -> Z) key (_ : unit) => t key)
    (fun _ _ => JS.Throw JS.TypeError) false metamask_wallet
    (fun _ => 7) (PSymbol 0) tt
  = Forwarded 7.
Proof. reflexivity. Qed.

(** What the wrapper does when the wallet call succeeds. *)
Example request_wrapper_submitted :
  request_wrapper (fun _ => JS.Ok (JS.VStr "0x9f3e")) false metamask_wallet
    send_transaction_call
  = ([logSendTransaction sample_tx PENDING (JS.VStr "0x9f3e")
        {| type := type_injected; provider := window_ethereum;
           wallet := "0xabc0000000000000000000000000000000000001";
           walletProvider := "metamask" |}],
     JS.Ok (JS.VStr "0x9f3e")).
Proof. reflexivity. Qed.

(** The user declines a transaction: a CANCELLED event without hash. *)
Example request_wrapper_cancelled :
  request_wrapper (fun _ => JS.Throw user_rejected) false metamask_wallet
    send_transaction_call
  = ([logSendTransaction sample_tx CANCELLED JS.VNull
        {| type := type_injected; provider := window_ethereum;
           wallet := "0xabc0000000000000000000000000000000000001";
           walletProvider := "metamask" |}],
     JS.Ok JS.VUndef).
Proof. reflexivity. Qed.

(** The user declines to connect: the request carries no parameters,
    and the [catch] block fails on [params[0]]. *)
Example request_wrapper_connect_declined :
  request_wrapper (fun _ => JS.Throw user_rejected) false metamask_wallet
    request_accounts_call
  = ([], JS.Throw JS.TypeError).
Proof. reflexivity. Qed.

(** Property reads and method calls on parsed values fail in one way. *)
Lemma get_prop_throws v name e : JS.get_prop v name = JS.Throw e -> e = JS.TypeError.
Proof. destruct v; cbn; congruence. Qed.

Lemma get_index0_throws v e : JS.get_index0 v = JS.Throw e -> e = JS.TypeError.
Proof. destruct v as [| | | |[]| |]; cbn; congruence. Qed.

Lemma toLowerCase_throws v e : JS.toLowerCase v = JS.Throw e -> e = JS.TypeError.
Proof. destruct v; cbn; congruence. Qed.

Lemma includes_throws v needle e : JS.includes v needle = JS.Throw e -> e = JS.TypeError.
Proof. destruct v; cbn; congruence. Qed.

Lemma host_mentions_throws p needle e :
  host_mentions p needle = JS.Throw e -> e = JS.TypeError.
Proof.
  unfold host_mentions, JS.indexOf_found.
  destruct (JS.truthy (host p)); [apply includes_throws|discriminate].
Qed.

Lemma getProviderNameForMetamask_throws window_CIPHER p e :
  getProviderNameForMetamask window_CIPHER p = JS.Throw e -> e = JS.TypeError.
Proof.
  unfold getProviderNameForMetamask.
  repeat match goal with
         | |- context [if ?c then _ else _] =>
             lazymatch c with
             | host_mentions _ _ => fail
             | _ => destruct c; [discriminate|]
             end
         end.
  destruct (host_mentions p "infura") as [[]|e1] eqn:E1; cbn [JS.bind];
    [discriminate| |intros [= <-]; exact (host_mentions_throws _ _ _ E1)].
  destruct (host_mentions p "localhost") as [[]|e2] eqn:E2; cbn [JS.bind];
    [discriminate| |intros [= <-]; exact (host_mentions_throws _ _ _ E2)].
  destruct (isMetaMask p); discriminate.
Qed.

Lemma injected_sender_throws window_CIPHER p tx e :
  injected_sender window_CIPHER p tx = JS.Throw e -> e = JS.TypeError.
Proof.
  unfold injected_sender.
  destruct (JS.get_prop tx "from") as [from|e1] eqn:E1; cbn [JS.bind];
    [|intros [= <-]; exact (get_prop_throws _ _ _ E1)].
  destruct (JS.toLowerCase from) as [w|e2] eqn:E2; cbn [JS.bind];
    [|intros [= <-]; exact (toLowerCase_throws _ _ E2)].
  destruct (getProviderNameForMetamask window_CIPHER p) as [n|e3] eqn:E3; cbn [JS.bind];
    [discriminate|intros [= <-]; exact (getProviderNameForMetamask_throws _ _ _ E3)].
Qed.

Lemma request_catch_throws window_CIPHER p params err e :
  (request_catch window_CIPHER p params err).2 = JS.Throw e -> e = JS.TypeError.
Proof.
  unfold request_catch.
  destruct (exn_code err) as [code|e1] eqn:E1.
  - destruct (JS.truthy code && JS.loose_eq_num code 4001); [|discriminate].
    destruct (JS.get_index0 params) as [tx|e2] eqn:E2; cbn [JS.bind];
      [|intros [= <-]; exact (get_index0_throws _ _ E2)].
    destruct (injected_sender window_CIPHER p tx) as [w|e3] eqn:E3; cbn [JS.bind];
      [discriminate|intros [= <-]; exact (injected_sender_throws _ _ _ _ E3)].
  - intros [= <-]. destruct err; cbn in E1; try discriminate.
    exact (get_prop_throws _ _ _ E1).
Qed.

(** The [catch] block has no [throw]: once the wallet call has failed,
    the wrapper's promise resolves with [undefined], or rejects with a
    TypeError of the block's own; the caller never gets the wallet's
    error back. *)
Lemma request_wrapper_never_rethrows underlying window_CIPHER fetchedProvider args err :
  names_method args ->
  underlying args = JS.Throw (JS.Thrown err) ->
  (request_wrapper underlying window_CIPHER fetchedProvider args).2 = JS.Ok JS.VUndef
  \/ (request_wrapper underlying window_CIPHER fetchedProvider args).2 = JS.Throw JS.TypeError.
Proof.
  intros Hargs Hfail. unfold request_wrapper, names_method in *.
  destruct (nth 0 args JS.VUndef) as [| |b|n|s|items|fields] eqn:E0; try contradiction;
    cbn [JS.is_string JS.get_prop].
  all: unfold request_try; rewrite Hfail.
  all: match goal with
       | |- context [request_catch ?w ?p ?params ?e] =>
           pose proof (request_catch_throws w p params e) as Hc;
           destruct (request_catch w p params e) as [calls [v|e']] eqn:Ecatch
       end; cbn [snd] in *.
  all: try (right; f_equal; apply Hc; reflexivity).
  all: left; revert Ecatch; unfold request_catch.
  all: destruct (exn_code _) as [code|]; [|discriminate].
  all: destruct (JS.truthy code && JS.loose_eq_num code 4001); [|congruence].
  all: destruct (JS.bind _ _) as [[tx w]|]; congruence.
Qed.

(** C3. The claim wants every failure other than a user rejection to
    reach the caller as it was thrown.  The code does otherwise: when
    the wallet fails a transaction with the internal error -32603, the
    wrapper's [catch] finds no code 4001, does nothing, and falls out of
    the function, so the caller's promise resolves with [undefined] and
    no event is emitted. *)
Theorem request_wrapper_swallows_provider_error :
  request_wrapper (fun _ => JS.Throw internal_error) false metamask_wallet
    send_transaction_call
  = ([], JS.Ok JS.VUndef)
  /\ (request_wrapper (fun _ => JS.Throw internal_error) false metamask_wallet
        send_transaction_call).2
     <> JS.Throw internal_error.
Proof. split; [reflexivity|discriminate]. Qed.

(** ** The socket wrapper *)

Section SocketFacts.

Context (B : Bridge).

Lemma then_Ok {A C} (t : task B A) (k : A -> task B C) c :
  (then_ t k).2 = JS.Ok c -> exists a, t.2 = JS.Ok a /\ (k a).2 = JS.Ok c.
Proof.
  unfold then_. destruct t as [trace [a|e]]; cbn [snd]; [|discriminate].
  destruct (k a) as [trace' r] eqn:E. cbn [snd]. intros ->. exists a. rewrite E. auto.
Qed.

Lemma keeps_keys_refl st : keeps_keys st st.
Proof. intros k H. exact H. Qed.

Lemma keeps_keys_set st id v :
  keeps_keys st {| wcObject := wcObject st; cbObject := cbObject st;
                   wsMessages := Map_set (wsMessages st) id v |}.
Proof.
  intros k Hk. cbn [wsMessages]. unfold Map_set.
  destruct (to_key id) as [k'|]; [|exact Hk].
  rewrite lookup_insert. case_decide; [eauto|exact Hk].
Qed.

Lemma on_walletconnect_request_keeps st decrypted st' :
  (on_walletconnect_request B st decrypted).2 = JS.Ok st' -> keeps_keys st st'.
Proof.
  unfold on_walletconnect_request. intros H.
  apply then_Ok in H as (id & _ & H). apply then_Ok in H as (method & _ & H).
  destruct (_ && _).
  - apply then_Ok in H as (_ & _ & H). apply then_Ok in H as (all_params & _ & H).
    apply then_Ok in H as (params & _ & H). apply then_Ok in H as (_ & _ & H).
    cbn in H. injection H as <-. apply keeps_keys_set.
  - apply then_Ok in H as (_ & _ & H). cbn in H. injection H as <-. apply keeps_keys_refl.
Qed.

Lemma on_coinbase_request_keeps st decryptedString st' :
  (on_coinbase_request B st decryptedString).2 = JS.Ok st' -> keeps_keys st st'.
Proof.
  unfold on_coinbase_request. intros H.
  apply then_Ok in H as (decrypted & _ & H). apply then_Ok in H as (id & _ & H).
  apply then_Ok in H as (kind & _ & H). apply then_Ok in H as (st1 & H1 & H).
  apply then_Ok in H as (_ & _ & H). cbn in H. injection H as <-.
  destruct (JS.truthy id && _).
  - apply then_Ok in H1 as (_ & _ & H1). apply then_Ok in H1 as (requestObj & _ & H1).
    destruct (JS.truthy requestObj && _).
    + apply then_Ok in H1 as (_ & _ & H1). apply then_Ok in H1 as (params & _ & H1).
      apply then_Ok in H1 as (shouldSubmit & _ & H1). apply then_Ok in H1 as (_ & _ & H1).
      destruct (JS.truthy shouldSubmit).
      * apply then_Ok in H1 as (_ & _ & H1).
        do 5 (apply then_Ok in H1 as (? & _ & H1)).
        cbn in H1. injection H1 as <-. apply keeps_keys_set.
      * cbn in H1. injection H1 as <-. apply keeps_keys_refl.
    + cbn in H1. injection H1 as <-. apply keeps_keys_refl.
  - apply then_Ok in H1 as (_ & _ & H1). cbn in H1. injection H1 as <-.
    apply keeps_keys_refl.
Qed.

Lemma run_job_keeps st j : keeps_keys st (run_job B st j).2.
Proof.
  destruct j as [payload wc|[decryptedString|e|]]; cbn [run_job]; try apply keeps_keys_refl.
  - match goal with |- context [then_ ?t ?k] => destruct (then_ t k) as [trace [st'|e]] eqn:E end;
      cbn [snd]; [|apply keeps_keys_refl].
    assert (H : (then_ (lift (decrypt B payload wc))
                   (fun decrypted => on_walletconnect_request B st decrypted)).2 = JS.Ok st')
      by (rewrite E; reflexivity).
    apply then_Ok in H as (decrypted & _ & H).
    exact (on_walletconnect_request_keeps _ _ _ H).
  - destruct (on_coinbase_request B st decryptedString) as [trace [st'|e]] eqn:E;
      cbn [snd]; [|apply keeps_keys_refl].
    apply (on_coinbase_request_keeps st decryptedString). rewrite E. reflexivity.
Qed.

Lemma proxiedSend_keeps st arguments : keeps_keys st (proxiedSend B st arguments).2.
Proof.
  unfold proxiedSend.
  destruct (inspect_outgoing B st arguments) as [trace [j|e]].
  - assert (Hj : keeps_keys st (run_jobs B st j).2)
      by (destruct j; [apply run_job_keeps|apply keeps_keys_refl]).
    destruct (run_jobs B st j) as [later st']. cbn [snd] in Hj.
    destruct (originalSend B arguments); cbn; exact Hj.
  - destruct (originalSend B arguments); cbn; apply keeps_keys_refl.
Qed.

Lemma on_message_state st data : (on_message B st data).2 = st.
Proof.
  unfold on_message. cbv zeta.
  destruct (then_ _ _) as [trace [messageObj|e]]; [|reflexivity].
  destruct (negb _); [reflexivity|].
  destruct (_ && _).
  - destruct (wcObject st); reflexivity.
  - destruct (_ && _); [|reflexivity].
    destruct (cbObject st) as [cb|]; [|reflexivity].
    destruct (aes256gcmDecrypt_value B _ _) as [[decryptedString|e|]|e]; reflexivity.
Qed.

Lemma sends_app (t1 t2 : list (ws_effect B)) : sends (t1 ++ t2) = sends t1 ++ sends t2.
Proof. unfold sends. apply omap_app. Qed.

Lemma sends_then {A C} (t : task B A) (k : A -> task B C) :
  sends t.1 = [] -> (forall a, sends (k a).1 = []) -> sends (then_ t k).1 = [].
Proof.
  intros Ht Hk. unfold then_. destruct t as [trace [a|e]]; cbn [fst] in *; [|exact Ht].
  specialize (Hk a). destruct (k a) as [trace' r]. cbn [fst] in *.
  rewrite sends_app, Ht, Hk. reflexivity.
Qed.

End SocketFacts.

(** Walks a task built with [then_] and shows that no step of it calls
    the native [send]. *)
Ltac no_send :=
  repeat first
    [ reflexivity
    | apply sends_then; [|intros ?]
    | match goal with
      | |- sends (fst (if ?c then _ else _)) = [] => destruct c
      | |- sends (fst (match ?c with _ => _ end)) = [] => destruct c
      end ].

Section Forwarding.

Context (B : Bridge).

Lemma inspect_outgoing_no_send st arguments :
  sends (inspect_outgoing B st arguments).1 = [].
Proof. unfold inspect_outgoing. no_send. Qed.

Lemma run_job_no_send st j : sends (run_job B st j).1 = [].
Proof.
  destruct j as [payload wc|[decryptedString|e|]]; cbn [run_job]; try reflexivity.
  - match goal with
    | |- context [then_ ?t ?k] =>
        assert (Hq : sends (then_ t k).1 = []);
        [|destruct (then_ t k) as [trace [st'|e]]]
    end.
    + unfold on_walletconnect_request. no_send.
    + exact Hq.
    + cbn [fst] in *. rewrite sends_app, Hq. reflexivity.
  - assert (Hq : sends (on_coinbase_request B st decryptedString).1 = []).
    { unfold on_coinbase_request. no_send. }
    destruct (on_coinbase_request B st decryptedString) as [trace [st'|e]]; cbn [fst] in *.
    + exact Hq.
    + rewrite sends_app, Hq. reflexivity.
Qed.

Lemma run_jobs_no_send st j : sends (run_jobs B st j).1 = [].
Proof. destruct j; [apply run_job_no_send|reflexivity]. Qed.

(** What the page gets from the wrapped [send] is what the native
    [send] gives: the inspection adds no outcome of its own. *)
Lemma proxiedSend_result st arguments :
  (proxiedSend B st arguments).1.2 = originalSend B arguments.
Proof.
  unfold proxiedSend.
  destruct (inspect_outgoing B st arguments) as [trace [j|e]]; cbn.
  - destruct (run_jobs B st j) as [later st'].
    destruct (originalSend B arguments); reflexivity.
  - reflexivity.
Qed.

(** The frame goes to the native [send] once, as it came, whatever the
    inspection ran into, when the native [send] itself succeeds. *)
Lemma proxiedSend_forwards_once st arguments v :
  originalSend B arguments = JS.Ok v ->
  sends (proxiedSend B st arguments).1.1 = [arguments]
  /\ (proxiedSend B st arguments).1.2 = JS.Ok v.
Proof.
  intros Hsend. split; [|rewrite proxiedSend_result; exact Hsend].
  unfold proxiedSend.
  pose proof (inspect_outgoing_no_send st arguments) as Hi.
  destruct (inspect_outgoing B st arguments) as [trace [j|e]]; cbn [fst] in Hi.
  - pose proof (run_jobs_no_send st j) as Hj.
    destruct (run_jobs B st j) as [later st']. cbn [fst] in Hj.
    rewrite Hsend. cbn [fst]. unfold sends in *.
    rewrite !omap_app, Hi. cbn. rewrite Hj. reflexivity.
  - cbn [fst then_ pfLog]. unfold sends in *. rewrite !omap_app, Hi. reflexivity.
Qed.

(** When the native [send] throws inside the [try], the [catch] calls
    it a second time. *)
Lemma proxiedSend_second_call st arguments j e :
  (inspect_outgoing B st arguments).2 = JS.Ok j ->
  originalSend B arguments = JS.Throw e ->
  sends (proxiedSend B st arguments).1.1 = [arguments; arguments].
Proof.
  intros Hin Hsend. unfold proxiedSend.
  pose proof (inspect_outgoing_no_send st arguments) as Hi.
  destruct (inspect_outgoing B st arguments) as [trace r]; cbn [fst snd] in *. subst r.
  pose proof (run_jobs_no_send st j) as Hj.
  destruct (run_jobs B st j) as [later st']. cbn [fst] in Hj.
  rewrite Hsend. cbn [fst then_ pfLog]. unfold sends in *.
  rewrite !omap_app, Hi. cbn. rewrite Hj. reflexivity.
Qed.

(** An inbound frame that is not JSON ends the listener at
    [JSON.parse]: its promise rejects, and the "could not parse" branch
    below is not reached. *)
Lemma on_message_invalid_json st data :
  JSON_parse B (Frame_toString B data) = None ->
  on_message B st data
  = ([Log "PF >>> Intercepted incoming ws message"], JS.Rejected JS.SyntaxError, st).
Proof.
  intros Hbad. unfold on_message, JSON_parse_value. cbn. rewrite Hbad. reflexivity.
Qed.

End Forwarding.

(** The bridge correlation on the sample bridge: the request for
    transaction 1 goes out and is remembered, its result comes in and
    is reported as PENDING with the returned hash. *)
Example bridge_request_remembered :
  let sent := proxiedSend sample_bridge paired (JSON_text (wc_frame "wallet" tx_request)) in
  sends sent.1.1 = [JSON_text (wc_frame "wallet" tx_request)]
  /\ sent.1.2 = JS.Ok JS.VUndef
  /\ wsMessages sent.2 !! KNum 1 = Some sample_tx.
Proof. vm_compute. repeat split; reflexivity. Qed.

Example bridge_refusal_cancels :
  let in_flight :=
    (proxiedSend sample_bridge paired (JSON_text (wc_frame "wallet" tx_request))).2 in
  logger_calls
    (on_message sample_bridge in_flight (JSON_text (wc_frame "dapp" tx_refusal))).1.1
  = [logSendTransaction sample_tx CANCELLED JS.VNull rainbow_sender].
Proof. vm_compute. reflexivity. Qed.

(** The claim C2 fails on the code: after the result of transaction 1
    has been handled, its entry is still in [wsMessages], and the same
    frame arriving again is reported again. *)
Lemma on_message_entry_survives :
  let in_flight :=
    (proxiedSend sample_bridge paired (JSON_text (wc_frame "wallet" tx_request))).2 in
  let response := JSON_text (wc_frame "dapp" tx_result) in
  let first := on_message sample_bridge in_flight response in
  let second := on_message sample_bridge first.2 response in
  wsMessages in_flight !! KNum 1 = Some sample_tx
  /\ logger_calls first.1.1
     = [logSendTransaction sample_tx PENDING (JS.VStr "0x9f3e") rainbow_sender]
  /\ wsMessages first.2 !! KNum 1 <> None
  /\ logger_calls second.1.1
     = [logSendTransaction sample_tx PENDING (JS.VStr "0x9f3e") rainbow_sender]
  /\ logger_calls second.1.1 <> [].
Proof. vm_compute. repeat split; try reflexivity; discriminate. Qed.

(** C2, amended. When an inbound bridge frame with id X arrives and X
    is in [wsMessages], the entry is read and stays where it is:
    handling an inbound frame leaves the module state, [wsMessages]
    included, as it found it, and sending a frame never drops a key.
    A later inbound frame with the same id is therefore handled exactly
    as the first one was, with the same logger calls. *)
Theorem on_message_reads_without_consuming (B : Bridge) (st : WsState) (data : Frame B) :
  (on_message B st data).2 = st
  /\ on_message B (on_message B st data).2 data = on_message B st data
  /\ forall arguments : Frame B, keeps_keys st (proxiedSend B st arguments).2.
Proof.
  split; [apply on_message_state|]. split.
  - rewrite on_message_state. reflexivity.
  - intros arguments. apply proxiedSend_keeps.
Qed.

(** C4. The claim wants every interception failure logged and dropped.
    The outbound half holds ([proxiedSend_forwards_once],
    [proxiedSend_result]).  The inbound listener has no protective
    boundary: on a frame that is not JSON, [JSON.parse] throws inside
    the async listener, the branch that logs "Could not parse ws
    message" is never reached, and the listener's promise rejects with
    the SyntaxError, unhandled. *)
Theorem on_message_rejects_invalid_json :
  JSON_parse sample_bridge "ping" = None
  /\ on_message sample_bridge paired "ping"
     = ([Log "PF >>> Intercepted incoming ws message"],
        JS.Rejected JS.SyntaxError, paired).
Proof. split; reflexivity. Qed.

(** The same gap on the way out: the wrapped [send] itself is
    protected, but the [then] callback it leaves behind is not, so a
    payload that does not decrypt ends as an unhandled rejection after
    the frame has been forwarded. *)
Example proxiedSend_undecryptable :
  let sent := proxiedSend sample_bridge paired (JSON_text (undecryptable_frame "wallet")) in
  sends sent.1.1 = [JSON_text (undecryptable_frame "wallet")]
  /\ sent.1.2 = JS.Ok JS.VUndef
  /\ unhandled sent.1.1 = [JS.SyntaxError].
Proof. vm_compute. repeat split; reflexivity. Qed.

Example on_message_undecryptable :
  (on_message sample_bridge paired (JSON_text (undecryptable_frame "dapp"))).1.2
  = JS.Rejected JS.SyntaxError.
Proof. vm_compute. reflexivity. Qed.

(** What the [try] does catch: a frame that is not JSON, and a payload
    that is not. *)
Example proxiedSend_not_json :
  (proxiedSend sample_bridge paired "ping").1
  = ([Log "PF >>> Intercepted outgoing ws message";
      Log "PF >>> Error handling websocked connection: ";
      @OriginalSend sample_bridge "ping"%string],
     JS.Ok JS.VUndef).
Proof. vm_compute. reflexivity. Qed.

(** On a socket whose [send] throws, the frame is handed to [send]
    twice before the page sees the error. *)
Example proxiedSend_connecting :
  let sent := proxiedSend connecting_bridge paired (JSON_text (wc_frame "wallet" tx_request)) in
  sends sent.1.1 = [JSON_text (wc_frame "wallet" tx_request);
                    JSON_text (wc_frame "wallet" tx_request)]
  /\ sent.1.2 = JS.Throw (JS.Error "InvalidStateError").
Proof. vm_compute. repeat split; reflexivity. Qed.

(** * Further properties of the code *)

(** ** Hash and dedup record *)

Lemma hash_poly_acc data : forall acc,
  fold_left (fun a chr => 31 * a + chr) data acc
  = acc * 31 ^ Z.of_nat (length data) + hash_poly data.
Proof.
  unfold hash_poly.
  induction data as [|c data IH]; intros acc; [simpl; lia|].
  cbn [fold_left length]. rewrite IH, (IH (31 * 0 + c)).
  rewrite Nat2Z.inj_succ, Z.pow_succ_r by lia. lia.
Qed.

Lemma hash_poly_app a b :
  hash_poly (a ++ b) = hash_poly a * 31 ^ Z.of_nat (length b) + hash_poly b.
Proof. unfold hash_poly at 1. rewrite fold_left_app. apply hash_poly_acc. Qed.

Lemma hashEvent_data_poly data :
  hashEvent_data data = JS.Number_toString (JS.ToInt32 (hash_poly data)).
Proof. rewrite hashEvent_data_fold, hash_fold_poly. reflexivity. Qed.

(** X1. The hash is the base-31 polynomial of the character codes,
    reduced to a signed 32-bit integer once at the end: the truncation
    the loop applies in every round changes nothing, and the hash of a
    concatenation follows from the hashes of its parts. *)
Theorem hashEvent_polynomial (a b : list Z) :
  hashEvent_data (a ++ b)
  = JS.Number_toString
      (JS.ToInt32 (hash_poly a * 31 ^ Z.of_nat (length b) + hash_poly b))
  /\ hashEvent_data a = JS.Number_toString (JS.ToInt32 (hash_poly a)).
Proof.
  split; [|apply hashEvent_data_poly].
  rewrite hashEvent_data_poly, hash_poly_app. reflexivity.
Qed.

Lemma hash_swap_Aa_BB prefix suffix :
  hashEvent_data (prefix ++ units "Aa" ++ suffix)
  = hashEvent_data (prefix ++ units "BB" ++ suffix).
Proof.
  rewrite !hashEvent_data_poly. do 2 f_equal.
  rewrite !hash_poly_app. reflexivity.
Qed.

(** X2. The hash does not tell all events apart: two serialisations that
    differ only in one place, where one has the letters Aa and the
    other BB, always get the same hash.  The second of two such events
    is therefore dropped as a duplicate when it comes within the window
    after the first. *)
Theorem hashEvent_collision_suppresses
    {event : Type} (JSON_stringify : event -> list Z)
    (e1 e2 : event) (prefix suffix : list Z) (now now' : Z) (ls : storage)
    (sent : list event) :
  JSON_stringify e1 = prefix ++ units "Aa" ++ suffix ->
  JSON_stringify e2 = prefix ++ units "BB" ++ suffix ->
  stamped ls -> 0 < now -> now' - now < 1000 ->
  JSON_stringify e1 <> JSON_stringify e2
  /\ hashEvent JSON_stringify e1 = hashEvent JSON_stringify e2
  /\ (submit JSON_stringify e2 now' (submit JSON_stringify e1 now (ls, sent))).2
     = (submit JSON_stringify e1 now (ls, sent)).2.
Proof.
  intros H1 H2 Hls Hnow Hgap.
  assert (Hh : hashEvent JSON_stringify e1 = hashEvent JSON_stringify e2).
  { unfold hashEvent. rewrite H1, H2. apply hash_swap_Aa_BB. }
  split; [|split; [exact Hh|]].
  - rewrite H1, H2. intros E. apply app_inv_head in E. discriminate.
  - rewrite (submit_unfold JSON_stringify e1). cbn [snd].
    rewrite (submit_unfold JSON_stringify e2). cbn [snd].
    assert (Hls' : stamped (checkShouldLogEvent JSON_stringify e1 now ls).2)
      by (apply checkShouldLogEvent_stamped; assumption).
    pose proof (checkShouldLogEvent_verdict JSON_stringify e2 now' _ Hls') as [_ Hv].
    rewrite Hv; [reflexivity|].
    exists now. rewrite checkShouldLogEvent_store, Hh, lookup_insert_eq.
    split; [reflexivity|exact Hgap].
Qed.

Lemma hashEvent_collision_suppresses_witness :
  units "[Aa]" = units "[" ++ units "Aa" ++ units "]"
  /\ units "[BB]" <> units "[Aa]"
  /\ hashEvent units "[Aa]"%string = hashEvent units "[BB]"%string
  /\ (submit units "[BB]"%string 5400 (submit units "[Aa]"%string 5000 (None, []))).2
     = (submit units "[Aa]"%string 5000 (None, [])).2.
Proof.
  split; [reflexivity|].
  destruct (hashEvent_collision_suppresses units "[Aa]"%string "[BB]"%string
              (units "[") (units "]") 5000 5400 None [])
    as (Hne & Hh & Hs); try reflexivity; try lia.
  - exact stamped_empty.
  - split; [intros E; apply Hne; symmetry; exact E|]. split; assumption.
Defined.

Lemma Map_of_entries_last entries k v :
  Map_of_entries (entries ++ [(k, v)]) !! k = Some v.
Proof. rewrite Map_of_entries_snoc. apply lookup_insert_eq. Qed.

(** X3. What [storeMap] writes, [loadMap] reads back as the same map,
    entry for entry; an absent record reads as the empty map; and when a
    stored list names a hash more than once, the last entry counts. *)
Theorem storeMap_loadMap_roundtrip :
  (forall m : gmap string Z, loadMap (storeMap m) = m)
  /\ loadMap None = ∅
  /\ (forall entries k v, loadMap (Some (entries ++ [(k, v)])) !! k = Some v)
  /\ (forall h t ls h', h <> h' ->
        loadMap (storeEvent h t ls) !! h' = loadMap ls !! h').
Proof.
  split; [apply loadMap_storeMap|]. split; [reflexivity|]. split.
  - intros entries k v. apply Map_of_entries_last.
  - intros h t ls h' Hne. rewrite loadMap_storeEvent. apply lookup_insert_ne, Hne.
Qed.

Section Streams.

Context {event : Type} (JSON_stringify : event -> list Z).

Lemma submit_suppressed e now ls sent prev :
  stamped ls -> loadMap ls !! hashEvent JSON_stringify e = Some prev ->
  now - prev < MIN_TIME_DIFF_FOR_EVENT_LOG_MS ->
  submit JSON_stringify e now (ls, sent)
  = ((checkShouldLogEvent JSON_stringify e now ls).2, sent).
Proof.
  intros Hls Hprev Hgap. rewrite submit_unfold.
  pose proof (checkShouldLogEvent_verdict JSON_stringify e now ls Hls) as [_ Hv].
  rewrite Hv; [reflexivity|]. exists prev. split; assumption.
Qed.

Lemma submit_all_close e times : forall last ls sent,
  stamped ls -> 0 < last ->
  loadMap ls !! hashEvent JSON_stringify e = Some last ->
  close_together last times ->
  (submit_all JSON_stringify (map (fun t => (e, t)) times) (ls, sent)).2 = sent.
Proof.
  induction times as [|t times IH]; intros last ls sent Hls Hlast Hstamp Hclose;
    [reflexivity|].
  destruct Hclose as (Ht & Hgap & Hrest).
  unfold submit_all. cbn [map foldl fst snd].
  rewrite (submit_suppressed e t ls sent last Hls Hstamp Hgap).
  apply (IH t).
  - apply checkShouldLogEvent_stamped; assumption.
  - exact Ht.
  - rewrite checkShouldLogEvent_store. apply lookup_insert_eq.
  - exact Hrest.
Qed.

End Streams.

(** X4. Every check restarts the window, logged or not.  So of a run of
    identical events in which each comes less than 1000 ms after the one
    before, only the first is sent, however long the run lasts. *)
Theorem submit_all_restarts_window
    {event : Type} (JSON_stringify : event -> list Z)
    (e : event) (first : Z) (times : list Z) (ls : storage) (sent : list event) :
  stamped ls -> 0 < first ->
  (checkShouldLogEvent JSON_stringify e first ls).1 = true ->
  close_together first times ->
  (submit_all JSON_stringify ((e, first) :: map (fun t => (e, t)) times) (ls, sent)).2
  = sent ++ [e].
Proof.
  intros Hls Hfirst Hlogged Hclose.
  unfold submit_all. cbn [foldl fst snd].
  rewrite submit_unfold, Hlogged.
  apply (submit_all_close JSON_stringify e times first).
  - apply checkShouldLogEvent_stamped; assumption.
  - exact Hfirst.
  - rewrite checkShouldLogEvent_store. apply lookup_insert_eq.
  - exact Hclose.
Qed.

Lemma submit_all_restarts_window_witness :
  stamped None /\ 0 < 5000
  /\ (checkShouldLogEvent units "[1,2]"%string 5000 None).1 = true
  /\ close_together 5000 [5900; 6800; 7700]
  /\ (submit_all units
        (("[1,2]"%string, 5000) :: map (fun t => ("[1,2]"%string, t)) [5900; 6800; 7700])
        (None, [])).2
     = [] ++ ["[1,2]"%string].
Proof.
  assert (Hclose : close_together 5000 [5900; 6800; 7700]).
  { cbn. unfold MIN_TIME_DIFF_FOR_EVENT_LOG_MS. lia. }
  split; [exact stamped_empty|]. split; [lia|]. split; [reflexivity|].
  split; [exact Hclose|].
  apply (submit_all_restarts_window units "[1,2]"%string 5000 [5900; 6800; 7700] None []).
  - exact stamped_empty.
  - lia.
  - reflexivity.
  - exact Hclose.
Defined.

(** ** The finality watcher, all runs *)

Lemma rounds_S ms a n :
  rounds ms a (S n) = GetTransactionReceipt a :: Sleep ms :: rounds ms (S a) n.
Proof. reflexivity. Qed.

Lemma waitMined_loop_shape request s fuel : forall a,
  exists n : nat,
    (n <= fuel)%nat
    /\ ((n = fuel
         /\ waitMined_loop request s fuel a = (rounds (s * 1000) a n, JS.Ok None))
        \/ ((n < fuel)%nat
            /\ (waitMined_loop request s fuel a).1
               = rounds (s * 1000) a n ++ [GetTransactionReceipt (a + n)]
            /\ (waitMined_loop request s fuel a).2 <> JS.Ok None)).
Proof.
  induction fuel as [|fuel IH]; intros a.
  - exists 0%nat. split; [lia|]. left. split; reflexivity.
  - destruct (request a) as [r|e] eqn:Hr.
    + destruct (mined r) eqn:Hm.
      * exists 0%nat. split; [lia|]. right. split; [lia|].
        rewrite (waitMined_loop_mined _ _ _ _ _ Hr Hm). cbn [fst snd].
        rewrite Nat.add_0_r. split; [reflexivity|discriminate].
      * destruct (IH (S a)) as (n & Hn & Hcase).
        exists (S n). split; [lia|].
        rewrite (waitMined_loop_unmined _ _ _ _ _ Hr Hm).
        destruct Hcase as [[-> Hrun]|(Hlt & Htrace & Hres)].
        -- left. split; [reflexivity|]. rewrite Hrun. reflexivity.
        -- right. split; [lia|]. cbn [fst snd]. rewrite Htrace, rounds_S.
           replace (a + S n)%nat with (S a + n)%nat by lia.
           split; [reflexivity|exact Hres].
    + exists 0%nat. split; [lia|]. right. split; [lia|].
      cbn [waitMined_loop]. rewrite Hr. cbn [fst snd]. rewrite Nat.add_0_r.
      split; [reflexivity|discriminate].
Qed.

(** X5. Every run of the watcher has one of two shapes.  Either it
    used up its budget: as many lookup-then-sleep rounds as attempts
    allowed, and null as the result.  Or it stopped earlier at a lookup
    that decided (a mined receipt, or a lookup that failed): the rounds
    before it, that lookup, no sleep after it, and a result that is not
    null.  In particular it never issues more lookups than attempts
    allowed, and with no attempts allowed it returns null at once. *)
Theorem waitMined_runs (request : nat -> JS.result JS.value)
    (retries : option nat) (pollIntervalSeconds : option Z) :
  let budget := default 50%nat retries in
  let ms := default 5 pollIntervalSeconds * 1000 in
  exists n : nat,
    (n <= budget)%nat
    /\ ((n = budget
         /\ waitMined request retries pollIntervalSeconds = (rounds ms 0 n, JS.Ok None))
        \/ ((n < budget)%nat
            /\ (waitMined request retries pollIntervalSeconds).1
               = rounds ms 0 n ++ [GetTransactionReceipt n]
            /\ (waitMined request retries pollIntervalSeconds).2 <> JS.Ok None)).
Proof.
  intros budget ms. unfold waitMined.
  destruct (waitMined_loop_shape request (default 5 pollIntervalSeconds) budget 0)
    as (n & Hn & Hcase).
  exists n. split; [exact Hn|exact Hcase].
Qed.

(** X6. A lookup that fails is not tried again: when the first [n]
    lookups answered without a block number and the next one is
    rejected, the watcher is rejected with the same error right after
    that lookup. *)
Theorem waitMined_lookup_failure (request : nat -> JS.result JS.value)
    (retries : option nat) (pollIntervalSeconds : option Z) (n : nat) (e : JS.exn) :
  (n < default 50%nat retries)%nat ->
  quiet_until request n ->
  request n = JS.Throw e ->
  waitMined request retries pollIntervalSeconds
  = (rounds (default 5 pollIntervalSeconds * 1000) 0 n ++ [GetTransactionReceipt n],
     JS.Throw e).
Proof.
  intros Hn Hq He. unfold waitMined.
  replace (default 50%nat retries) with (n + S (default 50%nat retries - S n))%nat by lia.
  rewrite waitMined_loop_rounds by (intros k Hk; apply Hq, Hk).
  cbn [waitMined_loop]. cbn [Nat.add]. rewrite He. reflexivity.
Qed.

Lemma waitMined_lookup_failure_witness :
  let request := fun k : nat => if (k <? 1)%nat then JS.Ok JS.VNull
                                else JS.Throw (JS.Error "network") in
  waitMined request (Some 3%nat) (Some 2)
  = ([GetTransactionReceipt 0; Sleep 2000; GetTransactionReceipt 1],
     JS.Throw (JS.Error "network")).
Proof.
  intros request.
  apply (waitMined_lookup_failure request (Some 3%nat) (Some 2) 1 (JS.Error "network")).
  - cbn. lia.
  - intros k Hk. exists JS.VNull. destruct k; [split; reflexivity|lia].
  - reflexivity.
Defined.

(** ** The socket wrapper, all frames *)

Section Traces.

Context (B : Bridge).

Lemma logger_calls_app (t1 t2 : list (ws_effect B)) :
  logger_calls (t1 ++ t2) = logger_calls t1 ++ logger_calls t2.
Proof. unfold logger_calls. apply omap_app. Qed.

Lemma logger_calls_then {A C} (t : task B A) (k : A -> task B C) :
  logger_calls t.1 = [] -> (forall a, logger_calls (k a).1 = []) ->
  logger_calls (then_ t k).1 = [].
Proof.
  intros Ht Hk. unfold then_. destruct t as [trace [a|e]]; cbn [fst] in *; [|exact Ht].
  specialize (Hk a). destruct (k a) as [trace' r]. cbn [fst] in *.
  rewrite logger_calls_app, Ht, Hk. reflexivity.
Qed.

(** The calls of a task that makes none before its last step. *)
Lemma logger_calls_then_le {A C} (t : task B A) (k : A -> task B C) :
  logger_calls t.1 = [] -> (forall a, (length (logger_calls (k a).1) <= 1)%nat) ->
  (length (logger_calls (then_ t k).1) <= 1)%nat.
Proof.
  intros Ht Hk. unfold then_. destruct t as [trace [a|e]]; cbn [fst] in *;
    [|rewrite Ht; cbn; lia].
  specialize (Hk a). destruct (k a) as [trace' r]. cbn [fst] in *.
  rewrite logger_calls_app, Ht. exact Hk.
Qed.

End Traces.

Ltac no_call :=
  repeat first
    [ reflexivity
    | apply logger_calls_then; [|intros ?]
    | match goal with
      | |- logger_calls (fst (if ?c then _ else _)) = [] => destruct c
      | |- logger_calls (fst (match ?c with _ => _ end)) = [] => destruct c
      end ].

Ltac one_call :=
  repeat first
    [ solve [cbn; lia]
    | apply logger_calls_then_le; [solve [no_call]|intros ?]
    | match goal with
      | |- (length (logger_calls (fst (if ?c then _ else _))) <= 1)%nat => destruct c
      | |- (length (logger_calls (fst (match ?c with _ => _ end))) <= 1)%nat => destruct c
      end ].

Section Listener.

Context (B : Bridge).

Lemma walletconnect_sender_no_call wc txData :
  logger_calls (walletconnect_sender B wc txData).1 = [].
Proof. unfold walletconnect_sender. no_call. Qed.

Lemma coinbase_sender_no_call txData :
  logger_calls (coinbase_sender B txData).1 = [].
Proof. unfold coinbase_sender. no_call. Qed.

Lemma on_walletconnect_response_one st wc decrypted :
  (length (logger_calls (on_walletconnect_response B st wc decrypted).1) <= 1)%nat.
Proof.
  unfold on_walletconnect_response.
  apply logger_calls_then_le; [reflexivity|intros id].
  destruct (_ && _); [|cbn; lia].
  apply logger_calls_then_le; [reflexivity|intros _].
  apply logger_calls_then_le; [reflexivity|intros _].
  apply logger_calls_then_le; [reflexivity|intros error].
  destruct (JS.truthy error).
  - apply logger_calls_then_le; [reflexivity|intros _].
    apply logger_calls_then_le; [reflexivity|intros message].
    apply logger_calls_then_le; [reflexivity|intros rejected].
    destruct rejected; [|cbn; lia].
    apply logger_calls_then_le; [reflexivity|intros _].
    apply logger_calls_then_le; [apply walletconnect_sender_no_call|intros w].
    cbn. lia.
  - apply logger_calls_then_le; [reflexivity|intros hash].
    apply logger_calls_then_le; [reflexivity|intros _].
    apply logger_calls_then_le; [apply walletconnect_sender_no_call|intros w].
    cbn. lia.
Qed.

Lemma on_coinbase_response_one st decryptedString :
  (length (logger_calls (on_coinbase_response B st decryptedString).1) <= 1)%nat.
Proof.
  unfold on_coinbase_response.
  apply logger_calls_then_le; [reflexivity|intros decrypted].
  apply logger_calls_then_le; [reflexivity|intros _].
  apply logger_calls_then_le; [reflexivity|intros id].
  destruct (_ && _); [|cbn; lia].
  apply logger_calls_then_le; [reflexivity|intros _].
  apply logger_calls_then_le; [reflexivity|intros _].
  apply logger_calls_then_le; [reflexivity|intros response].
  apply logger_calls_then_le; [reflexivity|intros errorMessage].
  destruct (JS.truthy errorMessage).
  - apply logger_calls_then_le; [reflexivity|intros _].
    apply logger_calls_then_le; [reflexivity|intros rejected].
    destruct rejected; [|cbn; lia].
    apply logger_calls_then_le; [reflexivity|intros _].
    apply logger_calls_then_le; [apply coinbase_sender_no_call|intros w].
    cbn. lia.
  - apply logger_calls_then_le; [reflexivity|intros hash].
    apply logger_calls_then_le; [reflexivity|intros _].
    apply logger_calls_then_le; [apply coinbase_sender_no_call|intros w].
    cbn. lia.
Qed.

Lemma Map_has_empty id : Map_has ∅ id = false.
Proof.
  unfold Map_has. destruct (to_key id) as [k|]; [|reflexivity].
  rewrite lookup_empty. apply bool_decide_eq_false. intros [x Hx]. discriminate.
Qed.

Lemma on_walletconnect_response_unknown st wc decrypted :
  wsMessages st = ∅ ->
  logger_calls (on_walletconnect_response B st wc decrypted).1 = [].
Proof.
  intros Hempty. unfold on_walletconnect_response. rewrite Hempty.
  apply logger_calls_then; [reflexivity|intros id].
  rewrite Map_has_empty, andb_false_r. reflexivity.
Qed.

Lemma on_coinbase_response_unknown st decryptedString :
  wsMessages st = ∅ ->
  logger_calls (on_coinbase_response B st decryptedString).1 = [].
Proof.
  intros Hempty. unfold on_coinbase_response. rewrite Hempty.
  apply logger_calls_then; [reflexivity|intros decrypted].
  apply logger_calls_then; [reflexivity|intros _].
  apply logger_calls_then; [reflexivity|intros id].
  rewrite Map_has_empty, andb_false_r. reflexivity.
Qed.

Lemma on_message_start_no_call data trace r :
  then_ (pfLog (B:=B) "PF >>> Intercepted incoming ws message")
    (fun _ => lift (JSON_parse_value B (JS.VStr (Frame_toString B data))))
  = (trace, r) ->
  logger_calls trace = []
  /\ logger_calls (trace ++ [Log "PF >>> Parsed ws message to object: "]) = []
  /\ logger_calls ((trace ++ [Log "PF >>> Parsed ws message to object: "])
                   ++ [Log "PF >>> Message is a coinbase message"]) = [].
Proof.
  intros E.
  assert (H : logger_calls (then_ (pfLog (B:=B) "PF >>> Intercepted incoming ws message")
                (fun _ => lift (JSON_parse_value B (JS.VStr (Frame_toString B data))))).1 = [])
    by no_call.
  rewrite E in H. cbn [fst] in H.
  rewrite !logger_calls_app, H. repeat split; reflexivity.
Qed.

Lemma on_message_one_call st data :
  (length (logger_calls (on_message B st data).1.1) <= 1)%nat.
Proof.
  unfold on_message. cbv zeta.
  destruct (then_ _ _) as [trace [messageObj|e]] eqn:Estart;
    destruct (on_message_start_no_call _ _ _ Estart) as (H1 & H2 & H3);
    [|cbn [fst]; rewrite H1; cbn; lia].
  destruct (negb _).
  { cbn [fst]. apply logger_calls_then_le; [exact H1|intros _; cbn; lia]. }
  destruct (_ && _).
  - destruct (wcObject st) as [wc|]; cbn [fst].
    + apply logger_calls_then_le; [exact H2|intros _].
      apply logger_calls_then_le; [reflexivity|intros _].
      apply logger_calls_then_le; [reflexivity|intros payload].
      destruct (negb _); [cbn; lia|].
      apply logger_calls_then_le; [reflexivity|intros _].
      apply logger_calls_then_le; [reflexivity|intros decrypted].
      apply on_walletconnect_response_one.
    + apply logger_calls_then_le; [exact H2|intros _; cbn; lia].
  - destruct (_ && _).
    + destruct (cbObject st) as [cb|]; cbn [fst].
      * destruct (aes256gcmDecrypt_value B _ _) as [[decryptedString|e|]|e]; cbn [fst];
          try (rewrite H3; cbn; lia).
        apply logger_calls_then_le; [exact H3|intros _].
        apply on_coinbase_response_one.
      * apply logger_calls_then_le; [exact H3|intros _; cbn; lia].
    + cbn [fst]. apply logger_calls_then_le; [exact H2|intros _; cbn; lia].
Qed.

Lemma on_message_unknown st data :
  wsMessages st = ∅ -> logger_calls (on_message B st data).1.1 = [].
Proof.
  intros Hempty. unfold on_message. cbv zeta.
  destruct (then_ _ _) as [trace [messageObj|e]] eqn:Estart;
    destruct (on_message_start_no_call _ _ _ Estart) as (H1 & H2 & H3);
    [|exact H1].
  destruct (negb _).
  { cbn [fst]. apply logger_calls_then; [exact H1|reflexivity]. }
  destruct (_ && _).
  - destruct (wcObject st) as [wc|]; cbn [fst].
    + apply logger_calls_then; [exact H2|intros _].
      apply logger_calls_then; [reflexivity|intros _].
      apply logger_calls_then; [reflexivity|intros payload].
      destruct (negb _); [reflexivity|].
      apply logger_calls_then; [reflexivity|intros _].
      apply logger_calls_then; [reflexivity|intros decrypted].
      apply on_walletconnect_response_unknown, Hempty.
    + apply logger_calls_then; [exact H2|reflexivity].
  - destruct (_ && _).
    + destruct (cbObject st) as [cb|]; cbn [fst].
      * destruct (aes256gcmDecrypt_value B _ _) as [[decryptedString|e|]|e]; cbn [fst];
          try exact H3.
        apply logger_calls_then; [exact H3|intros _].
        apply on_coinbase_response_unknown, Hempty.
      * apply logger_calls_then; [exact H3|reflexivity].
    + cbn [fst]. apply logger_calls_then; [exact H2|reflexivity].
Qed.

Lemma on_message_no_send st data : sends (on_message B st data).1.1 = [].
Proof.
  assert (Hw : forall wc txData, sends (walletconnect_sender B wc txData).1 = [])
    by (intros; unfold walletconnect_sender; no_send).
  assert (Hc : forall txData, sends (coinbase_sender B txData).1 = [])
    by (intros; unfold coinbase_sender; no_send).
  assert (Hstart : sends (then_ (pfLog (B:=B) "PF >>> Intercepted incoming ws message")
                (fun _ => lift (JSON_parse_value B (JS.VStr (Frame_toString B data))))).1 = [])
    by no_send.
  unfold on_message. cbv zeta.
  destruct (then_ _ _) as [trace [messageObj|e]]; cbn [fst] in Hstart; [|exact Hstart].
  assert (H2 : sends (trace ++ [Log "PF >>> Parsed ws message to object: "]) = [])
    by (rewrite sends_app, Hstart; reflexivity).
  assert (H3 : sends ((trace ++ [Log "PF >>> Parsed ws message to object: "])
                      ++ [Log "PF >>> Message is a coinbase message"]) = [])
    by (rewrite sends_app, H2; reflexivity).
  destruct (negb _).
  { cbn [fst]. apply sends_then; [exact Hstart|reflexivity]. }
  destruct (_ && _).
  - destruct (wcObject st) as [wc|]; cbn [fst].
    + apply sends_then; [exact H2|intros _].
      unfold on_walletconnect_response.
      repeat first
        [ reflexivity | apply Hw
        | apply sends_then; [|intros ?]
        | match goal with
          | |- sends (fst (if ?c then _ else _)) = [] => destruct c
          end ].
    + apply sends_then; [exact H2|reflexivity].
  - destruct (_ && _).
    + destruct (cbObject st) as [cb|]; cbn [fst].
      * destruct (aes256gcmDecrypt_value B _ _) as [[decryptedString|e|]|e]; cbn [fst];
          try exact H3.
        apply sends_then; [exact H3|intros _].
        unfold on_coinbase_response.
        repeat first
          [ reflexivity | apply Hc
          | apply sends_then; [|intros ?]
          | match goal with
            | |- sends (fst (if ?c then _ else _)) = [] => destruct c
            end ].
      * apply sends_then; [exact H3|reflexivity].
    + cbn [fst]. apply sends_then; [exact H2|reflexivity].
Qed.

End Listener.


Section Outbound.

Context (B : Bridge).

Lemma inspect_outgoing_no_call st arguments :
  logger_calls (inspect_outgoing B st arguments).1 = [].
Proof. unfold inspect_outgoing. no_call. Qed.

Lemma run_jobs_no_call st j : logger_calls (run_jobs B st j).1 = [].
Proof.
  destruct j as [[payload wc|[decryptedString|e|]]|]; cbn [run_jobs run_job];
    try reflexivity.
  - match goal with
    | |- context [then_ ?t ?k] =>
        assert (Hq : logger_calls (then_ t k).1 = []);
        [|destruct (then_ t k) as [trace [st'|e]]]
    end.
    + unfold on_walletconnect_request. no_call.
    + exact Hq.
    + cbn [fst] in *. rewrite logger_calls_app, Hq. reflexivity.
  - assert (Hq : logger_calls (on_coinbase_request B st decryptedString).1 = []).
    { unfold on_coinbase_request. no_call. }
    destruct (on_coinbase_request B st decryptedString) as [trace [st'|e]]; cbn [fst] in *.
    + exact Hq.
    + rewrite logger_calls_app, Hq. reflexivity.
Qed.

Lemma proxiedSend_no_call st arguments :
  logger_calls (proxiedSend B st arguments).1.1 = [].
Proof.
  unfold proxiedSend.
  pose proof (inspect_outgoing_no_call st arguments) as Hi.
  destruct (inspect_outgoing B st arguments) as [trace [j|e]]; cbn [fst] in Hi.
  - pose proof (run_jobs_no_call st j) as Hj.
    destruct (run_jobs B st j) as [later st']. cbn [fst] in Hj.
    destruct (originalSend B arguments); cbn [fst then_ pfLog];
      unfold logger_calls in *; rewrite !omap_app, Hi; cbn; rewrite Hj; reflexivity.
  - cbn [fst then_ pfLog]. unfold logger_calls in *. rewrite !omap_app, Hi. reflexivity.
Qed.

Lemma proxiedSend_sends st arguments :
  sends (proxiedSend B st arguments).1.1 = [arguments]
  \/ sends (proxiedSend B st arguments).1.1 = [arguments; arguments].
Proof.
  destruct (originalSend B arguments) as [v|e] eqn:Hsend.
  - left. exact (proj1 (proxiedSend_forwards_once B st arguments v Hsend)).
  - destruct (inspect_outgoing B st arguments) as [trace [j|e']] eqn:Hin.
    + right. apply (proxiedSend_second_call B st arguments j e); [rewrite Hin|]; auto.
    + left. unfold proxiedSend. rewrite Hin.
      pose proof (inspect_outgoing_no_send B st arguments) as Hi. rewrite Hin in Hi.
      cbn [fst] in *. cbn [fst then_ pfLog]. unfold sends in *.
      rewrite !omap_app, Hi. reflexivity.
Qed.

Lemma remembers_one_refl st : remembers_one st st.
Proof. repeat split. left. reflexivity. Qed.

Lemma remembers_one_set st id v :
  remembers_one st {| wcObject := wcObject st; cbObject := cbObject st;
                      wsMessages := Map_set (wsMessages st) id v |}.
Proof.
  repeat split. cbn [wsMessages]. unfold Map_set.
  destruct (to_key id) as [k|]; [right; eauto|left; reflexivity].
Qed.

Lemma on_walletconnect_request_one st decrypted st' :
  (on_walletconnect_request B st decrypted).2 = JS.Ok st' -> remembers_one st st'.
Proof.
  unfold on_walletconnect_request. intros H.
  apply then_Ok in H as (id & _ & H). apply then_Ok in H as (method & _ & H).
  destruct (_ && _).
  - apply then_Ok in H as (_ & _ & H). apply then_Ok in H as (all_params & _ & H).
    apply then_Ok in H as (params & _ & H). apply then_Ok in H as (_ & _ & H).
    cbn in H. injection H as <-. apply remembers_one_set.
  - apply then_Ok in H as (_ & _ & H). cbn in H. injection H as <-.
    apply remembers_one_refl.
Qed.

Lemma on_coinbase_request_one st decryptedString st' :
  (on_coinbase_request B st decryptedString).2 = JS.Ok st' -> remembers_one st st'.
Proof.
  unfold on_coinbase_request. intros H.
  apply then_Ok in H as (decrypted & _ & H). apply then_Ok in H as (id & _ & H).
  apply then_Ok in H as (kind & _ & H). apply then_Ok in H as (st1 & H1 & H).
  apply then_Ok in H as (_ & _ & H). cbn in H. injection H as <-.
  destruct (JS.truthy id && _).
  - apply then_Ok in H1 as (_ & _ & H1). apply then_Ok in H1 as (requestObj & _ & H1).
    destruct (JS.truthy requestObj && _).
    + apply then_Ok in H1 as (_ & _ & H1). apply then_Ok in H1 as (params & _ & H1).
      apply then_Ok in H1 as (shouldSubmit & _ & H1). apply then_Ok in H1 as (_ & _ & H1).
      destruct (JS.truthy shouldSubmit).
      * apply then_Ok in H1 as (_ & _ & H1).
        do 5 (apply then_Ok in H1 as (? & _ & H1)).
        cbn in H1. injection H1 as <-. apply remembers_one_set.
      * cbn in H1. injection H1 as <-. apply remembers_one_refl.
    + cbn in H1. injection H1 as <-. apply remembers_one_refl.
  - apply then_Ok in H1 as (_ & _ & H1). cbn in H1. injection H1 as <-.
    apply remembers_one_refl.
Qed.

Lemma run_jobs_one st j : remembers_one st (run_jobs B st j).2.
Proof.
  destruct j as [[payload wc|[decryptedString|e|]]|]; cbn [run_jobs run_job];
    try apply remembers_one_refl.
  - match goal with |- context [then_ ?t ?k] => destruct (then_ t k) as [trace [st'|e]] eqn:E end;
      cbn [snd]; [|apply remembers_one_refl].
    assert (H : (then_ (lift (decrypt B payload wc))
                   (fun decrypted => on_walletconnect_request B st decrypted)).2 = JS.Ok st')
      by (rewrite E; reflexivity).
    apply then_Ok in H as (decrypted & _ & H).
    exact (on_walletconnect_request_one _ _ _ H).
  - destruct (on_coinbase_request B st decryptedString) as [trace [st'|e]] eqn:E;
      cbn [snd]; [|apply remembers_one_refl].
    apply (on_coinbase_request_one st decryptedString). rewrite E. reflexivity.
Qed.

Lemma proxiedSend_one st arguments : remembers_one st (proxiedSend B st arguments).2.
Proof.
  unfold proxiedSend.
  destruct (inspect_outgoing B st arguments) as [trace [j|e]].
  - pose proof (run_jobs_one st j) as Hj.
    destruct (run_jobs B st j) as [later st']. cbn [snd] in Hj.
    destruct (originalSend B arguments); cbn; exact Hj.
  - destruct (originalSend B arguments); cbn; apply remembers_one_refl.
Qed.

End Outbound.

(** X7. The wrapped [send] is transparent to the page: it returns or
    throws exactly what the native [send] returns or throws for the same
    frame, hands the native [send] nothing but the page's own frame, once
    when the native [send] succeeds and at most twice otherwise, and
    never calls a logger itself. *)
Theorem proxiedSend_transparent (B : Bridge) (st : WsState) (arguments : Frame B) :
  (proxiedSend B st arguments).1.2 = originalSend B arguments
  /\ (sends (proxiedSend B st arguments).1.1 = [arguments]
      \/ sends (proxiedSend B st arguments).1.1 = [arguments; arguments])
  /\ (forall v, originalSend B arguments = JS.Ok v ->
        sends (proxiedSend B st arguments).1.1 = [arguments])
  /\ logger_calls (proxiedSend B st arguments).1.1 = [].
Proof.
  split; [apply proxiedSend_result|]. split; [apply proxiedSend_sends|]. split.
  - intros v Hv. exact (proj1 (proxiedSend_forwards_once B st arguments v Hv)).
  - apply proxiedSend_no_call.
Qed.

(** X8. One inbound frame leads to at most one call of
    [logSendTransaction], and to none while no request is remembered in
    [wsMessages]; the listener never sends anything on the socket. *)
Theorem on_message_reports_remembered (B : Bridge) (st : WsState) (data : Frame B) :
  (length (logger_calls (on_message B st data).1.1) <= 1)%nat
  /\ (wsMessages st = ∅ -> logger_calls (on_message B st data).1.1 = [])
  /\ sends (on_message B st data).1.1 = [].
Proof.
  split; [apply on_message_one_call|].
  split; [apply on_message_unknown|apply on_message_no_send].
Qed.

(** X9. An outbound frame changes the module state by at most one
    remembered request: the two sessions stay as they were, and
    [wsMessages] is either unchanged or has one key set. *)
Theorem proxiedSend_remembers_one (B : Bridge) (st : WsState) (arguments : Frame B) :
  wcObject (proxiedSend B st arguments).2 = wcObject st
  /\ cbObject (proxiedSend B st arguments).2 = cbObject st
  /\ (wsMessages (proxiedSend B st arguments).2 = wsMessages st
      \/ exists k v,
           wsMessages (proxiedSend B st arguments).2 = <[k := v]> (wsMessages st)).
Proof. apply proxiedSend_one. Qed.

(** ** The request wrapper, in general *)

Lemma request_try_shape underlying window_CIPHER p method params args :
  (length (request_try underlying window_CIPHER p method params args).1 <= 1)%nat
  /\ (forall v, (request_try underlying window_CIPHER p method params args).2 = JS.Ok v ->
        underlying args = JS.Ok v)
  /\ (forall e, (request_try underlying window_CIPHER p method params args).2 = JS.Throw e ->
        (request_try underlying window_CIPHER p method params args).1 = []).
Proof.
  unfold request_try.
  destruct (underlying args) as [result|e0]; [|cbn; repeat split; [lia|discriminate]].
  destruct (JS.strict_eq method (JS.VStr "eth_requestAccounts")).
  - destruct (JS.bind _ _) as [w|e1]; cbn; repeat split; try lia; congruence.
  - destruct (JS.strict_eq method (JS.VStr "eth_sendTransaction")).
    + destruct (JS.bind _ _) as [[tx w]|e1]; cbn; repeat split; try lia; congruence.
    + cbn; repeat split; try lia; congruence.
Qed.

Lemma request_catch_shape window_CIPHER p params err :
  (length (request_catch window_CIPHER p params err).1 <= 1)%nat
  /\ (forall v, (request_catch window_CIPHER p params err).2 = JS.Ok v -> v = JS.VUndef).
Proof.
  unfold request_catch.
  destruct (exn_code err) as [code|e1]; [|cbn; split; [lia|discriminate]].
  destruct (JS.truthy code && JS.loose_eq_num code 4001).
  - destruct (JS.bind _ _) as [[tx w]|e2]; cbn; split; try lia; congruence.
  - cbn; split; [lia|congruence].
Qed.

(** X10. Whatever the wallet does and whatever the page passes, a call
    through the wrapped [request] makes at most one logger call, rejects
    only with a TypeError raised by the wrapper's own code (never with
    what the wallet threw), and resolves either with the very value the
    wallet returned or with [undefined]. *)
Theorem request_wrapper_outcomes (underlying : list JS.value -> JS.result JS.value)
    (window_CIPHER : bool) (fetchedProvider : InjectedProvider) (args : list JS.value) :
  (length (request_wrapper underlying window_CIPHER fetchedProvider args).1 <= 1)%nat
  /\ (forall e, (request_wrapper underlying window_CIPHER fetchedProvider args).2 = JS.Throw e ->
        e = JS.TypeError)
  /\ (forall v, (request_wrapper underlying window_CIPHER fetchedProvider args).2 = JS.Ok v ->
        underlying args = JS.Ok v \/ v = JS.VUndef).
Proof.
  unfold request_wrapper.
  destruct (if JS.is_string (nth 0 args JS.VUndef) then _ else _) as [method|e1] eqn:E1.
  2:{ cbn. repeat split; [lia| |discriminate]. intros e [= <-].
      destruct (JS.is_string _); [discriminate|exact (get_prop_throws _ _ _ E1)]. }
  destruct (if JS.is_string (nth 0 args JS.VUndef) then JS.Ok (nth 1 args JS.VUndef) else _)
    as [params|e2] eqn:E2.
  2:{ cbn. repeat split; [lia| |discriminate]. intros e [= <-].
      destruct (JS.is_string _); [discriminate|exact (get_prop_throws _ _ _ E2)]. }
  pose proof (request_try_shape underlying window_CIPHER fetchedProvider method params args)
    as (Hlen & Hok & Hthrow).
  destruct (request_try _ _ _ _ _ _) as [calls [result|err]]; cbn [fst snd] in *.
  - repeat split; [exact Hlen|discriminate|]. intros v [= <-]. left. apply Hok. reflexivity.
  - rewrite (Hthrow err eq_refl).
    pose proof (request_catch_shape window_CIPHER fetchedProvider params err) as (Hlen' & Hok').
    pose proof (request_catch_throws window_CIPHER fetchedProvider params err) as Hthrow'.
    destruct (request_catch _ _ _ _) as [calls' r]; cbn [fst snd app] in *.
    repeat split; [exact Hlen'|exact Hthrow'|]. intros v Hv. right. exact (Hok' v Hv).
Qed.

Lemma names_method_reads args :
  names_method args ->
  (if JS.is_string (nth 0 args JS.VUndef) then JS.Ok (nth 0 args JS.VUndef)
   else JS.get_prop (nth 0 args JS.VUndef) "method") = JS.Ok (method_of args)
  /\ exists params,
       (if JS.is_string (nth 0 args JS.VUndef) then JS.Ok (nth 1 args JS.VUndef)
        else JS.get_prop (nth 0 args JS.VUndef) "params") = JS.Ok params.
Proof.
  unfold names_method, method_of.
  destruct (nth 0 args JS.VUndef); try contradiction; cbn; eauto.
Qed.

(** X11. For every method other than [eth_requestAccounts] and
    [eth_sendTransaction], a call that the wallet answers goes through
    the wrapper untouched: the page gets the wallet's value and no
    logger is called. *)
Theorem request_wrapper_other_methods (underlying : list JS.value -> JS.result JS.value)
    (window_CIPHER : bool) (fetchedProvider : InjectedProvider)
    (args : list JS.value) (result : JS.value) :
  names_method args ->
  JS.strict_eq (method_of args) (JS.VStr "eth_requestAccounts") = false ->
  JS.strict_eq (method_of args) (JS.VStr "eth_sendTransaction") = false ->
  underlying args = JS.Ok result ->
  request_wrapper underlying window_CIPHER fetchedProvider args = ([], JS.Ok result).
Proof.
  intros Hargs Hconnect Hsend Hcall.
  destruct (names_method_reads args Hargs) as (Hm & params & Hp).
  unfold request_wrapper. rewrite Hm, Hp.
  unfold request_try. rewrite Hcall, Hconnect, Hsend. reflexivity.
Qed.

Lemma request_wrapper_other_methods_witness :
  request_wrapper (fun _ => JS.Ok (JS.VStr "0x1")) false metamask_wallet
    [JS.VStr "eth_chainId"]
  = ([], JS.Ok (JS.VStr "0x1")).
Proof.
  apply (request_wrapper_other_methods (fun _ => JS.Ok (JS.VStr "0x1")) false
           metamask_wallet [JS.VStr "eth_chainId"] (JS.VStr "0x1"));
    [exact I|reflexivity|reflexivity|reflexivity].
Defined.

(** X12. A connection request the wallet grants is reported with the
    first account in lower case, and the page gets the wallet's answer.
    When the answer has no string in first place (an empty list, for
    one), the failure of the report is caught like a wallet error: the
    page is handed [undefined] instead of the answer and nothing is
    reported. *)
Theorem request_wrapper_accounts (underlying : list JS.value -> JS.result JS.value)
    (window_CIPHER : bool) (fetchedProvider : InjectedProvider)
    (args : list JS.value) (result : JS.value) :
  names_method args ->
  method_of args = JS.VStr "eth_requestAccounts" ->
  underlying args = JS.Ok result ->
  (forall s name,
     JS.get_index0 result = JS.Ok (JS.VStr s) ->
     getProviderNameForMetamask window_CIPHER fetchedProvider = JS.Ok name ->
     request_wrapper underlying window_CIPHER fetchedProvider args
     = ([logWalletConnect {| type := type_injected; provider := window_ethereum;
                             wallet := JS.lower s;
                             walletProvider := ProviderName_label name |}],
        JS.Ok result))
  /\ ((forall s, JS.get_index0 result <> JS.Ok (JS.VStr s)) ->
      request_wrapper underlying window_CIPHER fetchedProvider args = ([], JS.Ok JS.VUndef)).
Proof.
  intros Hargs Hmethod Hcall.
  destruct (names_method_reads args Hargs) as (Hm & params & Hp).
  unfold request_wrapper. rewrite Hm, Hp, Hmethod.
  unfold request_try. rewrite Hcall. cbn [JS.strict_eq]. rewrite String.eqb_refl.
  split.
  - intros s name Hfirst Hname. rewrite Hfirst. cbn [JS.bind JS.toLowerCase].
    rewrite Hname. reflexivity.
  - intros Hnone.
    destruct (JS.get_index0 result) as [first|e] eqn:Efirst; cbn [JS.bind].
    + destruct first; try (exfalso; exact (Hnone _ eq_refl)); reflexivity.
    + rewrite (get_index0_throws _ _ Efirst). reflexivity.
Qed.

Lemma request_wrapper_accounts_witness :
  request_wrapper (fun _ => JS.Ok (JS.VArr [])) false metamask_wallet request_accounts_call
  = ([], JS.Ok JS.VUndef).
Proof.
  apply (request_wrapper_accounts (fun _ => JS.Ok (JS.VArr [])) false metamask_wallet
           request_accounts_call (JS.VArr []));
    [exact I|reflexivity|reflexivity|].
  intros s. discriminate.
Defined.

(** X13. The two ways of calling [request], with the method as a string
    followed by the parameters or with one object holding both, are
    treated alike: if the wallet behaves the same on both, so does the
    wrapper. *)
Theorem request_wrapper_conventions (u1 u2 : list JS.value -> JS.result JS.value)
    (window_CIPHER : bool) (fetchedProvider : InjectedProvider)
    (m : string) (params : JS.value) (fields : list (string * JS.value)) :
  JS.assoc "method" fields = JS.VStr m ->
  JS.assoc "params" fields = params ->
  u1 [JS.VStr m; params] = u2 [JS.VObj fields] ->
  request_wrapper u1 window_CIPHER fetchedProvider [JS.VStr m; params]
  = request_wrapper u2 window_CIPHER fetchedProvider [JS.VObj fields].
Proof.
  intros Hm Hp Hsame. unfold request_wrapper. cbn [nth JS.is_string JS.get_prop].
  rewrite Hm, Hp. unfold request_try. rewrite Hsame. reflexivity.
Qed.

Lemma request_wrapper_conventions_witness :
  request_wrapper (fun _ => JS.Ok (JS.VStr "0x9f3e")) false metamask_wallet
    [JS.VStr "eth_sendTransaction"; JS.VArr [sample_tx]]
  = request_wrapper (fun _ => JS.Ok (JS.VStr "0x9f3e")) false metamask_wallet
      send_transaction_call.
Proof.
  apply (request_wrapper_conventions (fun _ => JS.Ok (JS.VStr "0x9f3e"))
           (fun _ => JS.Ok (JS.VStr "0x9f3e")) false metamask_wallet
           "eth_sendTransaction" (JS.VArr [sample_tx])
           [("method", JS.VStr "eth_sendTransaction"); ("params", JS.VArr [sample_tx])]);
    reflexivity.
Defined.

(** X14. The [accountsChanged] listener reports the first account, in
    lower case, and ignores the others.  When the wallet announces an
    empty list, as it does on locking or disconnecting, the listener
    throws a TypeError and reports nothing; it never throws after having
    reported. *)
Theorem accountsChangedListener_outcomes (window_CIPHER : bool)
    (fetchedProvider : InjectedProvider) (accounts : JS.value) :
  (forall s rest name,
     accounts = JS.VArr (JS.VStr s :: rest) ->
     getProviderNameForMetamask window_CIPHER fetchedProvider = JS.Ok name ->
     accountsChangedListener window_CIPHER fetchedProvider accounts
     = ([logWalletConnect {| type := type_injected; provider := window_ethereum;
                             wallet := JS.lower s;
                             walletProvider := ProviderName_label name |}],
        JS.Ok tt))
  /\ (accounts = JS.VArr [] ->
      accountsChangedListener window_CIPHER fetchedProvider accounts
      = ([], JS.Throw JS.TypeError))
  /\ (forall e,
        (accountsChangedListener window_CIPHER fetchedProvider accounts).2 = JS.Throw e ->
        (accountsChangedListener window_CIPHER fetchedProvider accounts).1 = []
        /\ e = JS.TypeError).
Proof.
  unfold accountsChangedListener. split; [|split].
  - intros s rest name -> Hname. cbn. rewrite Hname. reflexivity.
  - intros ->. reflexivity.
  - intros e.
    destruct (JS.get_index0 accounts) as [first|e1] eqn:E1; cbn [JS.bind];
      [|intros [= <-]; split; [reflexivity|exact (get_index0_throws _ _ E1)]].
    destruct (JS.toLowerCase first) as [w|e2] eqn:E2; cbn [JS.bind];
      [|intros [= <-]; split; [reflexivity|exact (toLowerCase_throws _ _ E2)]].
    destruct (getProviderNameForMetamask window_CIPHER fetchedProvider) as [n|e3] eqn:E3;
      cbn [JS.bind snd]; [discriminate|].
    intros [= <-]. split; [reflexivity|exact (getProviderNameForMetamask_throws _ _ _ E3)].
Qed.

(** ** The hexadecimal decoder on arbitrary text *)

Lemma ToUint8_byte n : is_byte (ToUint8 n).
Proof. unfold is_byte, ToUint8. destruct n as [z|]; [apply Z.mod_pos_bound|]; lia. Qed.

Lemma match_pairs_terminator c s :
  is_line_terminator c = true -> match_pairs (String c s) = match_pairs s.
Proof. intros H. cbn [match_pairs]. rewrite H. reflexivity. Qed.

Lemma match_pairs_nil s : match_pairs s = [] <-> only_line_terminators s = true.
Proof.
  induction s as [|a s IH]; [split; reflexivity|].
  cbn [match_pairs only_line_terminators].
  destruct (is_line_terminator a); [exact IH|].
  cbn [andb]. split; [|discriminate].
  destruct s as [|b s]; [discriminate|]. destruct (is_line_terminator b); discriminate.
Qed.

Lemma match_pairs_length s : (length (match_pairs s) <= String.length s)%nat.
Proof.
  assert (Hboth : forall s,
             (length (match_pairs s) <= String.length s)%nat
             /\ (forall c, (length (match_pairs (String c s)) <= S (String.length s))%nat)).
  { clear s. induction s as [|b s [IH1 IH2]].
    - split; [cbn; lia|]. intros c. cbn [match_pairs].
      destruct (is_line_terminator c); cbn; lia.
    - split; [apply IH2|]. intros c.
      destruct (is_line_terminator c) eqn:Ec.
      + rewrite (match_pairs_terminator c _ Ec). specialize (IH2 b).
        cbn [String.length]. lia.
      + destruct (is_line_terminator b) eqn:Eb.
        * replace (match_pairs (String c (String b s)))
            with (String c EmptyString :: match_pairs (String b s))
            by (cbn [match_pairs]; rewrite Ec, Eb; reflexivity).
          specialize (IH2 b). cbn [length String.length]. lia.
        * replace (match_pairs (String c (String b s)))
            with (String c (String b EmptyString) :: match_pairs s)
            by (cbn [match_pairs]; rewrite Ec, Eb; reflexivity).
          cbn [length String.length]. lia. }
  apply Hboth.
Qed.

(** X15. The decoder accepts any text: it fails, with a TypeError, only
    on text made of line terminators alone (the empty text included);
    on everything else it returns a non-empty sequence of bytes, never
    longer than the text, with characters that are no hexadecimal digits
    read as a byte all the same. *)
Theorem hexStringToUint8Array_total (hexString : string) :
  (only_line_terminators hexString = true
   /\ hexStringToUint8Array hexString = JS.Throw JS.TypeError)
  \/ (only_line_terminators hexString = false
      /\ exists bytes,
           hexStringToUint8Array hexString = JS.Ok bytes
           /\ bytes <> []
           /\ Forall is_byte bytes
           /\ (length bytes <= String.length hexString)%nat).
Proof.
  unfold hexStringToUint8Array.
  pose proof (match_pairs_nil hexString) as Hnil.
  pose proof (match_pairs_length hexString) as Hlen.
  destruct (match_pairs hexString) as [|pair pairs].
  - left. split; [apply Hnil|]; reflexivity.
  - right. split.
    + destruct (only_line_terminators hexString); [|reflexivity].
      destruct Hnil as [_ Hnil]. discriminate (Hnil eq_refl).
    + eexists. split; [reflexivity|]. split; [discriminate|]. split.
      * change (Forall is_byte (map (fun byte => ToUint8 (parseInt16 byte)) (pair :: pairs))).
        apply Forall_map, Forall_forall. intros p _. apply ToUint8_byte.
      * rewrite length_map. exact Hlen.
Qed.

Lemma hex_of_bytes_length bytes :
  String.length (hex_of_bytes bytes) = (2 * length bytes)%nat.
Proof. induction bytes as [|b bytes IH]; [reflexivity|]. cbn [hex_of_bytes String.length length]. lia. Qed.

Lemma hex_char_digit d : 0 <= d < 16 -> hex_digit (hex_char d) = Some d.
Proof.
  intros Hd.
  assert (Hall : forallb (fun n => bool_decide (hex_digit (hex_char (Z.of_nat n)) = Some (Z.of_nat n)))
                   (seq 0 16) = true) by (vm_compute; reflexivity).
  rewrite forallb_forall in Hall. specialize (Hall (Z.to_nat d)).
  rewrite Z2Nat.id in Hall by lia.
  eapply bool_decide_eq_true_1, Hall, in_seq. lia.
Qed.

Lemma hex_of_bytes_hex bytes : Forall is_byte bytes -> is_hex_string (hex_of_bytes bytes) = true.
Proof.
  induction 1 as [|b bytes Hb _ IH]; [reflexivity|]. unfold is_byte in Hb.
  cbn [hex_of_bytes is_hex_string].
  rewrite (hex_char_digit (b / 16)) by (split; [apply Z.div_pos; lia|apply Z.div_lt_upper_bound; lia]).
  rewrite (hex_char_digit (b mod 16)) by (apply Z.mod_pos_bound; lia).
  exact IH.
Qed.

(** X16. Decoding undoes the relay's spelling of bytes: the two
    lower-case hexadecimal digits per byte of any non-empty byte
    sequence decode to that sequence, so every such sequence can be
    sent. *)
Theorem hexStringToUint8Array_roundtrip (bytes : list Z) :
  Forall is_byte bytes ->
  bytes <> [] ->
  hexStringToUint8Array (hex_of_bytes bytes) = JS.Ok bytes
  /\ is_hex_string (hex_of_bytes bytes) = true
  /\ String.length (hex_of_bytes bytes) = (2 * length bytes)%nat.
Proof.
  intros Hb Hne. split; [apply hexStringToUint8Array_hex_of_bytes; assumption|].
  split; [apply hex_of_bytes_hex, Hb|apply hex_of_bytes_length].
Qed.

Lemma hexStringToUint8Array_roundtrip_witness :
  hexStringToUint8Array (hex_of_bytes [0; 127; 255]) = JS.Ok [0; 127; 255]
  /\ is_hex_string (hex_of_bytes [0; 127; 255]) = true
  /\ String.length (hex_of_bytes [0; 127; 255]) = (2 * length [0; 127; 255])%nat.
Proof.
  apply (hexStringToUint8Array_roundtrip [0; 127; 255]).
  - repeat constructor; unfold is_byte; lia.
  - discriminate.
Defined.

(** X17. The promise of the decryption settles only through the decrypt
    call of Web Crypto.  With a secret of the right length, a
    ciphertext that does not decode, or a key that cannot be imported,
    leaves the promise pending for ever; a rejection always carries the
    error of the decrypt call, and a resolution the decoded output of
    it. *)
Theorem aes256gcmDecrypt_settles (crypto : SubtleCrypto) (cipherText secret : string)
    (p : JS.promise string) :
  aes256gcmDecrypt crypto cipherText secret = JS.Ok p ->
  String.length secret = 64%nat
  /\ (only_line_terminators cipherText = true -> p = JS.Pending)
  /\ (forall keyBytes e,
        hexStringToUint8Array secret = JS.Ok keyBytes ->
        importKey crypto keyBytes = JS.Throw e ->
        p = JS.Pending)
  /\ (forall e, p = JS.Rejected e ->
        exists iv secretKey data, subtle_decrypt crypto iv secretKey data = JS.Throw e)
  /\ (forall text, p = JS.Resolved text ->
        exists iv secretKey data decrypted,
          subtle_decrypt crypto iv secretKey data = JS.Ok decrypted
          /\ text = decode crypto decrypted).
Proof.
  unfold aes256gcmDecrypt.
  destruct (Nat.eqb_spec (String.length secret) 64) as [Hlen|Hlen]; cbn [negb]; [|discriminate].
  intros [= <-]. split; [exact Hlen|].
  destruct (hexStringToUint8Array secret) as [keyBytes|e1].
  2:{ repeat split; intros; try reflexivity; try discriminate. }
  destruct (importKey crypto keyBytes) as [secretKey|e2] eqn:Himport.
  2:{ repeat split; intros; try reflexivity; try discriminate. }
  assert (Hdecodes : forall encrypted,
             hexStringToUint8Array cipherText = JS.Ok encrypted ->
             only_line_terminators cipherText = true -> False).
  { intros encrypted Henc Hall. apply match_pairs_nil in Hall.
    unfold hexStringToUint8Array in Henc. rewrite Hall in Henc. discriminate. }
  destruct (hexStringToUint8Array cipherText) as [encrypted|e3].
  2:{ repeat split; intros; try reflexivity; try discriminate. }
  specialize (Hdecodes encrypted eq_refl).
  match goal with
  | |- context [subtle_decrypt crypto ?iv secretKey ?data] =>
      destruct (subtle_decrypt crypto iv secretKey data) as [decrypted|e3] eqn:Hdec
  end.
  - split; [|split; [|split]].
    + intros Hall. destruct (Hdecodes Hall).
    + intros kb e [= <-]. congruence.
    + discriminate.
    + intros text [= <-]. do 4 eexists. split; [exact Hdec|reflexivity].
  - split; [|split; [|split]].
    + intros Hall. destruct (Hdecodes Hall).
    + intros kb e [= <-]. congruence.
    + intros e [= <-]. do 3 eexists. exact Hdec.
    + discriminate.
Qed.

Lemma aes256gcmDecrypt_settles_witness :
  let secret := "000102030405060708090a0b0c0d0e0f101112131415161718191a1b1c1d1e1f"%string in
  String.length secret = 64%nat
  /\ (only_line_terminators "" = true -> @JS.Pending string = JS.Pending).
Proof.
  intros secret.
  destruct (aes256gcmDecrypt_settles toy_crypto "" secret JS.Pending eq_refl)
    as (Hlen & Hpending & _).
  split; [exact Hlen|exact Hpending].
Defined.

(** ** Page address *)

Lemma String_split_plain p :
  JS.contains "?" p = false -> String_split "?" p = [p].
Proof.
  induction p as [|c p IH]; [reflexivity|].
  cbn [JS.contains JS.is_prefix String_split].
  rewrite (Ascii.eqb_sym c "?").
  destruct (Ascii.eqb "?" c); [discriminate|]. cbn [orb].
  intros Hp. rewrite (IH Hp). reflexivity.
Qed.

Lemma String_split_at p rest :
  JS.contains "?" p = false ->
  String_split "?" (p ++ "?" ++ rest) = p :: String_split "?" rest.
Proof.
  induction p as [|c p IH]; [reflexivity|].
  change (String c p ++ "?" ++ rest)%string with (String c (p ++ "?" ++ rest)).
  cbn [JS.contains JS.is_prefix String_split].
  rewrite (Ascii.eqb_sym c "?").
  destruct (Ascii.eqb "?" c); [discriminate|]. cbn [orb].
  intros Hp. rewrite (IH Hp). reflexivity.
Qed.

Lemma String_split_nonempty sep text : String_split sep text <> [].
Proof.
  destruct text as [|c rest]; [discriminate|]. cbn [String_split].
  destruct (Ascii.eqb c sep); [discriminate|].
  destruct (String_split sep rest); discriminate.
Qed.

(** X18. Splitting a page address: without a question mark the whole
    text is the path and there is no query; with one, the text before
    it is the path and the text after it the query; whatever follows a
    second question mark is dropped.  An absent text gives the empty
    path, and the result always has a path. *)
Theorem splitPathAndQuery_parts :
  splitPathAndQuery None = {| path := Some ""%string; query := None |}
  /\ (forall p,
        JS.contains "?" p = false ->
        splitPathAndQuery (Some p) = {| path := Some p; query := None |})
  /\ (forall p q,
        JS.contains "?" p = false -> JS.contains "?" q = false ->
        splitPathAndQuery (Some (p ++ "?" ++ q)%string)
        = {| path := Some p; query := Some q |})
  /\ (forall p q rest,
        JS.contains "?" p = false -> JS.contains "?" q = false ->
        splitPathAndQuery (Some (p ++ "?" ++ q ++ "?" ++ rest)%string)
        = {| path := Some p; query := Some q |})
  /\ (forall text, path (splitPathAndQuery text) <> None).
Proof.
  split; [reflexivity|]. split; [|split; [|split]].
  - intros p Hp. unfold splitPathAndQuery, default. cbn [from_option id].
    rewrite (String_split_plain p Hp). reflexivity.
  - intros p q Hp Hq. unfold splitPathAndQuery, default. cbn [from_option id].
    rewrite (String_split_at p q Hp), (String_split_plain q Hq). reflexivity.
  - intros p q rest Hp Hq. unfold splitPathAndQuery, default. cbn [from_option id].
    rewrite (String_split_at p _ Hp), (String_split_at q rest Hq).
    pose proof (String_split_nonempty "?" rest) as Hne.
    destruct (String_split "?" rest); [contradiction|reflexivity].
  - intros text. unfold splitPathAndQuery.
    pose proof (String_split_nonempty "?" (default ""%string text)) as Hne.
    destruct (String_split "?" (default ""%string text)) as [|first [|second others]];
      [contradiction|discriminate|discriminate].
Qed.

(** ** Identities *)

(** X19. The user identifier is stable: once a call of [getUserId] has
    answered, every later call answers the same and writes nothing,
    whatever the random source would give; a fresh identifier is only
    written under the identifier's own key.  An identifier set from a
    server response replaces it.  The session identifier is stable in
    the same way. *)
Theorem getUserId_stable (randomUUID later userId : string)
    (localStorage sessionStorage : gmap string string) :
  randomUUID <> ""%string ->
  userId <> ""%string ->
  getUserId later (getUserId randomUUID localStorage).2
  = getUserId randomUUID localStorage
  /\ (getUserId randomUUID localStorage).1 <> ""%string
  /\ (forall k, k <> PF_SDK_USER_KEY ->
        (getUserId randomUUID localStorage).2 !! k = localStorage !! k)
  /\ getUserId later (setUserId userId localStorage)
     = (userId, setUserId userId localStorage)
  /\ getSessionId later (getSessionId randomUUID sessionStorage).2
     = getSessionId randomUUID sessionStorage.
Proof.
  intros Hfresh Hset. repeat split.
  - unfold getUserId.
    destruct (present (localStorage !! PF_SDK_USER_KEY)) eqn:Hstored; cbn [fst snd].
    + rewrite Hstored. reflexivity.
    + rewrite lookup_insert_eq. cbn [present default].
      destruct (String.eqb_spec randomUUID ""); [contradiction|reflexivity].
  - unfold getUserId.
    destruct (present (localStorage !! PF_SDK_USER_KEY)) eqn:Hstored; cbn [fst]; [|exact Hfresh].
    apply present_Some in Hstored as (s & -> & Hne). exact Hne.
  - intros k Hk. unfold getUserId.
    destruct (present (localStorage !! PF_SDK_USER_KEY)); cbn [snd]; [reflexivity|].
    apply lookup_insert_ne. congruence.
  - unfold getUserId, setUserId. rewrite lookup_insert_eq. cbn [present default].
    destruct (String.eqb_spec userId ""); [contradiction|reflexivity].
  - unfold getSessionId.
    destruct (present (sessionStorage !! PF_SDK_SESSION_KEY)) eqn:Hstored; cbn [fst snd].
    + rewrite Hstored. reflexivity.
    + rewrite lookup_insert_eq. cbn [present default].
      destruct (String.eqb_spec randomUUID ""); [contradiction|reflexivity].
Qed.

Lemma getUserId_stable_witness :
  getUserId "7d0c" (getUserId "3b9a" ∅).2 = getUserId "3b9a" ∅
  /\ (getUserId "3b9a" ∅).1 <> ""%string
  /\ (forall k, k <> PF_SDK_USER_KEY ->
        (getUserId "3b9a" ∅).2 !! k = (∅ : gmap string string) !! k)
  /\ getUserId "7d0c" (setUserId "51fe" ∅) = ("51fe"%string, setUserId "51fe" ∅)
  /\ getSessionId "7d0c" (getSessionId "3b9a" ∅).2 = getSessionId "3b9a" ∅.
Proof.
  apply (getUserId_stable "3b9a" "7d0c" "51fe" ∅ ∅); discriminate.
Defined.

(** ** Error reports *)

Section ErrorReportFacts.

Context {V : Type}.
Context (truthy : V -> bool).
Context (template : V -> JS.result string).
Context (toString_call : V -> JS.result string).

Lemma errorHandler_shape errorMsg url lineNo columnNo errorObj :
  (exists e, errorHandler truthy template toString_call errorMsg url lineNo columnNo errorObj
             = ([], JS.Throw e))
  \/ (exists errorMessage,
        errorHandler truthy template toString_call errorMsg url lineNo columnNo errorObj
        = ([[errorMessage]], JS.Ok true)).
Proof.
  unfold errorHandler.
  destruct (JS.bind _ _) as [errorMessage|e]; [right|left]; eauto.
Qed.

End ErrorReportFacts.

(** X20. An error report names one field only.  The handler makes at
    most one call of [logErrors], with a single message; when the error
    object is there, the message is the error object's text and the
    error message, address, line and column given with it are left out;
    without it, the column alone is reported when there is one; with
    nothing at all, an empty message is still reported. *)
Theorem errorHandler_last_field_wins {V : Type} (truthy : V -> bool)
    (template toString_call : V -> JS.result string)
    (errorMsg url lineNo columnNo errorObj : V) :
  ((exists e, errorHandler truthy template toString_call errorMsg url lineNo columnNo errorObj
              = ([], JS.Throw e))
   \/ (exists errorMessage,
         errorHandler truthy template toString_call errorMsg url lineNo columnNo errorObj
         = ([[errorMessage]], JS.Ok true)))
  /\ (truthy errorObj = true ->
      forall errors,
        In errors (errorHandler truthy template toString_call
                     errorMsg url lineNo columnNo errorObj).1 ->
        exists s, toString_call errorObj = JS.Ok s
                  /\ errors = ["errorObj=" ++ s ++ ";"]%string)
  /\ (truthy errorObj = false -> truthy columnNo = true ->
      forall errors,
        In errors (errorHandler truthy template toString_call
                     errorMsg url lineNo columnNo errorObj).1 ->
        exists s, template columnNo = JS.Ok s
                  /\ errors = ["columnNo=" ++ s ++ ";"]%string)
  /\ (truthy errorMsg = false -> truthy url = false -> truthy lineNo = false ->
      truthy columnNo = false -> truthy errorObj = false ->
      errorHandler truthy template toString_call errorMsg url lineNo columnNo errorObj
      = ([[""%string]], JS.Ok true)).
Proof.
  split; [apply errorHandler_shape|]. unfold errorHandler. split; [|split].
  - intros Hobj errors. rewrite Hobj.
    destruct (if truthy errorMsg then _ else _) as [m1|]; cbn [JS.bind fst In]; [|tauto].
    destruct (if truthy url then _ else _) as [m2|]; cbn [JS.bind fst In]; [|tauto].
    destruct (if truthy lineNo then _ else _) as [m3|]; cbn [JS.bind fst In]; [|tauto].
    destruct (if truthy columnNo then _ else _) as [m4|]; cbn [JS.bind fst In]; [|tauto].
    destruct (toString_call errorObj) as [s|]; cbn [JS.bind fst In]; [|tauto].
    intros [<-|[]]. eauto.
  - intros Hobj Hcol errors. rewrite Hobj, Hcol.
    destruct (if truthy errorMsg then _ else _) as [m1|]; cbn [JS.bind fst In]; [|tauto].
    destruct (if truthy url then _ else _) as [m2|]; cbn [JS.bind fst In]; [|tauto].
    destruct (if truthy lineNo then _ else _) as [m3|]; cbn [JS.bind fst In]; [|tauto].
    destruct (template columnNo) as [s|]; cbn [JS.bind fst In]; [|tauto].
    intros [<-|[]]. eauto.
  - intros -> -> -> -> ->. reflexivity.
Qed.

(** X21. The handler of unhandled rejections reports at most the
    message and the stack of the reason, in that order.  A reason that
    is a plain string, number or array has neither: the report is made
    with an empty list and the reason itself is lost.  Without a reason
    the serialised event is reported. *)
Theorem onunhandledrejection_reports (stringified : string) (reason : JS.value) :
  (JS.truthy reason = false ->
   onunhandledrejection stringified reason = ([[stringified]], JS.Ok tt))
  /\ (JS.truthy reason = true -> (forall fields, reason <> JS.VObj fields) ->
      onunhandledrejection stringified reason = ([[]], JS.Ok tt))
  /\ (forall message stack,
        reason = JS.VObj [("message", JS.VStr message); ("stack", JS.VStr stack)] ->
        message <> ""%string -> stack <> ""%string ->
        onunhandledrejection stringified reason = ([[message; stack]], JS.Ok tt))
  /\ (forall errors, In errors (onunhandledrejection stringified reason).1 ->
        (length errors <= 2)%nat \/ errors = [stringified]).
Proof.
  unfold onunhandledrejection. split; [|split; [|split]].
  - intros ->. reflexivity.
  - intros Ht Hobj. rewrite Ht.
    destruct reason; try discriminate; try reflexivity.
    exfalso. exact (Hobj _ eq_refl).
  - intros message stack -> Hm Hs. cbn.
    destruct (String.eqb_spec message ""); [contradiction|].
    destruct (String.eqb_spec stack ""); [contradiction|]. reflexivity.
  - intros errors. destruct (JS.truthy reason); [|cbn; intros [<-|[]]; right; reflexivity].
    destruct (JS.get_prop reason "message") as [message|]; cbn [JS.bind fst In]; [|tauto].
    destruct (JS.truthy message).
    + destruct (toString_method message) as [s|]; cbn [JS.bind fst In]; [|tauto].
      destruct (JS.get_prop reason "stack") as [stack|]; cbn [JS.bind fst In]; [|tauto].
      destruct (JS.truthy stack).
      * destruct (toString_method stack) as [s'|]; cbn [JS.bind fst In]; [|tauto].
        intros [<-|[]]. left. cbn. lia.
      * cbn [JS.bind fst In]. intros [<-|[]]. left. cbn. lia.
    + cbn [JS.bind].
      destruct (JS.get_prop reason "stack") as [stack|]; cbn [JS.bind fst In]; [|tauto].
      destruct (JS.truthy stack).
      * destruct (toString_method stack) as [s'|]; cbn [JS.bind fst In]; [|tauto].
        intros [<-|[]]. left. cbn. lia.
      * cbn [JS.bind fst In]. intros [<-|[]]. left. cbn. lia.
Qed.

(** ** The [window.ethereum] accessor *)

Lemma Accessor_invariant ethereum st :
  rtc Accessor.step (Accessor.initial ethereum) st ->
  (Accessor.proxy st = None -> Accessor.provider st = ethereum)
  /\ (forall o, Accessor.proxy st = Some o -> exists target, o = Accessor.Proxy target).
Proof.
  revert st. apply rtc_ind_r.
  - split; [reflexivity|discriminate].
  - intros st st' _ Hstep [Hslot Hproxy].
    destruct Hstep as [st|st newProvider st' Hset].
    + unfold Accessor.get.
      destruct (Accessor.proxy st) as [o|] eqn:Ho; cbn [fst].
      * rewrite Ho. split; [discriminate|]. intros o' [= <-]. apply Hproxy. reflexivity.
      * destruct (Accessor.provider st) as [p|] eqn:Hp; cbn [fst Accessor.proxy Accessor.provider].
        -- split; [discriminate|]. intros o [= <-]. eauto.
        -- rewrite Ho. split; [intros _; rewrite Hp; apply Hslot; reflexivity|discriminate].
    + destruct newProvider as [p|]; [|discriminate]. cbn in Hset. injection Hset as <-.
      cbn [Accessor.proxy Accessor.provider]. split; [discriminate|]. intros o [= <-]. eauto.
Qed.

(** X22. However the page and the wallets have read and assigned
    [window.ethereum] since the module was loaded, a read never hands
    out an object of the wallet's own: it gives a proxy, or nothing when
    no wallet has shown up yet.  When a wallet was there at load, a read
    always gives a proxy.  Reading again gives the same object and
    changes nothing. *)
Theorem Accessor_get_wrapped (ethereum : option Accessor.object) (st : Accessor.state) :
  rtc Accessor.step (Accessor.initial ethereum) st ->
  (forall o, (Accessor.get st).2 = Some o -> exists target, o = Accessor.Proxy target)
  /\ (ethereum <> None -> (Accessor.get st).2 <> None)
  /\ Accessor.get (Accessor.get st).1 = Accessor.get st.
Proof.
  intros Hreach. destruct (Accessor_invariant ethereum st Hreach) as [Hslot Hproxy].
  unfold Accessor.get.
  destruct (Accessor.proxy st) as [o|] eqn:Ho; cbn [fst snd].
  - rewrite Ho. split; [|split]; [|discriminate|reflexivity].
    intros o' [= <-]. apply Hproxy. reflexivity.
  - destruct (Accessor.provider st) as [p|] eqn:Hp;
      cbn [fst snd Accessor.proxy Accessor.provider].
    + split; [|split]; [|discriminate|reflexivity]. intros o [= <-]. eauto.
    + rewrite Ho, Hp. cbn [snd]. split; [discriminate|]. split; [|reflexivity].
      intros Hthere _. apply Hthere. symmetry. apply Hslot. reflexivity.
Qed.

Lemma Accessor_get_wrapped_witness :
  (forall o, (Accessor.get (Accessor.initial (Some (Accessor.Wallet 0)))).2 = Some o ->
     exists target, o = Accessor.Proxy target)
  /\ (Some (Accessor.Wallet 0) <> None ->
      (Accessor.get (Accessor.initial (Some (Accessor.Wallet 0)))).2 <> None)
  /\ Accessor.get (Accessor.get (Accessor.initial (Some (Accessor.Wallet 0)))).1
     = Accessor.get (Accessor.initial (Some (Accessor.Wallet 0))).
Proof.
  apply (Accessor_get_wrapped (Some (Accessor.Wallet 0))
           (Accessor.initial (Some (Accessor.Wallet 0)))).
  apply rtc_refl.
Defined.

Lemma Accessor_write_back st o :
  (Accessor.get st).2 = Some o ->
  (Accessor.get (Accessor.write_back st)).2 = Some (Accessor.Proxy o).
Proof.
  unfold Accessor.write_back. destruct (Accessor.get st) as [st1 read]. cbn [snd].
  intros ->. reflexivity.
Qed.

(** X23. Every assignment wraps what is assigned, whether or not it is
    a proxy already, and assigning [undefined] throws.  So each time
    the page writes back what it has just read, one more interceptor is
    put around the wallet: after [n] such assignments a call of
    [request] runs through [n] interceptors more than before. *)
Theorem Accessor_write_back_wraps (n : nat) (st : Accessor.state) (o : Accessor.object) :
  (Accessor.get st).2 = Some o ->
  (exists o',
     (Accessor.get (Nat.iter n Accessor.write_back st)).2 = Some o'
     /\ Accessor.wraps o' = (n + Accessor.wraps o)%nat)
  /\ (forall p st',
        Accessor.set (Some p) st = JS.Ok st' ->
        (Accessor.get st').2 = Some (Accessor.Proxy p))
  /\ Accessor.set None st = JS.Throw JS.TypeError.
Proof.
  intros Hread. split; [|split; [|reflexivity]].
  - induction n as [|n (o' & Hget & Hwraps)]; [exists o; split; [exact Hread|reflexivity]|].
    exists (Accessor.Proxy o'). cbn [Nat.iter]. split.
    + apply Accessor_write_back, Hget.
    + cbn [Accessor.wraps]. rewrite Hwraps. reflexivity.
  - intros p st' [= <-]. reflexivity.
Qed.

Lemma Accessor_write_back_wraps_witness :
  exists o',
    (Accessor.get (Nat.iter 2 Accessor.write_back
                     (Accessor.initial (Some (Accessor.Wallet 0))))).2 = Some o'
    /\ Accessor.wraps o' = (2 + Accessor.wraps (Accessor.Proxy (Accessor.Wallet 0)))%nat.
Proof.
  apply (Accessor_write_back_wraps 2 (Accessor.initial (Some (Accessor.Wallet 0)))
           (Accessor.Proxy (Accessor.Wallet 0))).
  reflexivity.
Defined.

(** ** Chain state *)

Lemma toString_method_number n : toString_method (JS.VNum n) = JS.Ok (JS.Number_toString n).
Proof. reflexivity. Qed.

(** X24. The endpoint of a chain is looked up under the decimal
    spelling of its number.  A numeric chain identifier never makes the
    lookup throw; a chain the list does not know, or knows with an empty
    address, yields [null]; and the answer for one chain does not depend
    on the entries of the others.  An identifier that is [undefined] or
    [null] throws a TypeError. *)
Theorem chainIdToWeb3Provider_lookup (chainlist : gmap string string) (n : Z) :
  (forall rpc, chainlist !! JS.Number_toString n = Some rpc -> rpc <> ""%string ->
     Rpc.chainIdToWeb3Provider chainlist (JS.VNum n) = JS.Ok (Web3HttpProvider rpc))
  /\ (chainlist !! JS.Number_toString n = None
      \/ chainlist !! JS.Number_toString n = Some ""%string ->
      Rpc.chainIdToWeb3Provider chainlist (JS.VNum n) = JS.Ok no_provider)
  /\ (forall m rpc, m <> n ->
        Rpc.chainIdToWeb3Provider (<[JS.Number_toString m := rpc]> chainlist) (JS.VNum n)
        = Rpc.chainIdToWeb3Provider chainlist (JS.VNum n))
  /\ Rpc.chainIdToWeb3Provider chainlist JS.VUndef = JS.Throw JS.TypeError
  /\ Rpc.chainIdToWeb3Provider chainlist JS.VNull = JS.Throw JS.TypeError.
Proof.
  unfold Rpc.chainIdToWeb3Provider. rewrite toString_method_number. cbn [JS.bind].
  split; [|split; [|split; [|split; reflexivity]]].
  - intros rpc -> Hne. cbn [present default].
    destruct (String.eqb_spec rpc ""); [contradiction|reflexivity].
  - intros [->| ->]; reflexivity.
  - intros m rpc Hm. rewrite lookup_insert_ne; [reflexivity|].
    intros Heq. apply Hm, Number_toString_inj, Heq.
Qed.

(** X25. Reading the chain state of a wallet.  Without an address
    nothing is asked and the state is [null].  With an address and no
    provider (a WalletConnect session on a chain the list does not
    know) the call throws a TypeError before anything is asked.
    Otherwise the requests go to the wallet's own provider, and their
    methods are a beginning of: balance, transaction count, chain
    identifier, block number, gas price; a state is returned only after
    all five, and it carries the wallet's address and one chain
    identifier in both of its places. *)
Theorem getChainState_requests (settle : Rpc.rpc_call -> JS.result JS.value)
    (BigNumber_toString : JS.value -> JS.result string)
    (BigNumber_toNumber : JS.value -> JS.result Z) (walletResult : WalletResponse) :
  (wallet walletResult = ""%string ->
   Rpc.getChainState settle BigNumber_toString BigNumber_toNumber walletResult
   = ([], JS.Ok None))
  /\ (wallet walletResult <> ""%string -> provider walletResult = no_provider ->
      Rpc.getChainState settle BigNumber_toString BigNumber_toNumber walletResult
      = ([], JS.Throw JS.TypeError))
  /\ (exists k,
        map Rpc.method
          (Rpc.getChainState settle BigNumber_toString BigNumber_toNumber walletResult).1
        = take k Rpc.chain_methods)
  /\ Forall (fun c => Rpc.on_provider c = provider walletResult)
       (Rpc.getChainState settle BigNumber_toString BigNumber_toNumber walletResult).1
  /\ (forall chainState,
        (Rpc.getChainState settle BigNumber_toString BigNumber_toNumber walletResult).2
        = JS.Ok (Some chainState) ->
        map Rpc.method
          (Rpc.getChainState settle BigNumber_toString BigNumber_toNumber walletResult).1
        = Rpc.chain_methods
        /\ Rpc.walletAddress (Rpc.chain_wallet chainState) = wallet walletResult
        /\ Rpc.networkId (Rpc.chain_wallet chainState)
           = Rpc.chainId (Rpc.chain_network chainState)).
Proof.
  unfold Rpc.getChainState.
  destruct (String.eqb_spec (wallet walletResult) "") as [Hw|Hw]; cbn [negb].
  { split; [reflexivity|]. split; [contradiction|]. split; [exists 0%nat; reflexivity|].
    split; [constructor|discriminate]. }
  split; [contradiction|]. split; [intros _ ->; reflexivity|].
  destruct (provider walletResult) as [|rpc|] eqn:Hp.
  3:{ cbn. split; [exists 0%nat; reflexivity|]. split; [constructor|discriminate]. }
  all: cbn [Rpc.request Rpc.and_then].
  all: repeat match goal with
         | |- context [match ?x with JS.Ok _ => _ | JS.Throw _ => _ end] =>
             destruct x as [?|?]; cbn [Rpc.and_then app]
         end.
  all: cbn [fst snd map Rpc.method Rpc.on_provider].
  all: split;
    [first [exists 1%nat; reflexivity | exists 2%nat; reflexivity | exists 3%nat; reflexivity
           | exists 4%nat; reflexivity | exists 5%nat; reflexivity]|].
  all: split; [repeat constructor|].
  all: try discriminate.
  all: intros chainState [= <-]; repeat split; reflexivity.
Qed.

(** ** The relay's storage listener *)

Lemma fetchCbObject_filled localStorage newAddressesValue cb o :
  fetchCbObject localStorage newAddressesValue cb = Some o ->
  filled o \/ cb = Some o.
Proof.
  pose proof (fetchCbObject_condition localStorage newAddressesValue) as Hc.
  unfold fetchCbObject. fold (relay_addresses localStorage newAddressesValue).
  match goal with
  | |- (if ?c then _ else _) = _ -> _ =>
      destruct (Bool.bool_dec c true) as [E|E];
      [rewrite E|apply not_true_is_false in E; rewrite E; auto]
  end.
  intros [= <-]. left. apply Hc in E as (H1 & H2 & H3 & H4 & H5 & H6).
  apply present_Some in H1 as (s1 & -> & N1).
  apply present_Some in H3 as (s3 & -> & N3).
  apply present_Some in H4 as (s4 & -> & N4).
  apply present_Some in H5 as (s5 & -> & N5).
  apply present_Some in H6 as (s6 & -> & N6).
  rewrite H2. unfold filled. cbn. repeat split; assumption.
Qed.

Lemma localStorageSetHandler_addresses_filled localStorage value cb o :
  (forall o', cb = Some o' -> filled o') ->
  (localStorageSetHandler_addresses localStorage value cb).1 = Some o -> filled o.
Proof.
  intros Hcb. unfold localStorageSetHandler_addresses.
  destruct (fetchCbObject localStorage (Some value) cb) as [cb'|] eqn:Hfetch; [|discriminate].
  assert (Hcb' : filled cb').
  { destruct (fetchCbObject_filled _ _ _ _ Hfetch) as [H|H]; [exact H|exact (Hcb _ H)]. }
  destruct (0 <? Z.of_nat (String.length value)) eqn:Hlen; cbn [andb].
  - destruct (negb (value =? _)%string); cbn [fst]; intros [= <-]; [|exact Hcb'].
    destruct Hcb' as (F1 & F2 & F3 & F4 & F5 & F6). unfold filled. cbn.
    repeat split; try assumption. intros ->. discriminate.
  - cbn [fst]. intros [= <-]. exact Hcb'.
Qed.

(** X26. The relay session the module holds never has an empty field:
    starting without a session, whatever sequence of session parses and
    of writes of the addresses key happens, over whatever storage, the
    variable is [null] or holds a session with all six fields filled
    and the linked flag "1". *)
Theorem cbObject_always_filled (cb : option CbObject) (o : CbObject) :
  rtc cbObject_step None cb ->
  cb = Some o ->
  filled o.
Proof.
  intros Hreach. revert o. revert cb Hreach. apply (rtc_ind_r (fun cb => forall o, cb = Some o -> filled o)).
  - discriminate.
  - intros cb cb' _ Hstep IH o Ho. destruct Hstep as [localStorage a cb|localStorage value cb].
    + destruct (fetchCbObject_filled _ _ _ _ Ho) as [H|H]; [exact H|exact (IH _ H)].
    + exact (localStorageSetHandler_addresses_filled _ _ _ _ IH Ho).
Qed.

Lemma cbObject_always_filled_witness :
  filled {| sessionId := "4f1c";
            sessionSecret := "000102030405060708090a0b0c0d0e0f101112131415161718191a1b1c1d1e1f";
            addresses := "0xdef0000000000000000000000000000000000002";
            linked := "1";
            defaultChainId := "137";
            defaultJsonRpcUrl := "https://polygon-rpc.com" |}.
Proof.
  apply (cbObject_always_filled
           (localStorageSetHandler_addresses linked_relay
              "0xdef0000000000000000000000000000000000002" None).1).
  - eapply rtc_l; [apply (cbObject_inserted linked_relay
                            "0xdef0000000000000000000000000000000000002" None)|].
    apply rtc_refl.
  - vm_compute. reflexivity.
Defined.

(** X27. A write of the relay's addresses key is reported as a wallet
    connection only when the module then holds a session, the value
    written is not empty and it differs from the value stored so far;
    the report names the value in lower case and the session's
    endpoint, and the session holds the value afterwards.  Writing the
    stored value again, or an empty value, reports nothing. *)
Theorem localStorageSetHandler_addresses_reports (localStorage : gmap string string)
    (value : string) (cbObject : option CbObject) :
  ((localStorageSetHandler_addresses localStorage value cbObject).2 = []
   \/ exists cb,
        (localStorageSetHandler_addresses localStorage value cbObject).1 = Some cb
        /\ addresses cb = value
        /\ value <> ""%string
        /\ localStorage !! "-walletlink:https://www.walletlink.org:Addresses" <> Some value
        /\ (localStorageSetHandler_addresses localStorage value cbObject).2
           = [logWalletConnect {| provider := Web3HttpProvider (defaultJsonRpcUrl cb);
                                  type := type_coinbase;
                                  wallet := JS.lower value;
                                  walletProvider := "coinbase" |}])
  /\ (localStorage !! "-walletlink:https://www.walletlink.org:Addresses" = Some value ->
      (localStorageSetHandler_addresses localStorage value cbObject).2 = [])
  /\ (value = ""%string ->
      localStorageSetHandler_addresses localStorage value cbObject = (cbObject, [])).
Proof.
  unfold localStorageSetHandler_addresses. split; [|split].
  - destruct (fetchCbObject localStorage (Some value) cbObject) as [cb|]; [|left; reflexivity].
    destruct (0 <? Z.of_nat (String.length value)) eqn:Hlen; cbn [andb]; [|left; reflexivity].
    destruct (String.eqb_spec value
                (default ""%string
                   (localStorage !! "-walletlink:https://www.walletlink.org:Addresses")))
      as [Hsame|Hdiff]; cbn [negb]; [left; reflexivity|].
    right. eexists. split; [reflexivity|]. cbn. repeat split.
    + intros ->. discriminate.
    + intros Hstored. rewrite Hstored in Hdiff. apply Hdiff. reflexivity.
  - intros Hstored. rewrite Hstored. cbn [default]. rewrite String.eqb_refl.
    destruct (fetchCbObject _ _ _); [|reflexivity].
    rewrite andb_false_r. reflexivity.
  - intros ->.
    assert (Hkeep : fetchCbObject localStorage (Some ""%string) cbObject = cbObject).
    { unfold fetchCbObject. cbn [present String.eqb negb].
      rewrite !andb_false_r. cbn [andb]. reflexivity. }
    rewrite Hkeep. destruct cbObject; reflexivity.
Qed.

(** ** What the inbound listener reports *)

Section Reports.

Context (B : Bridge).

Lemma calls_all_then {A C} (P : logger_call -> Prop) (t : task B A) (k : A -> task B C) :
  logger_calls t.1 = [] ->
  (forall a, t.2 = JS.Ok a -> Forall P (logger_calls (k a).1)) ->
  Forall P (logger_calls (then_ t k).1).
Proof.
  intros Ht Hk. unfold then_. destruct t as [trace [a|e]]; cbn [fst snd] in *;
    [|rewrite Ht; constructor].
  specialize (Hk a eq_refl). destruct (k a) as [trace' r]. cbn [fst] in *.
  rewrite logger_calls_app, Ht. exact Hk.
Qed.

Lemma Map_has_get m id :
  Map_has m id = true -> exists k, m !! k = Some (Map_get m id).
Proof.
  unfold Map_has, Map_get. destruct (to_key id) as [k|]; [|discriminate].
  intros H. apply bool_decide_eq_true in H as [v Hv]. exists k. rewrite Hv. reflexivity.
Qed.

Lemma walletconnect_sender_type wc txData w :
  (walletconnect_sender B wc txData).2 = JS.Ok w -> type w = type_walletconnect.
Proof.
  unfold walletconnect_sender. intros H.
  apply then_Ok in H as (handle & _ & H). apply then_Ok in H as (from & _ & H).
  apply then_Ok in H as (wallet & _ & H). cbn in H. injection H as <-. reflexivity.
Qed.

Lemma coinbase_sender_type txData w :
  (coinbase_sender B txData).2 = JS.Ok w -> type w = type_coinbase.
Proof.
  unfold coinbase_sender. intros H.
  apply then_Ok in H as (chain & _ & H). apply then_Ok in H as (handle & _ & H).
  apply then_Ok in H as (from & _ & H). apply then_Ok in H as (wallet & _ & H).
  cbn in H. injection H as <-. reflexivity.
Qed.

Lemma on_walletconnect_response_remembered st wc decrypted :
  Forall (remembered st) (logger_calls (on_walletconnect_response B st wc decrypted).1).
Proof.
  unfold on_walletconnect_response.
  apply calls_all_then; [reflexivity|intros id _].
  destruct (JS.truthy id && Map_has (wsMessages st) id) eqn:Hknown; [|constructor].
  apply andb_true_iff in Hknown as [_ Hhas]. apply Map_has_get in Hhas.
  apply calls_all_then; [reflexivity|intros _ _].
  apply calls_all_then; [reflexivity|intros _ _].
  apply calls_all_then; [reflexivity|intros error _].
  destruct (JS.truthy error).
  - apply calls_all_then; [reflexivity|intros _ _].
    apply calls_all_then; [reflexivity|intros message _].
    apply calls_all_then; [reflexivity|intros rejected _].
    destruct rejected; [|constructor].
    apply calls_all_then; [reflexivity|intros _ _].
    apply calls_all_then; [apply walletconnect_sender_no_call|intros w Hw].
    cbn. constructor; [|constructor].
    split; [exact Hhas|]. split; [right; split; reflexivity|].
    left. exact (walletconnect_sender_type _ _ _ Hw).
  - apply calls_all_then; [reflexivity|intros hash _].
    apply calls_all_then; [reflexivity|intros _ _].
    apply calls_all_then; [apply walletconnect_sender_no_call|intros w Hw].
    cbn. constructor; [|constructor].
    split; [exact Hhas|]. split; [left; reflexivity|].
    left. exact (walletconnect_sender_type _ _ _ Hw).
Qed.

Lemma on_coinbase_response_remembered st decryptedString :
  Forall (remembered st) (logger_calls (on_coinbase_response B st decryptedString).1).
Proof.
  unfold on_coinbase_response.
  apply calls_all_then; [reflexivity|intros decrypted _].
  apply calls_all_then; [reflexivity|intros _ _].
  apply calls_all_then; [reflexivity|intros id _].
  destruct (JS.truthy id && Map_has (wsMessages st) id) eqn:Hknown; [|constructor].
  apply andb_true_iff in Hknown as [_ Hhas]. apply Map_has_get in Hhas.
  apply calls_all_then; [reflexivity|intros _ _].
  apply calls_all_then; [reflexivity|intros _ _].
  apply calls_all_then; [reflexivity|intros response _].
  apply calls_all_then; [reflexivity|intros errorMessage _].
  destruct (JS.truthy errorMessage).
  - apply calls_all_then; [reflexivity|intros _ _].
    apply calls_all_then; [reflexivity|intros rejected _].
    destruct rejected; [|constructor].
    apply calls_all_then; [reflexivity|intros _ _].
    apply calls_all_then; [apply coinbase_sender_no_call|intros w Hw].
    cbn. constructor; [|constructor].
    split; [exact Hhas|]. split; [right; split; reflexivity|].
    right. exact (coinbase_sender_type _ _ Hw).
  - apply calls_all_then; [reflexivity|intros hash _].
    apply calls_all_then; [reflexivity|intros _ _].
    apply calls_all_then; [apply coinbase_sender_no_call|intros w Hw].
    cbn. constructor; [|constructor].
    split; [exact Hhas|]. split; [left; reflexivity|].
    right. exact (coinbase_sender_type _ _ Hw).
Qed.

Lemma on_message_remembered st data :
  Forall (remembered st) (logger_calls (on_message B st data).1.1).
Proof.
  unfold on_message. cbv zeta.
  destruct (then_ _ _) as [trace [messageObj|e]] eqn:Estart;
    destruct (on_message_start_no_call _ _ _ _ Estart) as (H1 & H2 & H3);
    [|cbn [fst]; rewrite H1; constructor].
  destruct (negb _).
  { cbn [fst]. apply calls_all_then; [exact H1|intros _ _; constructor]. }
  destruct (_ && _).
  - destruct (wcObject st) as [wc|]; cbn [fst].
    + apply calls_all_then; [exact H2|intros _ _].
      apply calls_all_then; [reflexivity|intros _ _].
      apply calls_all_then; [reflexivity|intros payload _].
      destruct (negb _); [constructor|].
      apply calls_all_then; [reflexivity|intros _ _].
      apply calls_all_then; [reflexivity|intros decrypted _].
      apply on_walletconnect_response_remembered.
    + apply calls_all_then; [exact H2|intros _ _; constructor].
  - destruct (_ && _).
    + destruct (cbObject st) as [cb|]; cbn [fst].
      * destruct (aes256gcmDecrypt_value B _ _) as [[decryptedString|e|]|e]; cbn [fst];
          try (rewrite H3; constructor).
        apply calls_all_then; [exact H3|intros _ _].
        apply on_coinbase_response_remembered.
      * apply calls_all_then; [exact H3|intros _ _; constructor].
    + cbn [fst]. apply calls_all_then; [exact H2|intros _ _; constructor].
Qed.

End Reports.

(** X28. Whatever an inbound frame holds, all the listener can report
    is a transaction it finds in [wsMessages], put there by an earlier
    outbound request: as pending, or as cancelled without a hash, and
    for a wallet behind the WalletConnect or the Coinbase bridge.  It
    never reports a wallet connection, a mined or failed transaction,
    or anything for the injected wallet. *)
Theorem on_message_reports_only_remembered (B : Bridge) (st : WsState) (data : Frame B)
    (c : logger_call) :
  In c (logger_calls (on_message B st data).1.1) ->
  exists tx txStatus result walletResult,
    c = logSendTransaction tx txStatus result walletResult
    /\ (exists k, wsMessages st !! k = Some tx)
    /\ (txStatus = PENDING \/ (txStatus = CANCELLED /\ result = JS.VNull))
    /\ (type walletResult = type_walletconnect \/ type walletResult = type_coinbase).
Proof.
  intros Hc. pose proof (on_message_remembered B st data) as Hall.
  rewrite Forall_forall in Hall. apply list_elem_of_In in Hc. specialize (Hall c Hc).
  destruct c as [w|tx txStatus result w]; [contradiction|].
  exists tx, txStatus, result, w. split; [reflexivity|exact Hall].
Qed.

Lemma on_message_reports_only_remembered_witness :
  let in_flight :=
    (proxiedSend sample_bridge paired (JSON_text (wc_frame "wallet" tx_request))).2 in
  exists tx txStatus result walletResult,
    logSendTransaction sample_tx CANCELLED JS.VNull rainbow_sender
    = logSendTransaction tx txStatus result walletResult
    /\ (exists k, wsMessages in_flight !! k = Some tx)
    /\ (txStatus = PENDING \/ (txStatus = CANCELLED /\ result = JS.VNull))
    /\ (type walletResult = type_walletconnect \/ type walletResult = type_coinbase).
Proof.
  intros in_flight.
  apply (on_message_reports_only_remembered sample_bridge in_flight
           (JSON_text (wc_frame "dapp" tx_refusal))).
  vm_compute. left. reflexivity.
Defined.

(** ** Brand detection, failures *)

Lemma host_mentions_fails p needle :
  (exists e, host_mentions p needle = JS.Throw e)
  <-> JS.truthy (host p) = true /\ has_indexOf (host p) = false.
Proof.
  unfold host_mentions, JS.indexOf_found, JS.includes, has_indexOf.
  destruct (host p) as [| |b|n|s|items|fields]; cbn.
  all: repeat match goal with
         | |- context [if ?c then _ else _] => destruct c; cbn
         end.
  all: split; [intros [e He]; try discriminate; split; reflexivity
              |intros [H1 H2]; try discriminate; eauto].
Qed.

(** X29. When brand detection fails.  It throws, always a TypeError,
    exactly in these cases: [window.ethereum] is not there; or no brand
    flag and no [__CIPHER__] global has settled the brand and either the
    object has no [constructor], or the constructor's name is neither of
    the two known ones and [host] holds something truthy that has no
    [indexOf] (a number, say), even for a provider that sets
    [isMetaMask].  On an object with a constructor it is the function
    of a provider record used elsewhere, and the name it returns is
    never walletconnect. *)
Theorem getProviderNameForMetamask_window_failure (window_CIPHER : bool)
    (ethereum : option InjectedProvider) (constructor_present : bool) :
  ((exists e,
      getProviderNameForMetamask_window window_CIPHER ethereum constructor_present
      = JS.Throw e)
   <-> ethereum = None
       \/ exists p,
            ethereum = Some p
            /\ distinguishing p = None
            /\ window_CIPHER = false
            /\ (constructor_present = false
                \/ (constructor_name p <> "EthereumProvider"%string
                    /\ constructor_name p <> "Web3FrameProvider"%string
                    /\ JS.truthy (host p) = true
                    /\ has_indexOf (host p) = false)))
  /\ (forall e,
        getProviderNameForMetamask_window window_CIPHER ethereum constructor_present
        = JS.Throw e ->
        e = JS.TypeError)
  /\ (forall p,
        ethereum = Some p -> constructor_present = true ->
        getProviderNameForMetamask_window window_CIPHER ethereum constructor_present
        = getProviderNameForMetamask window_CIPHER p)
  /\ (forall name,
        getProviderNameForMetamask_window window_CIPHER ethereum constructor_present
        = JS.Ok name ->
        name <> walletconnect).
Proof.
  split; [|split; [|split]].
  - destruct ethereum as [p|]; [|split; [auto|intros _; cbn; eauto]].
    unfold getProviderNameForMetamask_window, distinguishing.
    pose proof (host_mentions_fails p "infura") as Hinf.
    pose proof (host_mentions_fails p "localhost") as Hloc.
    split.
    + intros [e He]. right. exists p. split; [reflexivity|]. revert He.
      destruct (isTrust p); [discriminate|].
      destruct (isGoWallet p); [discriminate|].
      destruct (isAlphaWallet p); [discriminate|].
      destruct (isStatus p); [discriminate|].
      destruct (isCoinbaseWallet p); [discriminate|].
      destruct (isRabby p); [discriminate|].
      destruct (isFrame p); [discriminate|].
      destruct window_CIPHER; [discriminate|].
      destruct constructor_present; cbn [negb]; [|intros _; auto].
      destruct (String.eqb_spec (constructor_name p) "EthereumProvider"); [discriminate|].
      destruct (String.eqb_spec (constructor_name p) "Web3FrameProvider"); [discriminate|].
      intros He. split; [reflexivity|]. split; [reflexivity|]. right.
      split; [assumption|]. split; [assumption|].
      destruct (host_mentions p "infura") as [[]|e1] eqn:E1; cbn [JS.bind] in He;
        [discriminate| |apply Hinf; eauto].
      destruct (host_mentions p "localhost") as [[]|e2] eqn:E2; cbn [JS.bind] in He;
        [discriminate| |apply Hloc; eauto].
      destruct (isMetaMask p); discriminate.
    + intros [Hnone|(p' & [= <-] & Hflags & -> & Hrest)]; [discriminate|].
      revert Hflags.
      destruct (isTrust p); [discriminate|].
      destruct (isGoWallet p); [discriminate|].
      destruct (isAlphaWallet p); [discriminate|].
      destruct (isStatus p); [discriminate|].
      destruct (isCoinbaseWallet p); [discriminate|].
      destruct (isRabby p); [discriminate|].
      destruct (isFrame p); [discriminate|].
      intros _.
      destruct Hrest as [->|(Hmist & Hparity & Hhost)]; [cbn; eauto|].
      destruct constructor_present; cbn [negb]; [|eauto].
      destruct (String.eqb_spec (constructor_name p) "EthereumProvider"); [contradiction|].
      destruct (String.eqb_spec (constructor_name p) "Web3FrameProvider"); [contradiction|].
      apply Hinf in Hhost as [e He]. rewrite He. cbn. eauto.
  - intros e. destruct ethereum as [p|]; [|cbn; congruence].
    unfold getProviderNameForMetamask_window.
    repeat match goal with
           | |- context [if ?c then JS.Ok _ else _] => destruct c; [discriminate|]
           end.
    destruct constructor_present; cbn [negb]; [|congruence].
    repeat match goal with
           | |- context [if ?c then JS.Ok _ else _] => destruct c; [discriminate|]
           end.
    destruct (host_mentions p "infura") as [[]|e1] eqn:E1; cbn [JS.bind];
      [discriminate| |intros [= <-]; exact (host_mentions_throws _ _ _ E1)].
    destruct (host_mentions p "localhost") as [[]|e2] eqn:E2; cbn [JS.bind];
      [discriminate| |intros [= <-]; exact (host_mentions_throws _ _ _ E2)].
    destruct (isMetaMask p); discriminate.
  - intros p -> ->. reflexivity.
  - intros name. destruct ethereum as [p|]; [|discriminate].
    unfold getProviderNameForMetamask_window.
    repeat match goal with
           | |- context [if ?c then JS.Ok _ else _] => destruct c; [congruence|]
           end.
    destruct constructor_present; cbn [negb]; [|discriminate].
    repeat match goal with
           | |- context [if ?c then JS.Ok _ else _] => destruct c; [congruence|]
           end.
    destruct (host_mentions p "infura") as [[]|]; cbn [JS.bind];
      [congruence| |discriminate].
    destruct (host_mentions p "localhost") as [[]|]; cbn [JS.bind];
      [congruence| |discriminate].
    destruct (isMetaMask p); congruence.
Qed.

(** ** Pairing of requests and responses *)

Section Pairing.

Context (B : Bridge).

Lemma Map_has_set m id v : to_key id <> None -> Map_has (Map_set m id v) id = true.
Proof.
  unfold Map_has, Map_set. destruct (to_key id) as [k|]; [|contradiction].
  intros _. rewrite lookup_insert_eq. apply bool_decide_eq_true. eauto.
Qed.

Lemma Map_get_set m id v : to_key id <> None -> Map_get (Map_set m id v) id = v.
Proof.
  unfold Map_get, Map_set. destruct (to_key id) as [k|]; [|contradiction].
  intros _. rewrite lookup_insert_eq. reflexivity.
Qed.

Lemma on_walletconnect_request_stores st request id all_params tx :
  JS.get_prop request "id" = JS.Ok id ->
  JS.truthy id = true ->
  JS.get_prop request "method" = JS.Ok (JS.VStr "eth_sendTransaction") ->
  JS.get_prop request "params" = JS.Ok all_params ->
  JS.get_index0 all_params = JS.Ok tx ->
  (on_walletconnect_request B st request).2
  = JS.Ok {| wcObject := wcObject st; cbObject := cbObject st;
             wsMessages := Map_set (wsMessages st) id tx |}.
Proof.
  intros Hid Htruthy Hmethod Hparams Htx. unfold on_walletconnect_request.
  rewrite Hid, Hmethod. cbn. rewrite Htruthy. cbn. rewrite Hparams. cbn.
  rewrite Htx. reflexivity.
Qed.

End Pairing.

(** X30. A transaction request and its answer are paired through
    [wsMessages].  Once the page has sent an [eth_sendTransaction]
    request over WalletConnect with a truthy primitive id, an inbound
    payload with the same id is reported with the parameters of that
    request: as pending with the returned hash when it carries no
    error, as cancelled without a hash when its error message mentions
    a rejection. *)
Theorem walletconnect_request_response_pairing (B : Bridge) (st : WsState) (wc : WCObject)
    (request response id all_params tx : JS.value) (w : WalletResponse) :
  JS.get_prop request "id" = JS.Ok id ->
  JS.truthy id = true ->
  to_key id <> None ->
  JS.get_prop request "method" = JS.Ok (JS.VStr "eth_sendTransaction") ->
  JS.get_prop request "params" = JS.Ok all_params ->
  JS.get_index0 all_params = JS.Ok tx ->
  JS.get_prop response "id" = JS.Ok id ->
  (walletconnect_sender B wc tx).2 = JS.Ok w ->
  exists st',
    (on_walletconnect_request B st request).2 = JS.Ok st'
    /\ (forall error hash,
          JS.get_prop response "error" = JS.Ok error ->
          JS.truthy error = false ->
          JS.get_prop response "result" = JS.Ok hash ->
          logger_calls (on_walletconnect_response B st' wc response).1
          = [logSendTransaction tx PENDING hash w])
    /\ (forall error message,
          JS.get_prop response "error" = JS.Ok error ->
          JS.truthy error = true ->
          JS.get_prop error "message" = JS.Ok message ->
          JS.truthy message = true ->
          JS.includes message "rejected" = JS.Ok true ->
          logger_calls (on_walletconnect_response B st' wc response).1
          = [logSendTransaction tx CANCELLED JS.VNull w]).
Proof.
  intros Hid Htruthy Hkey Hmethod Hparams Htx Hresp Hsender.
  eexists. split; [exact (on_walletconnect_request_stores B st request id all_params tx
                            Hid Htruthy Hmethod Hparams Htx)|].
  pose proof (walletconnect_sender_no_call B wc tx) as Hquiet.
  split.
  - intros error hash Herror Hfalsy Hhash. unfold on_walletconnect_response.
    cbn [wsMessages]. rewrite Hresp. cbn [lift then_ app].
    rewrite Htruthy, (Map_has_set _ _ _ Hkey), (Map_get_set _ _ _ Hkey). cbn [andb].
    rewrite Herror. cbn [pfLog lift then_ app]. rewrite Hfalsy, Hhash. cbn [pfLog lift then_ app].
    destruct (walletconnect_sender B wc tx) as [trace r]. cbn [fst snd] in *. subst r.
    cbn. unfold logger_calls in *. cbn. rewrite omap_app, Hquiet. reflexivity.
  - intros error message Herror Htrue Hmessage Hmtrue Hrejected. unfold on_walletconnect_response.
    cbn [wsMessages]. rewrite Hresp. cbn [lift then_ app].
    rewrite Htruthy, (Map_has_set _ _ _ Hkey), (Map_get_set _ _ _ Hkey). cbn [andb].
    rewrite Herror. cbn [pfLog lift then_ app]. rewrite Htrue. cbn [pfLog lift then_ app].
    rewrite Hmessage. cbn [pfLog lift then_ app]. rewrite Hmtrue, Hrejected.
    cbn [pfLog lift then_ app].
    destruct (walletconnect_sender B wc tx) as [trace r]. cbn [fst snd] in *. subst r.
    cbn. unfold logger_calls in *. cbn. rewrite omap_app, Hquiet. reflexivity.
Qed.

Lemma walletconnect_request_response_pairing_witness :
  let wc := {| clientId := "dapp"; peerId := "wallet"; chainId := 137;
               key := "00"; peerMeta_name := "Rainbow" |} in
  exists st',
    (on_walletconnect_request sample_bridge paired tx_request).2 = JS.Ok st'
    /\ (forall error hash,
          JS.get_prop tx_result "error" = JS.Ok error ->
          JS.truthy error = false ->
          JS.get_prop tx_result "result" = JS.Ok hash ->
          logger_calls (on_walletconnect_response sample_bridge st' wc tx_result).1
          = [logSendTransaction sample_tx PENDING hash rainbow_sender])
    /\ (forall error message,
          JS.get_prop tx_result "error" = JS.Ok error ->
          JS.truthy error = true ->
          JS.get_prop error "message" = JS.Ok message ->
          JS.truthy message = true ->
          JS.includes message "rejected" = JS.Ok true ->
          logger_calls (on_walletconnect_response sample_bridge st' wc tx_result).1
          = [logSendTransaction sample_tx CANCELLED JS.VNull rainbow_sender]).
Proof.
  intros wc.
  apply (walletconnect_request_response_pairing sample_bridge paired wc
           tx_request tx_result (JS.VNum 1) (JS.VArr [sample_tx]) sample_tx rainbow_sender);
    try reflexivity.
  discriminate.
Defined.
